(** * Model registry and ensemble predictor: a shallow embedding

    The development follows [src/ml/model_registry.py] and
    [src/ml/ensemble_predictor.py].

    - Python dictionaries with a fixed set of keys are records; a key the
      source reads through [dict.get] is an [option] field ([None]: the key
      is absent), a key it reads through [d[k]] is a plain field.
    - The metric values of a registry entry, which the source only stores
      and compares, are canonical rationals [Qc]. The weights and
      probabilities the predictor computes with are Python floats and
      [numpy] float64 values: IEEE 754 binary64 numbers ([PrimFloat.float]),
      every sum, product and quotient rounded as the machine rounds it.
    - The ledger [self.registry['models']] is a [list ModelEntry]; a
      reference to one of its dictionaries is the pair of its position and
      its contents, so that in-place updates of an entry are updates of the
      ledger at that position.
    - [datetime.now()] and [uuid4()] read from sources carried by the
      world; raising an exception derived from [Exception] is the left
      summand of the result. Logging and failures of the file system are
      left out.
    - [numpy] arrays are lists, with the shape rules of the operations the
      source applies to them. *)

From Stdlib Require Import QArith Qcanon Floats.
From stdpp Require Import numbers strings gmap sorting pretty.
From stdpp Require Import list.

(** A decimal constant denotes the binary64 value nearest to it, as it does
    in Python. *)
#[local] Set Warnings "-inexact-float".

#[local] Open Scope Qc_scope.

(** ** Python values and built-ins used by the source *)

Module Py.

(** Exceptions derived from [Exception]; [RuntimeError] stands for any
    other such exception a collaborator raises. *)
Inductive PyExc :=
| ValueError (msg : string)
| KeyError (key : string)
| IndexError (msg : string)
| RuntimeError (msg : string).

#[global] Instance PyExc_eq_dec : EqDecision PyExc.
Proof. solve_decision. Defined.

(** [str(e)] *)
Definition str_exc (e : PyExc) : string :=
  match e with
  | ValueError msg => msg
  | KeyError key => "'" +:+ key +:+ "'"
  | IndexError msg => msg
  | RuntimeError msg => msg
  end.

(** Truthiness of a string: [not s] holds exactly for the empty string. *)
Definition truthy (s : string) : bool := negb (String.eqb s "").

(** [max(l, key=key)]: the first element whose key no later element
    exceeds; [None] stands for the [ValueError] on an empty list, which
    every call site guards against. *)
Fixpoint max_from {A K} (ltb : K → K → bool) (key : A → K)
    (best : A) (l : list A) : A :=
  match l with
  | [] => best
  | x :: l' => max_from ltb key (if ltb (key best) (key x) then x else best) l'
  end.

Definition max_by {A K} (ltb : K → K → bool) (key : A → K)
    (l : list A) : option A :=
  match l with
  | [] => None
  | x :: l' => Some (max_from ltb key x l')
  end.

(** [sorted(l, key=key, reverse=True)] and [l.sort(key=key, reverse=True)]:
    a stable sort, greatest key first; elements with equal keys keep
    their relative order. *)
Fixpoint insert_desc {A K} (ltb : K → K → bool) (key : A → K)
    (x : A) (l : list A) : list A :=
  match l with
  | [] => [x]
  | y :: l' =>
      if ltb (key x) (key y) then y :: insert_desc ltb key x l'
      else x :: y :: l'
  end.

Definition sorted_desc {A K} (ltb : K → K → bool) (key : A → K)
    (l : list A) : list A :=
  foldr (insert_desc ltb key) [] l.

(** [l[:k]] for an integer [k], negative values counting from the end. *)
Definition slice_to {A} (k : Z) (l : list A) : list A :=
  if (k <? 0)%Z then take (Z.to_nat (Z.of_nat (length l) + k)) l
  else take (Z.to_nat k) l.

(** [l.remove(x)]: drops the first element equal to [x]; [None] stands
    for the [ValueError] raised when there is none. *)
Fixpoint list_remove `{EqDecision A} (x : A) (l : list A) : option (list A) :=
  match l with
  | [] => None
  | y :: l' =>
      if decide (y = x) then Some l'
      else cons y <$> list_remove x l'
  end.

(** The objects of a list: every element with its position. *)
Definition objects {A} (l : list A) : list (nat * A) := imap pair l.

(** Comparison of strings, as Python compares [str] values. *)
Definition str_ltb (s t : string) : bool := String.ltb s t.

Definition Qc_ltb (x y : Qc) : bool := bool_decide (x < y).

(** Equality of floats as values: the two zeros differ, and NaN is one
    value. *)
#[global] Instance float_eq_dec : EqDecision float.
Proof.
  intros x y. destruct (PrimFloat.Leibniz.eqb x y) eqn:Heq.
  - left. by apply FloatAxioms.Leibniz.eqb_spec.
  - right. intros Hxy. apply FloatAxioms.Leibniz.eqb_spec in Hxy. congruence.
Defined.

(** [float(n)] for the length [n] of a list, as [/] converts an integer
    operand. *)
Definition py_float (n : nat) : float :=
  PrimFloat.of_uint63 (Uint63.of_nat n).

End Py.

Import Py.

(** ** The registry store ([src/ml/model_registry.py]) *)

Module Registry.

(** One dictionary of [registry['models']]. *)
Record ModelEntry := mkEntry {
  e_id : string;
  e_version : string;
  e_algorithm : string;
  e_metrics : gmap string Qc;
  e_created_at : string;
  e_status : string;
  e_file_path : string;
  e_model_type : option string;
  e_training_session_id : option string;
  e_description : string;
  e_tags : list string;
  e_updated_at : option string;
  e_promoted_at : option string
}.

#[global] Instance ModelEntry_eq_dec : EqDecision ModelEntry.
Proof. solve_decision. Defined.

Definition set_status (s : string) (e : ModelEntry) : ModelEntry :=
  mkEntry (e_id e) (e_version e) (e_algorithm e) (e_metrics e)
    (e_created_at e) s (e_file_path e) (e_model_type e)
    (e_training_session_id e) (e_description e) (e_tags e)
    (e_updated_at e) (e_promoted_at e).

Definition set_updated_at (t : string) (e : ModelEntry) : ModelEntry :=
  mkEntry (e_id e) (e_version e) (e_algorithm e) (e_metrics e)
    (e_created_at e) (e_status e) (e_file_path e) (e_model_type e)
    (e_training_session_id e) (e_description e) (e_tags e)
    (Some t) (e_promoted_at e).

Definition set_promoted_at (t : string) (e : ModelEntry) : ModelEntry :=
  mkEntry (e_id e) (e_version e) (e_algorithm e) (e_metrics e)
    (e_created_at e) (e_status e) (e_file_path e) (e_model_type e)
    (e_training_session_id e) (e_description e) (e_tags e)
    (e_updated_at e) (Some t).

(** [x['metrics'].get('accuracy', 0)] *)
Definition accuracy (e : ModelEntry) : Qc :=
  default 0 (e_metrics e !! "accuracy").

(** [model.get('model_type', 'unknown')] *)
Definition type_or_unknown (e : ModelEntry) : string :=
  default "unknown" (e_model_type e).

(** The argument of [add_model]: any of its keys may be absent. *)
Record ModelData := mkData {
  md_id : option string;
  md_version : option string;
  md_algorithm : option string;
  md_metrics : option (gmap string Qc);
  md_status : option string;
  md_file_path : option string;
  md_model_type : option string;
  md_training_session_id : option string;
  md_description : option string;
  md_tags : option (list string)
}.

(** [self.registry] *)
Record RegistryDoc := mkDoc {
  version : string;
  created_at : string;
  updated_at : string;
  models : list ModelEntry
}.

(** The registry object together with what it reads and writes: the
    document stored at [registry_path], the clock and the uuid source
    (the [n]-th reading of each, and how many readings were made). *)
Record World := mkWorld {
  registry : RegistryDoc;
  file : option RegistryDoc;
  clock : nat → string;
  ticks : nat;
  uuid_source : nat → string;
  uuids : nat
}.

Definition ledger (w : World) : list ModelEntry := models (registry w).

Definition with_registry (r : RegistryDoc) (w : World) : World :=
  mkWorld r (file w) (clock w) (ticks w) (uuid_source w) (uuids w).

Definition with_models (l : list ModelEntry) (w : World) : World :=
  with_registry
    (mkDoc (version (registry w)) (created_at (registry w))
       (updated_at (registry w)) l) w.

(** *** Computations that read and change the world and may raise *)

Definition M (A : Type) : Type := World → (PyExc + A) * World.

#[global] Instance M_ret : MRet M := λ A a w, (inr a, w).
#[global] Instance M_bind : MBind M := λ A B f c w,
  match c w with
  | (inl e, w') => (inl e, w')
  | (inr a, w') => f a w'
  end.

Definition raise {A} (e : PyExc) : M A := λ w, (inl e, w).
Definition get_ledger : M (list ModelEntry) := λ w, (inr (ledger w), w).
Definition put_ledger (l : list ModelEntry) : M unit :=
  λ w, (inr tt, with_models l w).

(** [datetime.now().isoformat()] *)
Definition now : M string := λ w,
  (inr (clock w (ticks w)),
   mkWorld (registry w) (file w) (clock w) (S (ticks w))
     (uuid_source w) (uuids w)).

(** [str(uuid4())] *)
Definition uuid4 : M string := λ w,
  (inr (uuid_source w (uuids w)),
   mkWorld (registry w) (file w) (clock w) (ticks w)
     (uuid_source w) (S (uuids w))).

(** [d[key]] on an argument dictionary *)
Definition subscript {A} (key : string) (v : option A) : M A :=
  match v with
  | Some a => mret a
  | None => raise (KeyError key)
  end.

(** [_save_registry()]: stamps [updated_at] and writes the document. *)
Definition write_registry (t : string) : M unit := λ w,
  let r := mkDoc (version (registry w)) (created_at (registry w))
             t (models (registry w)) in
  (inr tt, mkWorld r (Some r) (clock w) (ticks w) (uuid_source w) (uuids w)).

Definition _save_registry : M unit :=
  t ← now; write_registry t.

(** *** Queries *)

Definition get_models_by_status (l : list ModelEntry) (status : string)
    : list (nat * ModelEntry) :=
  filter (λ m, e_status m.2 = status) (objects l).

Definition get_models_by_type (l : list ModelEntry) (model_type : string)
    : list (nat * ModelEntry) :=
  filter (λ m, e_model_type m.2 = Some model_type) (objects l).

Definition get_active_model (l : list ModelEntry) (model_type : option string)
    : option (nat * ModelEntry) :=
  let active_models := get_models_by_status l "active" in
  let active_models :=
    match model_type with
    | Some t =>
        if truthy t
        then filter (λ m, e_model_type m.2 = Some t) active_models
        else active_models
    | None => active_models
    end in
  max_by str_ltb (λ x, e_created_at x.2) active_models.

Definition get_model_by_id (l : list ModelEntry) (model_id : string)
    : option (nat * ModelEntry) :=
  list_find (λ m, e_id m = model_id) l.

(** *** [add_model] *)

Definition required_fields (d : ModelData) : list (string * bool) :=
  [("id", bool_decide (is_Some (md_id d)));
   ("version", bool_decide (is_Some (md_version d)));
   ("algorithm", bool_decide (is_Some (md_algorithm d)));
   ("metrics", bool_decide (is_Some (md_metrics d)));
   ("status", bool_decide (is_Some (md_status d)));
   ("file_path", bool_decide (is_Some (md_file_path d)))].

(** The validation loop: the first required key that is missing. *)
Definition first_missing (d : ModelData) : option string :=
  fst <$> (snd <$> list_find (λ f, f.2 = false) (required_fields d)).

(** [_deactivate_other_models(model_type)] *)
Definition deactivate (model_type : string) (model : ModelEntry) : ModelEntry :=
  if bool_decide (e_model_type model = Some model_type)
     && bool_decide (e_status model = "active")
     && negb (bool_decide (e_status model = "candidate"))
  then set_status "archived" model
  else model.

Definition _deactivate_other_models (model_type : string) : M unit :=
  l ← get_ledger;
  put_ledger (deactivate model_type <$> l).

Definition add_model (model_data : ModelData) : M nat :=
  match first_missing model_data with
  | Some field => raise (ValueError ("Missing required field: " +:+ field))
  | None =>
      id ← (if negb (truthy (default "" (md_id model_data)))
            then uuid4 else subscript "id" (md_id model_data));
      algorithm ← subscript "algorithm" (md_algorithm model_data);
      metrics ← subscript "metrics" (md_metrics model_data);
      created ← now;
      file_path ← subscript "file_path" (md_file_path model_data);
      let model_entry :=
        mkEntry id (default "v1.0.0" (md_version model_data))
          algorithm metrics created
          (default "candidate" (md_status model_data))
          file_path
          (Some (default "unknown" (md_model_type model_data)))
          (md_training_session_id model_data)
          (default "" (md_description model_data))
          (default [] (md_tags model_data))
          None None in
      l ← get_ledger;
      put_ledger (l ++ [model_entry]);;
      (if bool_decide (e_status model_entry = "active")
       then _deactivate_other_models (type_or_unknown model_entry)
       else mret tt);;
      _save_registry;;
      mret (length l)
  end.

(** *** [update_model_status] and promotion *)

Definition valid_statuses : list string := ["active"; "candidate"; "archived"].

(** An in-place update of the dictionary at position [i]. *)
Definition update_at (i : nat) (f : ModelEntry → ModelEntry) : M unit :=
  l ← get_ledger;
  put_ledger (alter f i l).

Definition _promote_best_candidate (model_type : string) : M unit :=
  l ← get_ledger;
  let candidates := get_models_by_type l model_type in
  let candidates := filter (λ c, e_status c.2 = "candidate") candidates in
  match max_by Qc_ltb (λ x, accuracy x.2) candidates with
  | Some best_candidate =>
      update_at best_candidate.1 (set_status "active");;
      t ← now;
      update_at best_candidate.1 (set_promoted_at t)
  | None => mret tt
  end.

Definition update_model_status (model_id new_status : string) : M bool :=
  if bool_decide (new_status ∈ valid_statuses) then
    l ← get_ledger;
    match get_model_by_id l model_id with
    | None => raise (ValueError ("Model not found: " +:+ model_id))
    | Some model =>
        let old_status := e_status model.2 in
        update_at model.1 (set_status new_status);;
        t ← now;
        update_at model.1 (set_updated_at t);;
        (if bool_decide (new_status = "active")
         then _deactivate_other_models (type_or_unknown model.2)
         else if bool_decide (old_status = "active")
                 && negb (bool_decide (new_status = "active"))
         then _promote_best_candidate (type_or_unknown model.2)
         else mret tt);;
        _save_registry;;
        mret true
    end
  else
    raise (ValueError ("Invalid status: " +:+ new_status +:+
             ". Must be one of ['active', 'candidate', 'archived']")).

(** *** [cleanup_old_models] *)

(** [models_by_type]: a dictionary in insertion order. *)
Fixpoint group_add (t : string) (m : ModelEntry)
    (g : list (string * list ModelEntry)) : list (string * list ModelEntry) :=
  match g with
  | [] => [(t, [m])]
  | (t', ms) :: g' =>
      if decide (t' = t) then (t', ms ++ [m]) :: g'
      else (t', ms) :: group_add t m g'
  end.

Definition group_by_type (l : list ModelEntry)
    : list (string * list ModelEntry) :=
  foldl (λ g m, group_add (type_or_unknown m) m g) [] l.

Definition models_to_remove (keep_per_type : Z) (models : list ModelEntry)
    : list ModelEntry :=
  let models := sorted_desc str_ltb e_created_at models in
  let to_keep := filter (λ m, e_status m ∈ ["active"; "candidate"]) models in
  let archived_models := filter (λ m, e_status m = "archived") models in
  let to_keep := to_keep ++ slice_to keep_per_type archived_models in
  filter (λ m, m ∉ to_keep) models.

(** [self.registry['models'].remove(model)] *)
Definition remove_model (model : ModelEntry) : M unit :=
  l ← get_ledger;
  match list_remove model l with
  | Some l' => put_ledger l'
  | None => raise (ValueError "list.remove(x): x not in list")
  end.

Fixpoint remove_all (ms : list ModelEntry) (cleaned_up : nat) : M nat :=
  match ms with
  | [] => mret cleaned_up
  | model :: ms' => remove_model model;; remove_all ms' (S cleaned_up)
  end.

Fixpoint cleanup_groups (keep_per_type : Z)
    (groups : list (string * list ModelEntry)) (cleaned_up : nat) : M nat :=
  match groups with
  | [] => mret cleaned_up
  | (_, models) :: groups' =>
      cleaned_up ←
        remove_all (models_to_remove keep_per_type models) cleaned_up;
      cleanup_groups keep_per_type groups' cleaned_up
  end.

Definition cleanup_old_models (keep_per_type : Z) : M nat :=
  l ← get_ledger;
  cleaned_up ← cleanup_groups keep_per_type (group_by_type l) 0;
  (if bool_decide (0 < cleaned_up)%nat then _save_registry else mret tt);;
  mret cleaned_up.

(** *** [import_registry] *)

Definition put_registry (r : RegistryDoc) : M unit :=
  λ w, (inr tt, with_registry r w).

(** [import_data] is what the import file holds: [None] when it is
    missing or unreadable, otherwise its list of models, taken to carry the
    keys the registry reads with [m[key]]. Every exception is caught and
    turned into the result [False]. *)
Definition import_registry (import_data : option (list ModelEntry))
    (merge : bool) : M bool :=
  match import_data with
  | None => mret false
  | Some imported_models =>
      (if merge then
         l ← get_ledger;
         let existing_ids : gset string := list_to_set (e_id <$> l) in
         let new_models :=
           filter (λ m, e_id m ∉ existing_ids) imported_models in
         put_ledger (l ++ new_models)
       else
         t1 ← now;
         t2 ← now;
         put_registry (mkDoc "1.0.0" t1 t2 imported_models));;
      _save_registry;;
      mret true
  end.

(** *** Running calls *)

Definition result {A} (c : M A) (w : World) : PyExc + A := (c w).1.
Definition after {A} (c : M A) (w : World) : World := (c w).2.

(** A registry as [_load_or_initialize_registry] creates it. *)
Definition fresh_world (clock uuid_source : nat → string) : World :=
  after _save_registry
    (mkWorld (mkDoc "1.0.0" (clock 0%nat) (clock 1%nat) []) None
       clock 2 uuid_source 0).

End Registry.

(** ** The prediction blender ([src/ml/ensemble_predictor.py]) *)

Module Blender.

#[local] Close Scope Qc_scope.
#[local] Open Scope float_scope.

(** A class label: what [model.predict] returns, or a class index. *)
Inductive PyLabel :=
| IntLabel (n : Z)
| StrLabel (s : string).

#[global] Instance PyLabel_eq_dec : EqDecision PyLabel.
Proof. solve_decision. Defined.

(** A one-dimensional [numpy] array of dtype float64. *)
Definition ndarray : Type := list float.

(** Functions that may raise. *)
Definition Exc (A : Type) : Type := PyExc + A.

#[global] Instance Exc_ret : MRet Exc := λ A a, inr a.
#[global] Instance Exc_bind : MBind Exc := λ A B f c,
  match c with
  | inl e => inl e
  | inr a => f a
  end.

(** [np.zeros(n)] *)
Definition np_zeros (n : nat) : ndarray := replicate n 0.

(** [a * w] for an array [a] and a number [w] *)
Definition np_scale (a : ndarray) (w : float) : ndarray := (λ x, x * w) <$> a.

(** The shape [(n,)] as [numpy] prints it in a message. *)
Definition shape_str (n : nat) : string := "(" +:+ pretty n +:+ ",)".

(** [a += b]: [b] must have the shape of [a], or a single element, which
    is then added to every element of [a]; any other shape raises: the
    operands cannot be broadcast together, or (for an [a] of one element)
    their broadcast does not fit into [a]. *)
Definition np_iadd (a b : ndarray) : Exc ndarray :=
  if decide (length b = length a) then inr (zip_with PrimFloat.add a b)
  else
    match b with
    | [y] => inr ((λ x, x + y) <$> a)
    | _ =>
        if decide (length a = 1%nat)
        then inl (ValueError
                    ("non-broadcastable output operand with shape "
                     +:+ shape_str (length a)
                     +:+ " doesn't match the broadcast shape "
                     +:+ shape_str (length b)))
        else inl (ValueError
                    ("operands could not be broadcast together with shapes "
                     +:+ shape_str (length a) +:+ " "
                     +:+ shape_str (length b) +:+ " "
                     +:+ shape_str (length a) +:+ " "))
    end.

(** [a /= w] *)
Definition np_idiv (a : ndarray) (w : float) : ndarray := (λ x, x / w) <$> a.

(** The test by which the scans of [np.argmax] and [np.max] replace the
    greatest element [mp] found so far by the next element [x]:
    [!(x <= mp)], the scan having stopped at a NaN. It orders the floats
    with NaN above every number. *)
Definition np_less (mp x : float) : bool :=
  negb (PrimFloat.is_nan mp) && negb (x <=? mp).

(** [np.max(a)] and [np.argmax(a)]: the greatest element and the first
    position holding it; [None] stands for the [ValueError] on an empty
    array. *)
Definition np_argmax (a : ndarray) : option nat :=
  fst <$> max_by np_less snd (objects a).

Definition np_max (a : ndarray) : option float :=
  snd <$> max_by np_less snd (objects a).

(** A dictionary in insertion order: assigning to a key that is present
    keeps its place. *)
Fixpoint dict_set {K V} `{EqDecision K} (k : K) (v : V) (d : list (K * V))
    : list (K * V) :=
  match d with
  | [] => [(k, v)]
  | (k', v') :: d' =>
      if decide (k' = k) then (k, v) :: d' else (k', v') :: dict_set k v d'
  end.

Fixpoint dict_get {K V} `{EqDecision K} (k : K) (d : list (K * V)) : option V :=
  match d with
  | [] => None
  | (k', v') :: d' => if decide (k' = k) then Some v' else dict_get k d'
  end.

Record Verdict := mkVerdict {
  prediction : PyLabel;
  confidence : float
}.

#[global] Instance Verdict_eq_dec : EqDecision Verdict.
Proof. solve_decision. Defined.

Section Blend.

(** The built-in [sum] on floats. How it rounds is not fixed: Python adds
    the numbers up from the left, and from version 3.12 on it also
    compensates the rounding errors of the additions. *)
Variable py_sum : list float → float.

(** [self.model_weights]; the [0] that [.get(model_id, 0)] gives for an
    absent key stands as the float it becomes in the sums and products. *)
Variable model_weights : gmap string float.

(** [sorted(list(all_classes))], for the union [all_classes] of the
    [range(len(proba))]: the indices below the greatest length. *)
Definition all_classes (probabilities : list (string * ndarray)) : list nat :=
  seq 0 (foldr Nat.max 0%nat ((λ p, length p.2) <$> probabilities)).

(** The accumulation loop over [probabilities.items()]. *)
Fixpoint accumulate (probabilities : list (string * ndarray))
    (weighted_probs : ndarray) (total_weight : float)
    : Exc (ndarray * float) :=
  match probabilities with
  | [] => mret (weighted_probs, total_weight)
  | (model_id, proba) :: rest =>
      let weight := default 0 (model_weights !! model_id) in
      weighted_probs ← np_iadd weighted_probs (np_scale proba weight);
      accumulate rest weighted_probs (total_weight + weight)
  end.

(** [weighted_probs] as it stands after the normalisation step. *)
Definition blended_probs (probabilities : list (string * ndarray))
    : Exc ndarray :=
  let all_classes := all_classes probabilities in
  '(weighted_probs, total_weight) ←
    accumulate probabilities (np_zeros (length all_classes)) 0;
  mret (if 0 <? total_weight
        then np_idiv weighted_probs total_weight
        else weighted_probs).

Definition _weighted_probability_ensemble
    (probabilities : list (string * ndarray)) : Exc Verdict :=
  let all_classes := all_classes probabilities in
  weighted_probs ← blended_probs probabilities;
  match np_argmax weighted_probs, np_max weighted_probs with
  | Some i, Some confidence =>
      match all_classes !! i with
      | Some predicted_class =>
          mret (mkVerdict (IntLabel (Z.of_nat predicted_class)) confidence)
      | None => inl (IndexError "list index out of range")
      end
  | _, _ => inl (ValueError "attempt to get argmax of an empty sequence")
  end.

Definition _weighted_voting_ensemble
    (predictions : list (string * PyLabel)) : Exc Verdict :=
  let vote_counts :=
    foldl (λ vote_counts p,
             let weight := default 0 (model_weights !! p.1) in
             dict_set p.2 (default 0 (dict_get p.2 vote_counts) + weight)
               vote_counts)
      [] predictions in
  match max_by PrimFloat.ltb snd vote_counts with
  | Some (predicted_class, votes) =>
      let total_votes := py_sum (snd <$> vote_counts) in
      mret (mkVerdict predicted_class
              (if 0 <? total_votes then votes / total_votes else 0))
  | None => inl (ValueError "max() arg is an empty sequence")
  end.

Definition _ensemble_predict (predictions : list (string * PyLabel))
    (probabilities : list (string * ndarray)) : Exc Verdict :=
  match predictions with
  | [] => inl (ValueError "No predictions to ensemble")
  | [(model_id, pred)] => mret (mkVerdict pred 1)
  | _ =>
      match probabilities with
      | [] => _weighted_voting_ensemble predictions
      | _ => _weighted_probability_ensemble probabilities
      end
  end.

End Blend.

End Blender.

(** ** The ensemble loader and the predictor ([src/ml/ensemble_predictor.py]) *)

Module Ensemble.

Import Registry Blender.

#[local] Close Scope Qc_scope.

Section Predictor.

(** The collaborators' data: a match as the caller passes it, the
    feature frame a model consumes, and the feature description stored
    with a model. *)
Context {MatchData Features FeatureInfo : Type}.

(** A trained model: [predict(X)[0]] and, when the object has the
    attribute, [predict_proba(X)[0]]. *)
Record ModelHandle := mkHandle {
  predict : Features → Exc PyLabel;
  predict_proba : option (Features → Exc ndarray)
}.

Record ModelPackage := mkPackage {
  pk_model : ModelHandle;
  pk_feature_info : FeatureInfo
}.

Record Member := mkMember {
  m_model : ModelHandle;
  m_feature_info : FeatureInfo;
  m_model_entry : ModelEntry
}.

Record ModelInfo := mkInfo {
  i_version : string;
  i_algorithm : string;
  i_accuracy : Qc;
  i_status : string
}.

Record Predictor := mkPredictor {
  model_type : option string;
  models : list (string * Member);
  model_weights : gmap string float;
  model_info : gmap string ModelInfo;
  feature_engineer : bool
}.

(** [joblib.load] on a path: [None] when the file does not exist or
    loading it (or reading its ['model']) raises. *)
Variable artifacts : string → option ModelPackage.

(** [_preprocess_data] for a match and a model type. *)
Variable preprocess : MatchData → string → Exc Features.

(** The built-in [sum] on floats. *)
Variable py_sum : list float → float.

Definition _load_single_model (model_entry : ModelEntry) (weight : float)
    (p : Predictor) : Predictor :=
  match artifacts (e_file_path model_entry) with
  | None => p
  | Some model_package =>
      let model_id := e_id model_entry in
      mkPredictor (model_type p)
        (dict_set model_id
           (mkMember (pk_model model_package)
              (pk_feature_info model_package) model_entry)
           (models p))
        (<[model_id := weight]> (model_weights p))
        (<[model_id := mkInfo (e_version model_entry)
                         (e_algorithm model_entry) (accuracy model_entry)
                         (e_status model_entry)]> (model_info p))
        true
  end.

(** [if self.model_type: ms = [m for m in ms if ...]] *)
Definition of_requested_type (p : Predictor) (ms : list (nat * ModelEntry))
    : list (nat * ModelEntry) :=
  match model_type p with
  | Some t =>
      if truthy t then filter (λ m, e_model_type m.2 = Some t) ms else ms
  | None => ms
  end.

Definition _load_models (l : list ModelEntry) (p : Predictor) : Predictor :=
  let active_models := get_models_by_status l "active" in
  let candidate_models := get_models_by_status l "candidate" in
  let active_models := of_requested_type p active_models in
  let candidate_models := of_requested_type p candidate_models in
  let p :=
    match max_by str_ltb (λ x, e_created_at x.2) active_models with
    | Some champion => _load_single_model champion.2 0.7%float p
    | None => p
    end in
  let challengers :=
    take 2 (sorted_desc Qc_ltb (λ x, accuracy x.2) candidate_models) in
  let remaining_weight := 0.3%float in
  let challenger_weight :=
    match challengers with
    | [] => 0%float
    | _ => (remaining_weight / py_float (length challengers))%float
    end in
  foldl (λ p challenger, _load_single_model challenger.2 challenger_weight p)
    p challengers.

(** *** [predict_single] and [predict_batch] *)

Record PredictionResult := mkResult {
  r_prediction : PyLabel;
  r_confidence : float;
  r_model_weights : gmap string float;
  r_individual_predictions : list (string * PyLabel);
  r_individual_probabilities : list (string * ndarray);
  r_model_info : gmap string ModelInfo;
  r_ensemble_method : string;
  r_timestamp : string;
  r_probability_breakdown :
    option (list (string * (ndarray * float * ModelInfo)));
  r_match_index : option nat
}.

Definition set_match_index (i : nat) (r : PredictionResult)
    : PredictionResult :=
  mkResult (r_prediction r) (r_confidence r) (r_model_weights r)
    (r_individual_predictions r) (r_individual_probabilities r)
    (r_model_info r) (r_ensemble_method r) (r_timestamp r)
    (r_probability_breakdown r) (Some i).

(** One slot of the list [predict_batch] returns. *)
Inductive BatchSlot :=
| Predicted (prediction : PredictionResult)
| Failed (match_index : nat) (error : string) (timestamp : string).

Definition lift {A} (c : Exc A) : M A := λ w, (c, w).

(** [try: ... except Exception as e: ...] *)
Definition catch {A} (c : M A) : M (PyExc + A) := λ w,
  ((inr (c w).1), (c w).2).

(** The loop over [self.models.items()]: a model whose call raises is
    skipped, keeping what it had stored before the failure. *)
Fixpoint collect (X : Features) (members : list (string * Member))
    (predictions : list (string * PyLabel))
    (probabilities : list (string * ndarray))
    : list (string * PyLabel) * list (string * ndarray) :=
  match members with
  | [] => (predictions, probabilities)
  | (model_id, model_data) :: rest =>
      let model := m_model model_data in
      match predict model X with
      | inl _ => collect X rest predictions probabilities
      | inr pred =>
          let predictions := dict_set model_id pred predictions in
          match predict_proba model with
          | None => collect X rest predictions probabilities
          | Some proba_of =>
              match proba_of X with
              | inl _ => collect X rest predictions probabilities
              | inr proba =>
                  collect X rest predictions
                    (dict_set model_id proba probabilities)
              end
          end
      end
  end.

(** [_get_probability_breakdown]; [self.model_info[model_id]] raises when
    the key is absent. *)
Fixpoint _get_probability_breakdown (p : Predictor)
    (probabilities : list (string * ndarray))
    : Exc (list (string * (ndarray * float * ModelInfo))) :=
  match probabilities with
  | [] => mret []
  | (model_id, proba) :: rest =>
      info ← match model_info p !! model_id with
             | Some info => mret info
             | None => inl (KeyError model_id)
             end;
      breakdown ← _get_probability_breakdown p rest;
      mret ((model_id,
             (proba, default 0%float (model_weights p !! model_id), info))
              :: breakdown)
  end.

Definition predict_single (p : Predictor) (match_data : MatchData)
    : M PredictionResult :=
  match models p with
  | [] => raise (ValueError "No models loaded for prediction")
  | _ =>
      let requested :=
        match model_type p with
        | Some t => if truthy t then t else "full_time"
        | None => "full_time"
        end in
      X_processed ← lift (preprocess match_data requested);
      let '(predictions, probabilities) :=
        collect X_processed (models p) [] [] in
      match predictions with
      | [] => raise (ValueError "All model predictions failed")
      | _ =>
          ensemble_result ←
            lift (_ensemble_predict py_sum (model_weights p)
                    predictions probabilities);
          t ← now;
          breakdown ←
            lift (match probabilities with
                  | [] => inr None
                  | _ =>
                      match _get_probability_breakdown p probabilities with
                      | inl e => inl e
                      | inr breakdown => inr (Some breakdown)
                      end
                  end);
          mret (mkResult (prediction ensemble_result)
                  (confidence ensemble_result) (model_weights p)
                  predictions probabilities (model_info p)
                  "weighted_average" t breakdown None)
      end
  end.

Fixpoint batch_loop (p : Predictor) (i : nat) (matches_data : list MatchData)
    (results : list BatchSlot) : M (list BatchSlot) :=
  match matches_data with
  | [] => mret results
  | match_data :: rest =>
      outcome ← catch (predict_single p match_data);
      match outcome with
      | inr prediction =>
          batch_loop p (S i) rest
            (results ++ [Predicted (set_match_index i prediction)])
      | inl e =>
          t ← now;
          batch_loop p (S i) rest (results ++ [Failed i (str_exc e) t])
      end
  end.

Definition predict_batch (p : Predictor) (matches_data : list MatchData)
    : M (list BatchSlot) :=
  batch_loop p 0 matches_data [].

End Predictor.

End Ensemble.

(** ** Opening, summarising and exporting the registry
    ([src/ml/model_registry.py]) *)

Module RegistryFiles.

Import Registry Blender.

(** *** [_load_or_initialize_registry] and [__init__] *)

(** [_save_registry(document)] on a document that is not yet
    [self.registry]: the document is stamped in place and written. *)
Definition write_document (document : RegistryDoc) (t : string)
    : M RegistryDoc := λ w,
  let document := mkDoc (version document) (created_at document) t
                    (models document) in
  (inr document,
   mkWorld (registry w) (Some document) (clock w) (ticks w)
     (uuid_source w) (uuids w)).

Definition save_document (document : RegistryDoc) : M RegistryDoc :=
  t ← now; write_document document t.

(** [file w] is [None] when there is no file at [registry_path], or when
    loading it fails. *)
Definition _load_or_initialize_registry : M RegistryDoc := λ w,
  match file w with
  | Some loaded => (inr loaded, w)
  | None =>
      (t1 ← now;
       t2 ← now;
       save_document (mkDoc "1.0.0" t1 t2 [])) w
  end.

(** [self.registry = self._load_or_initialize_registry()] *)
Definition __init__ : M unit :=
  loaded ← _load_or_initialize_registry;
  put_registry loaded.

(** *** [get_model_performance_summary] *)

Record BestModel := mkBest {
  b_id : string;
  b_version : string;
  b_accuracy : Qc;
  b_status : string
}.

#[global] Instance BestModel_eq_dec : EqDecision BestModel.
Proof. solve_decision. Defined.

(** The summary dictionary; on an empty registry it holds the key
    ['total_models'] alone. *)
Record Summary := mkSummary {
  total_models : nat;
  status_distribution : option (list (string * nat));
  type_distribution : option (list (string * nat));
  algorithm_distribution : option (list (string * nat));
  best_models : option (gmap string BestModel)
}.

(** The three counting loops: [d[v] = d.get(v, 0) + 1] for the value [v]
    of each model. *)
Definition distribution (value : ModelEntry → string) (l : list ModelEntry)
    : list (string * nat) :=
  foldl (λ counts model,
           dict_set (value model)
             (default 0%nat (dict_get (value model) counts) + 1)%nat counts)
    [] l.

(** The loop over [set(model.get('model_type', 'unknown') ...)]. The order
    in which a set is visited is not specified; every type is visited once
    and assigns to its own key, so the dictionary is a finite map. *)
Definition best_by_type (l : list ModelEntry) : gmap string BestModel :=
  set_fold
    (λ model_type best_models,
       let type_models := get_models_by_type l model_type in
       match max_by Qc_ltb (λ x, accuracy x.2) type_models with
       | Some best_model =>
           <[model_type :=
               mkBest (e_id best_model.2) (e_version best_model.2)
                 (accuracy best_model.2) (e_status best_model.2)]>
             best_models
       | None => best_models
       end)
    ∅ (list_to_set (type_or_unknown <$> l) : gset string).

Definition get_model_performance_summary (l : list ModelEntry) : Summary :=
  match l with
  | [] => mkSummary 0 None None None None
  | _ =>
      mkSummary (length l)
        (Some (distribution e_status l))
        (Some (distribution type_or_unknown l))
        (Some (distribution e_algorithm l))
        (Some (best_by_type l))
  end.

(** *** [export_registry] *)




End RegistryFiles.

(** ** Reports of the predictor ([src/ml/ensemble_predictor.py]) *)

Module EnsembleReports.

Import Registry Blender Ensemble.

Section Reports.

Context {MatchData Features FeatureInfo : Type}.

Variable preprocess : MatchData → string → Exc Features.
Variable py_sum : list float → float.

(** [accuracy_score(y_true, y_pred)] of scikit-learn. *)
Variable accuracy_score : list PyLabel → list PyLabel → Exc Qc.

Implicit Types p : @Predictor Features FeatureInfo.

(** *** [get_model_status] *)

Record ModelStatus := mkStatus {
  st_total_models : nat;
  st_models : list (string * (float * ModelInfo));
  st_model_type : option string;
  st_timestamp : string
}.

(** [d[key]] on a dictionary of the predictor. *)
Definition item {A} (key : string) (d : gmap string A) : Exc A :=
  match d !! key with
  | Some a => inr a
  | None => inl (KeyError key)
  end.

(** The comprehension over [self.models.keys()]. *)
Fixpoint status_of_models p (model_ids : list string)
    : Exc (list (string * (float * ModelInfo))) :=
  match model_ids with
  | [] => mret []
  | model_id :: rest =>
      weight ← item model_id (model_weights p);
      info ← item model_id (model_info p);
      statuses ← status_of_models p rest;
      mret ((model_id, (weight, info)) :: statuses)
  end.

Definition get_model_status p : M ModelStatus :=
  statuses ← lift (status_of_models p (models p).*1);
  t ← now;
  mret (mkStatus (length (models p)) statuses (model_type p) t).

(** *** [get_ensemble_performance] *)

(** What the call raises: an exception the source or a collaborator
    raises, or the [ZeroDivisionError] of a division. *)
Inductive Raised :=
| Exception (e : PyExc)
| ZeroDivisionError (msg : string).

Record Performance := mkPerformance {
  ensemble_accuracy : Qc;
  total_predictions : nat;
  successful_predictions : nat;
  failure_rate : Qc;
  pf_timestamp : string
}.

(** The loop over the rows: [None] stands in for a prediction that
    failed. *)
Fixpoint evaluation_loop p (rows : list MatchData)
    (predictions : list (option PyLabel)) : M (list (option PyLabel)) :=
  match rows with
  | [] => mret predictions
  | match_data :: rest =>
      outcome ← catch (predict_single preprocess py_sum p match_data);
      evaluation_loop p rest
        (predictions ++
           [match outcome with
            | inr pred_result => Some (r_prediction pred_result)
            | inl _ => None
            end])
  end.

(** [[(p, t) for p, t in zip(predictions, y_true) if p is not None]] *)
Definition valid_pairs (predictions : list (option PyLabel))
    (y_true : list PyLabel) : list (PyLabel * PyLabel) :=
  omap (λ pt : option PyLabel * PyLabel,
          match pt.1 with
          | Some pred => Some (pred, pt.2)
          | None => None
          end)
    (zip predictions y_true).

(** [a / b] on integers *)
Definition true_div (a b : Z) : Qc := Q2Qc (inject_Z a) / Q2Qc (inject_Z b).

Definition get_ensemble_performance p (validation_data : list MatchData)
    (y_true : list PyLabel) : World → (Raised + Performance) * World := λ w,
  match models p with
  | [] => (inl (Exception (ValueError "No models loaded for evaluation")), w)
  | _ =>
      match evaluation_loop p validation_data [] w with
      | (inl e, w) => (inl (Exception e), w)
      | (inr predictions, w) =>
          let valid_predictions := valid_pairs predictions y_true in
          let accuracy :=
            match valid_predictions with
            | [] => inr 0
            | _ => accuracy_score valid_predictions.*2 valid_predictions.*1
            end in
          match accuracy with
          | inl e => (inl (Exception e), w)
          | inr accuracy =>
              if decide (length predictions = 0%nat)
              then (inl (ZeroDivisionError "division by zero"), w)
              else
                (inr (mkPerformance accuracy (length predictions)
                        (length valid_predictions)
                        (true_div
                           (Z.of_nat (length predictions)
                            - Z.of_nat (length valid_predictions))
                           (Z.of_nat (length predictions)))
                        (clock w (ticks w))),
                 mkWorld (registry w) (file w) (clock w) (S (ticks w))
                   (uuid_source w) (uuids w))
          end
      end
  end.

End Reports.

End EnsembleReports.

(** ** Placeholders in the configuration
    ([_replace_env_variables] in [src/ml/ensemble_predictor.py]) *)

Module Config.

(** [s.startswith(prefix)], [s.endswith(suffix)] and [s[2:-1]] *)
Definition startswith (prefix s : string) : bool := String.prefix prefix s.

Definition endswith (suffix s : string) : bool :=
  (String.length suffix <=? String.length s)%nat
  && String.eqb
       (String.substring (String.length s - String.length suffix)
          (String.length suffix) s)
       suffix.

Definition strip_braces (s : string) : string :=
  String.substring 2 (String.length s - 3) s.

Section Config.

(** The keys of a mapping and the scalars that are not strings are left
    as they are. *)
Context {Key Other : Type}.

(** A value of the configuration, as [yaml.safe_load] returns it. *)
#[local] Unset Elimination Schemes.

Inductive ConfigValue :=
| CStr (s : string)
| CDict (items : list (Key * ConfigValue))
| CList (items : list ConfigValue)
| COther (v : Other).

#[local] Set Elimination Schemes.

(** [os.getenv]: the environment. *)
Variable getenv : string → option string.

Fixpoint replace_value (value : ConfigValue) : ConfigValue :=
  match value with
  | CStr s =>
      if startswith "${" s && endswith "}" s
      then let env_var := strip_braces s in CStr (default s (getenv env_var))
      else value
  | CDict items => CDict ((λ kv, (kv.1, replace_value kv.2)) <$> items)
  | CList items => CList (replace_value <$> items)
  | COther _ => value
  end.

Definition _replace_env_variables (config : ConfigValue) : ConfigValue :=
  replace_value config.

End Config.

End Config.

(** ** Registering a trained model ([src/ml/train_model.py]) *)

Module Trainer.

Import Registry.

(** The trainer's own attributes the registration reads. *)
Record ModelTrainer := mkTrainer {
  model_id : string;
  model_type : string;
  training_session_id : string
}.

(** [evaluation_results], with the two keys the registration reads. *)
Record EvaluationResults := mkEvaluation {
  ev_model_info : option (gmap string string);
  ev_metrics : option (gmap string Qc)
}.

(** [_register_model]: the dictionary it builds and returns, whose
    ['created_at'] is the time the trainer read. *)
Definition _register_model (self : ModelTrainer)
    (evaluation_results : EvaluationResults) (model_path : string)
    : M (ModelData * string) :=
  model_info ← subscript "model_info" (ev_model_info evaluation_results);
  algorithm ← subscript "model_class" (model_info !! "model_class");
  metrics ← subscript "metrics" (ev_metrics evaluation_results);
  accuracy ← subscript "accuracy" (metrics !! "accuracy");
  f1_score ← subscript "f1_score" (metrics !! "f1_score");
  precision ← subscript "precision" (metrics !! "precision");
  recall ← subscript "recall" (metrics !! "recall");
  let roc_auc := default 0 (metrics !! "roc_auc") in
  created_at ← now;
  let registry_entry :=
    mkData (Some (model_id self)) (Some "v1.0.0") (Some algorithm)
      (Some (<["accuracy" := accuracy]>
               (<["f1_score" := f1_score]>
                  (<["precision" := precision]>
                     (<["recall" := recall]> {[ "roc_auc" := roc_auc ]})))))
      (Some "candidate") (Some model_path) (Some (model_type self))
      (Some (training_session_id self)) None None in
  add_model registry_entry;;
  mret (registry_entry, created_at).

End Trainer.

(** * Notions used in the statements *)

#[local] Close Scope Qc_scope.

Module Notions.

Import Registry Blender Ensemble.

(** ** Orders *)

(** A comparison [ltb] that decides a strict weak order. *)
Class WeakOrder {K} (ltb : K → K → bool) := {
  ltb_irrefl x : ltb x x = false;
  ltb_trans x y z : ltb x y = true → ltb y z = true → ltb x z = true;
  ltb_negtrans x y z : ltb x y = false → ltb y z = false → ltb x z = false
}.

(** Closed statements, numbers included, are settled by evaluating their
    decision procedure. *)
Ltac by_evaluation := apply (bool_decide_unpack _); vm_compute; exact I.

(** A list whose keys never increase. *)
Definition descending {A K} (ltb : K → K → bool) (key : A → K)
    : relation A :=
  λ a b, ltb (key a) (key b) = false.

(** The order of [np_less] on the values the floats denote. *)
Definition sf_less (p q : spec_float) : bool :=
  match p with
  | S754_nan => false
  | _ => negb (SFleb q p)
  end.

(** ** The registry store *)

(** Unfolds a registry call down to the world it computes. *)
Ltac run :=
  unfold after, result, add_model, update_model_status,
    _promote_best_candidate, _deactivate_other_models, _save_registry,
    write_registry, update_at, now, uuid4, raise, get_ledger, put_ledger,
    put_registry, subscript, mbind, M_bind, mret, M_ret; simpl.

(** The dictionary [add_model] builds from [d] in the world [w], when
    every required key is present. *)
Definition stored_entry (d : ModelData) (w : World) : ModelEntry :=
  mkEntry
    (if truthy (default "" (md_id d)) then default "" (md_id d)
     else uuid_source w (uuids w))
    (default "v1.0.0" (md_version d))
    (default "" (md_algorithm d))
    (default ∅ (md_metrics d))
    (clock w (ticks w))
    (default "candidate" (md_status d))
    (default "" (md_file_path d))
    (Some (default "unknown" (md_model_type d)))
    (md_training_session_id d)
    (default "" (md_description d))
    (default [] (md_tags d))
    None None.

(** The candidates [_promote_best_candidate] chooses from, and the ledger
    it leaves when the clock reads [t]. *)
Definition candidates_of (T : string) (l : list ModelEntry)
    : list (nat * ModelEntry) :=
  filter (λ c, e_status c.2 = "candidate") (get_models_by_type l T).

Definition promoted (T t : string) (l : list ModelEntry) : list ModelEntry :=
  match max_by Qc_ltb (λ x, accuracy x.2) (candidates_of T l) with
  | Some best =>
      alter (set_promoted_at t) best.1 (alter (set_status "active") best.1 l)
  | None => l
  end.

(** The two writes of a promotion. *)
Definition promote (t : string) (m : ModelEntry) : ModelEntry :=
  set_promoted_at t (set_status "active" m).

(** The ledger after the two writes to the entry at position [i]. *)
Definition status_written (i : nat) (s t : string) (l : list ModelEntry)
    : list ModelEntry :=
  alter (set_updated_at t) i (alter (set_status s) i l).

(** The ledger [update_model_status] leaves when it finds the entry [m] at
    position [i] and the new status [s] is valid. *)
Definition status_updated (i : nat) (m : ModelEntry) (s : string)
    (w : World) : list ModelEntry :=
  let l1 := status_written i s (clock w (ticks w)) (ledger w) in
  if bool_decide (s = "active") then deactivate (type_or_unknown m) <$> l1
  else if bool_decide (e_status m = "active")
  then promoted (type_or_unknown m) (clock w (S (ticks w))) l1
  else l1.

(** An entry of type [T] with status 'active', and their number. *)
Definition is_active_of (T : string) (m : ModelEntry) : Prop :=
  e_model_type m = Some T ∧ e_status m = "active".

#[global] Instance is_active_of_dec T m : Decision (is_active_of T m).
Proof. unfold is_active_of. apply _. Defined.

Definition active_count (T : string) (l : list ModelEntry) : nat :=
  length (filter (is_active_of T) l).

Definition counted (T : string) (m : ModelEntry) : nat :=
  if decide (is_active_of T m) then 1 else 0.

(** Every entry has the key ['model_type'], as the entries [add_model]
    stores do. *)
Definition well_typed (l : list ModelEntry) : Prop :=
  Forall (λ m, is_Some (e_model_type m)) l.

Definition one_active_per_type (l : list ModelEntry) : Prop :=
  ∀ T, active_count T l ≤ 1.

Definition ledger_ok (l : list ModelEntry) : Prop :=
  well_typed l ∧ one_active_per_type l.

(** The calls that change the ledger without reading a file. *)
Inductive Call :=
| Add (model_data : ModelData)
| SetStatus (model_id new_status : string)
| Cleanup (keep_per_type : Z).

(** The world a call leaves, whether it returns or raises. *)
Definition run_call (c : Call) (w : World) : World :=
  match c with
  | Add d => after (add_model d) w
  | SetStatus model_id s => after (update_model_status model_id s) w
  | Cleanup k => after (cleanup_old_models k) w
  end.

(** The keys [add_model] requires. *)
Definition all_required_present (d : ModelData) : Prop :=
  is_Some (md_id d) ∧ is_Some (md_version d) ∧ is_Some (md_algorithm d) ∧
  is_Some (md_metrics d) ∧ is_Some (md_status d) ∧ is_Some (md_file_path d).

(** ** The prediction blender *)

(** Floats added up from the left, as a loop adds them to a total that
    starts at 0. *)
Definition added_up (l : list float) : float := foldl PrimFloat.add 0%float l.

(** The total weight of the members that contributed a vector, added up
    in their order. *)
Definition contributed_weight (weights : gmap string float)
    (ps : list (string * ndarray)) : float :=
  added_up ((λ p, default 0%float (weights !! p.1)) <$> ps).

(** [c], at position [i], is the first greatest element of [a], in the
    order of [np.argmax]: no element is above it, and it is above every
    element before it. *)
Definition first_greatest (a : ndarray) (i : nat) (c : float) : Prop :=
  a !! i = Some c ∧
  (∀ k x, a !! k = Some x → np_less c x = false) ∧
  (∀ k x, a !! k = Some x → k < i → np_less x c = true).

(** ** The predictor *)


(** The artifact of an entry loads, so that [_load_single_model] stores
    the entry. *)
Definition loads {Features FeatureInfo}
    (artifacts : string → option (@ModelPackage Features FeatureInfo))
    (c : nat * ModelEntry) : Prop :=
  is_Some (artifacts (e_file_path c.2)).

(** The order of the challengers. *)
Definition higher_first (a b : nat * ModelEntry) : Prop :=
  (accuracy b.2 ≤ accuracy a.2)%Qc.

(** An entry is of the type the predictor was asked for; every entry is,
    when no type or an empty one was asked for. *)
Definition as_requested {Features FeatureInfo}
    (p : @Predictor Features FeatureInfo) (m : ModelEntry) : Prop :=
  ∀ T, model_type p = Some T → T ≠ "" → e_model_type m = Some T.

(** The entries of the ledger, with their positions, that the loader
    chooses from for a status. *)
Definition eligible {Features FeatureInfo}
    (p : @Predictor Features FeatureInfo) (status : string)
    (l : list ModelEntry) (x : nat * ModelEntry) : Prop :=
  l !! x.1 = Some x.2 ∧ e_status x.2 = status ∧ as_requested p x.2.


End Notions.

(** ** Further notions *)

Module MoreNotions.
Import Registry Blender Ensemble RegistryFiles Notions.

(** The file holds the registry as it is in memory. *)
Definition persisted (w : World) : Prop := file w = Some (registry w).

(** What identifies and describes an entry: every key but the status and
    the time stamps of later updates. *)
Definition core (m : ModelEntry) :=
  (e_id m, e_version m, e_algorithm m, e_metrics m, e_created_at m,
   e_file_path m, e_model_type m, e_training_session_id m, e_description m,
   e_tags m).

(** The entries [get_active_model] chooses from: the active ones, of the
    requested type when a non-empty one is given. *)
Definition active_as_requested (model_type : option string) (m : ModelEntry)
    : Prop :=
  e_status m = "active" ∧
  ∀ T, model_type = Some T → T ≠ "" → e_model_type m = Some T.

(** A counting loop over a dictionary: every element adds its value to
    what the dictionary holds under its key. *)
Definition tally {X K V} `{EqDecision K} (key : X → K) (val : X → V)
    (add : V → V → V) (zero : V) (l : list X) : list (K * V) :=
  foldl (λ d x,
           dict_set (key x) (add (default zero (dict_get (key x) d)) (val x)) d)
    [] l.

(** [counts] lists every value that [value] takes on [l] with the number
    of entries that have it, and nothing else. *)
Definition counts_of (value : ModelEntry → string) (l : list ModelEntry)
    (counts : list (string * nat)) : Prop :=
  (∀ v, dict_get v counts
        = let n := length (filter (λ m, value m = v) l) in
          if decide (n = 0) then None else Some n) ∧
  sum_list counts.*2 = length l.

(** The entry of ['best_models'] made from a model. *)
Definition best_of (m : ModelEntry) : BestModel :=
  mkBest (e_id m) (e_version m) (accuracy m) (e_status m).

(** The weight a member votes with, and the votes a class gets: the
    weights of the members that predict it, added up in their order. *)
Definition weight_of (weights : gmap string float) (model_id : string)
    : float :=
  default 0%float (weights !! model_id).

Definition votes_for (weights : gmap string float)
    (predictions : list (string * PyLabel)) (c : PyLabel) : float :=
  added_up
    ((λ p, weight_of weights p.1) <$> filter (λ p, p.2 = c) predictions).

(** The elements of a list in the order of their first occurrence. *)
Definition first_seen `{EqDecision A} (l : list A) : list A :=
  foldl (λ seen x, if decide (x ∈ seen) then seen else seen ++ [x]) [] l.

(** The votes of the classes, in the order in which the classes were
    first predicted. *)
Definition votes_cast (weights : gmap string float)
    (predictions : list (string * PyLabel)) : list float :=
  votes_for weights predictions <$> first_seen predictions.*2.

(** [self.model_type or 'full_time'] *)
Definition requested_type {Features FeatureInfo}
    (p : @Predictor Features FeatureInfo) : string :=
  match model_type p with
  | Some t => if truthy t then t else "full_time"
  | None => "full_time"
  end.

(** The world after [n] more readings of the clock. *)
Definition ticked (n : nat) (w : World) : World :=
  mkWorld (registry w) (file w) (clock w) (ticks w + n)
    (uuid_source w) (uuids w).

(** The three dictionaries of a predictor have the same keys. *)
Definition in_step {Features FeatureInfo}
    (p : @Predictor Features FeatureInfo) : Prop :=
  NoDup (models p).*1 ∧
  (∀ model_id,
     model_id ∈ (models p).*1 ↔ is_Some (model_weights p !! model_id)) ∧
  (∀ model_id,
     model_id ∈ (models p).*1 ↔ is_Some (model_info p !! model_id)).

(** What a configuration is apart from its strings. *)
Fixpoint shape {Key Other} (value : @Config.ConfigValue Key Other)
    : @Config.ConfigValue Key Other :=
  match value with
  | Config.CStr _ => Config.CStr ""
  | Config.CDict items =>
      Config.CDict ((λ kv, (kv.1, shape kv.2)) <$> items)
  | Config.CList items => Config.CList (shape <$> items)
  | Config.COther v => Config.COther v
  end.

(** The entries of one type, which [cleanup_old_models] groups together,
    and the entries of the ledger it keeps. *)
Definition group_of (T : string) (l : list ModelEntry) : list ModelEntry :=
  filter (λ m, type_or_unknown m = T) l.

Definition kept (keep_per_type : Z) (l : list ModelEntry) (m : ModelEntry)
    : Prop :=
  m ∉ models_to_remove keep_per_type (group_of (type_or_unknown m) l).

#[global] Instance kept_dec k l m : Decision (kept k l m).
Proof. unfold kept. apply _. Defined.

(** The archived entries of one type. *)
Definition archived_of (T : string) (l : list ModelEntry) : list ModelEntry :=
  filter (λ m, e_status m = "archived") (group_of T l).

(** [groups] holds, under each type that occurs in [l], the entries of
    that type in ledger order. *)
Definition grouped (groups : list (string * list ModelEntry))
    (l : list ModelEntry) : Prop :=
  NoDup groups.*1 ∧
  (∀ T ms, (T, ms) ∈ groups → ms = group_of T l) ∧
  (∀ m, m ∈ l → type_or_unknown m ∈ groups.*1).

End MoreNotions.

(** * Concrete registries and blends *)

Module Scenarios.

Import Registry Blender Ensemble.

(** A clock, a uuid source, and the registry a first run creates. *)
Definition demo_clock (n : nat) : string := "2024-01-01T00:00:0" +:+ pretty n.
Definition demo_uuid (n : nat) : string := "uuid-" +:+ pretty n.
Definition demo_world : World := fresh_world demo_clock demo_uuid.

Definition ratio (n : Z) (d : positive) : Qc := Q2Qc (n # d).

(** The two models of [demo.py]. *)
Definition demo_model_1 : ModelData :=
  mkData (Some "demo-model-1") (Some "v1.0.0") (Some "LogisticRegression")
    (Some {[ "accuracy" := ratio 85 100; "f1_score" := ratio 82 100 ]})
    (Some "active") (Some "demo_models/full_time_v1_0_0.joblib")
    (Some "full_time") None None None.

Definition demo_model_2 : ModelData :=
  mkData (Some "demo-model-2") (Some "v1.1.0") (Some "RandomForestClassifier")
    (Some {[ "accuracy" := ratio 87 100; "f1_score" := ratio 85 100 ]})
    (Some "candidate") (Some "demo_models/full_time_v1_1_0.joblib")
    (Some "full_time") None None None.

(** An entry as a registry file holds it. *)
Definition stored (id status : string) (acc : Qc) (created : string)
    : ModelEntry :=
  mkEntry id "v1.0.0" "LogisticRegression" {[ "accuracy" := acc ]}
    created status (id +:+ ".joblib") (Some "full_time") None "" [] None None.

Definition demo_model_without_id : ModelData :=
  mkData None (Some "v1.0.0") (Some "LogisticRegression")
    (Some {[ "accuracy" := ratio 85 100 ]})
    (Some "candidate") (Some "demo_models/full_time_v1_0_0.joblib")
    (Some "full_time") None None None.

Definition demo_ledger_1 : list ModelEntry :=
  [stored "demo-model-1" "candidate" (ratio 85 100) "2024-01-01T00:00:00"].

Definition demo_world_1 : World :=
  after (import_registry (Some demo_ledger_1) false) demo_world.

Definition demo_ledger_tie : list ModelEntry :=
  [stored "champion" "active" (ratio 85 100) "2024-01-01T00:00:00";
   stored "older" "candidate" (ratio 80 100) "2024-01-02T00:00:00";
   stored "newer" "candidate" (ratio 80 100) "2024-01-03T00:00:00"].

Definition demo_world_tie : World :=
  after (import_registry (Some demo_ledger_tie) false) demo_world.

Definition demo_ledger_two_active : list ModelEntry :=
  [stored "first" "active" (ratio 85 100) "2024-01-01T00:00:00";
   stored "second" "active" (ratio 87 100) "2024-01-02T00:00:00"].

(** Weights as the loader assigns them, and probability vectors. *)
Definition demo_weights : gmap string float :=
  {[ "champion" := 0.7%float; "challenger" := 0.3%float ]}.

Definition two_class_vectors : list (string * ndarray) :=
  [("champion", [0.2; 0.8]%float); ("challenger", [0.6; 0.4]%float)].

(** Vectors of different lengths: two classes beside three, and one beside
    three. *)
Definition mixed_vectors : list (string * ndarray) :=
  [("champion", [0.5; 0.5]%float); ("challenger", [0.2; 0.3; 0.5]%float)].

Definition broadcast_vectors : list (string * ndarray) :=
  [("champion", [1]%float); ("challenger", [0.2; 0.3; 0.5]%float)].

(** The same, with the classes that the shorter vector lacks at
    probability 0. *)
Definition padded_vectors : list (string * ndarray) :=
  [("champion", [1; 0; 0]%float); ("challenger", [0.2; 0.3; 0.5]%float)].

(** A predictor for which every artifact loads. *)
Definition demo_handle : @ModelHandle unit :=
  mkHandle (λ _, inr (IntLabel 0)) None.

Definition demo_artifacts (path : string) : option (@ModelPackage unit unit) :=
  Some (mkPackage demo_handle tt).

Definition demo_predictor : @Predictor unit unit :=
  mkPredictor (Some "full_time") [] ∅ ∅ false.

Definition demo_ledger : list ModelEntry :=
  [stored "active-85" "active" (ratio 85 100) "2024-01-01T00:00:00";
   stored "candidate-82" "candidate" (ratio 82 100) "2024-01-02T00:00:00";
   stored "candidate-89" "candidate" (ratio 89 100) "2024-01-03T00:00:00"].

(** A registry in which a candidate was added under the id of the active
    entry. *)
Definition demo_ledger_shared_id : list ModelEntry :=
  [stored "model-a" "active" (ratio 85 100) "2024-01-01T00:00:00";
   stored "model-a" "candidate" (ratio 89 100) "2024-01-02T00:00:00"].

(** A registry file with an entry whose id is the empty string, and a
    model given that id. *)
Definition demo_ledger_empty_id : list ModelEntry :=
  [stored "" "candidate" (ratio 85 100) "2024-01-01T00:00:00"].

Definition demo_world_empty_id : World :=
  after (import_registry (Some demo_ledger_empty_id) false) demo_world.

Definition demo_model_empty_id : ModelData :=
  mkData (Some "") (Some "v1.1.0") (Some "RandomForestClassifier")
    (Some {[ "accuracy" := ratio 87 100 ]})
    (Some "candidate") (Some "demo_models/full_time_v1_1_0.joblib")
    (Some "full_time") None None None.

End Scenarios.

Module MoreScenarios.
Import Registry Blender Ensemble Trainer Scenarios.

(** A registry with three archived models, an active one, and one whose
    status [add_model] accepted although it is none of the three. *)
Definition demo_ledger_archive : list ModelEntry :=
  [stored "old" "archived" (ratio 70 100) "2024-01-01T00:00:00";
   stored "live" "active" (ratio 85 100) "2024-01-02T00:00:00";
   stored "older" "archived" (ratio 75 100) "2023-12-01T00:00:00";
   stored "trial" "testing" (ratio 60 100) "2024-01-03T00:00:00";
   stored "recent" "archived" (ratio 80 100) "2024-01-04T00:00:00"].

Definition demo_world_archive : World :=
  after (import_registry (Some demo_ledger_archive) false) demo_world.

(** A predictor with one model, which predicts class 1 and reports
    probabilities that favour class 0. *)
Definition demo_preprocess (match_data : unit) (model_type : string)
    : Exc unit :=
  inr tt.

Definition demo_member : @Member unit unit :=
  mkMember
    (mkHandle (λ _, inr (IntLabel 1))
       (Some (λ _, inr [0.6; 0.4]%float)))
    tt (stored "active-85" "active" (ratio 85 100) "2024-01-01T00:00:00").

Definition demo_single : @Predictor unit unit :=
  mkPredictor (Some "full_time") [("active-85", demo_member)]
    {[ "active-85" := 0.7%float ]}
    {[ "active-85" := mkInfo "v1.0.0" "LogisticRegression" (ratio 85 100)
                        "active" ]}
    true.


(** Three members that vote on two classes: the first one for class 0,
    the others for class 1. *)
Definition voting_weights : gmap string float :=
  {[ "first" := 0.3%float; "second" := 0.1%float; "third" := 0.2%float ]}.

Definition voting_predictions : list (string * PyLabel) :=
  [("first", IntLabel 0); ("second", IntLabel 1); ("third", IntLabel 1)].

(** A trainer and the results of an evaluation. *)
Definition demo_trainer : ModelTrainer :=
  mkTrainer "trained-1" "full_time" "session-1".

Definition demo_metrics : gmap string Qc :=
  {[ "accuracy" := ratio 88 100; "f1_score" := ratio 86 100;
     "precision" := ratio 87 100; "recall" := ratio 85 100 ]}.

Definition demo_evaluation : EvaluationResults :=
  mkEvaluation (Some {[ "model_class" := "RandomForestClassifier" ]})
    (Some demo_metrics).

End MoreScenarios.

(** * Properties *)

(** ** The Python built-ins *)

Module PyFacts.

Import Notions.

Lemma ltb_asym {K} (ltb : K → K → bool) `{!WeakOrder ltb} x y :
  ltb x y = true → ltb y x = false.
Proof.
  intros Hxy. destruct (ltb y x) eqn:Hyx; [|done].
  pose proof (ltb_trans (ltb:=ltb) x y x Hxy Hyx) as Hxx.
  by rewrite ltb_irrefl in Hxx.
Qed.

Lemma ltb_below {K} (ltb : K → K → bool) `{!WeakOrder ltb} x y z :
  ltb x y = false → ltb x z = true → ltb y z = true.
Proof.
  intros Hxy Hxz. destruct (ltb y z) eqn:Hyz; [done|].
  pose proof (ltb_negtrans (ltb:=ltb) x y z Hxy Hyz). congruence.
Qed.

#[global] Instance Qc_ltb_order : WeakOrder Qc_ltb.
Proof.
  split; unfold Qc_ltb.
  - intros x. apply bool_decide_eq_false, Qcle_not_lt. reflexivity.
  - intros x y z ?%bool_decide_eq_true ?%bool_decide_eq_true.
    apply bool_decide_eq_true. by apply Qclt_trans with y.
  - intros x y z ?%bool_decide_eq_false ?%bool_decide_eq_false.
    apply bool_decide_eq_false, Qcle_not_lt.
    apply Qcle_trans with y; by apply Qcnot_lt_le.
Qed.

Lemma ascii_compare_lt a b :
  Ascii.compare a b = Lt ↔ (Ascii.N_of_ascii a < Ascii.N_of_ascii b)%N.
Proof. unfold Ascii.compare. apply N.compare_lt_iff. Qed.

Lemma ascii_compare_eq a b : Ascii.compare a b = Eq ↔ a = b.
Proof.
  split; [apply Ascii.compare_eq_iff|intros ->].
  unfold Ascii.compare. apply N.compare_refl.
Qed.

Lemma ascii_compare_gt a b :
  Ascii.compare a b = Gt ↔ (Ascii.N_of_ascii b < Ascii.N_of_ascii a)%N.
Proof. unfold Ascii.compare. apply N.compare_gt_iff. Qed.

Lemma string_compare_refl s : String.compare s s = Eq.
Proof.
  induction s as [|a s IH]; simpl; [done|].
  by rewrite (proj2 (ascii_compare_eq a a) eq_refl).
Qed.

(** The three outcomes of [String.compare], composed. *)
Lemma string_compare_trans c s t u :
  String.compare s t = c → String.compare t u = c → String.compare s u = c.
Proof.
  revert t u.
  induction s as [|a s IH]; intros [|b t] [|d u]; simpl; try congruence.
  destruct (Ascii.compare a b) eqn:Hab, (Ascii.compare b d) eqn:Hbd;
    try (intros; congruence).
  - apply ascii_compare_eq in Hab as ->, Hbd as ->.
    rewrite (proj2 (ascii_compare_eq d d) eq_refl). apply IH.
  - apply ascii_compare_eq in Hab as ->. rewrite Hbd. congruence.
  - apply ascii_compare_eq in Hab as ->. rewrite Hbd. congruence.
  - apply ascii_compare_eq in Hbd as <-. rewrite Hab. congruence.
  - apply ascii_compare_lt in Hab. apply ascii_compare_lt in Hbd.
    rewrite (proj2 (ascii_compare_lt a d)); [congruence|].
    by apply N.lt_trans with (Ascii.N_of_ascii b).
  - apply ascii_compare_eq in Hbd as <-. rewrite Hab. congruence.
  - apply ascii_compare_gt in Hab. apply ascii_compare_gt in Hbd.
    rewrite (proj2 (ascii_compare_gt a d)); [congruence|].
    by apply N.lt_trans with (Ascii.N_of_ascii b).
Qed.

Lemma string_compare_eq_l s t u :
  String.compare s t = Eq → String.compare s u = String.compare t u.
Proof. by intros ->%String.compare_eq_iff. Qed.

#[global] Instance str_ltb_order : WeakOrder str_ltb.
Proof.
  assert (∀ s t, str_ltb s t = true ↔ String.compare s t = Lt) as Hlt.
  { intros s t. unfold str_ltb, String.ltb.
    destruct (String.compare s t); naive_solver. }
  assert (∀ s t, str_ltb s t = false ↔ String.compare s t ≠ Lt) as Hge.
  { intros s t. rewrite <-Hlt. by destruct (str_ltb s t). }
  split.
  - intros s. apply Hge. by rewrite string_compare_refl.
  - intros s t u ?%Hlt ?%Hlt. apply Hlt. by apply string_compare_trans with t.
  - intros s t u Hst%Hge Htu%Hge. apply Hge. intros Hsu.
    destruct (String.compare s t) eqn:Est; [| done |].
    + by rewrite (string_compare_eq_l s t u Est) in Hsu.
    + destruct (String.compare t u) eqn:Etu; [| done |].
      * apply String.compare_eq_iff in Etu as <-. congruence.
      * by rewrite (string_compare_trans Gt s t u Est Etu) in Hsu.
Qed.

Section Max.
Context {A K : Type} (ltb : K → K → bool) `{!WeakOrder ltb} (key : A → K).

(** The loop of [max]: everything before the result has a strictly
    smaller key, nothing after it has a greater one. *)
Lemma max_from_split l pre best mid :
  Forall (λ y, ltb (key y) (key best) = true) pre →
  Forall (λ y, ltb (key best) (key y) = false) mid →
  ∃ pre' post',
    pre ++ best :: mid ++ l = pre' ++ max_from ltb key best l :: post' ∧
    Forall (λ y, ltb (key y) (key (max_from ltb key best l)) = true) pre' ∧
    Forall (λ y, ltb (key (max_from ltb key best l)) (key y) = false) post'.
Proof.
  revert pre best mid. induction l as [|x l IH]; intros pre best mid Hpre Hmid.
  { exists pre, mid. by rewrite app_nil_r. }
  simpl. destruct (ltb (key best) (key x)) eqn:Hx.
  - destruct (IH (pre ++ best :: mid) x []) as (pre' & post' & Heq & ? & ?).
    + apply Forall_app; split; [|constructor; [exact Hx|]].
      * eapply Forall_impl; [exact Hpre|]. intros y Hy. simpl in Hy.
        exact (ltb_trans _ _ _ Hy Hx).
      * eapply Forall_impl; [exact Hmid|]. intros y Hy. simpl in Hy.
        exact (ltb_below ltb _ _ _ Hy Hx).
    + constructor.
    + exists pre', post'. split; [|done].
      rewrite <-Heq. by rewrite <-!app_assoc.
  - destruct (IH pre best (mid ++ [x])) as (pre' & post' & Heq & ? & ?).
    + done.
    + apply Forall_app; split; [done|]. by constructor.
    + exists pre', post'. split; [|done].
      rewrite <-Heq. by rewrite <-!app_assoc.
Qed.

Lemma max_by_split l r :
  max_by ltb key l = Some r →
  ∃ pre post, l = pre ++ r :: post ∧
    Forall (λ y, ltb (key y) (key r) = true) pre ∧
    Forall (λ y, ltb (key r) (key y) = false) post.
Proof.
  destruct l as [|x l]; simpl; [done|]. intros [= <-].
  destruct (max_from_split l [] x []) as (pre & post & Heq & ? & ?);
    [constructor..|].
  exists pre, post. by rewrite <-Heq.
Qed.

Lemma max_by_None l : max_by ltb key l = None ↔ l = [].
Proof. by destruct l. Qed.

Lemma max_by_is_Some l : l ≠ [] → is_Some (max_by ltb key l).
Proof. destruct l; [done|]. by eexists. Qed.

Lemma max_by_greatest l r x :
  max_by ltb key l = Some r → x ∈ l → ltb (key r) (key x) = false.
Proof.
  intros (pre & post & -> & Hpre & Hpost)%max_by_split.
  rewrite Forall_forall in Hpre. rewrite Forall_forall in Hpost.
  rewrite elem_of_app, elem_of_cons. intros [Hx|[->|Hx]].
  - apply (ltb_asym ltb). by apply Hpre.
  - apply ltb_irrefl.
  - by apply Hpost.
Qed.

Lemma max_by_elem_of l r : max_by ltb key l = Some r → r ∈ l.
Proof. intros (pre & post & -> & _)%max_by_split. set_solver. Qed.

(** *** The stable descending sort *)

Lemma insert_desc_perm x l : insert_desc ltb key x l ≡ₚ x :: l.
Proof.
  induction l as [|y l IH]; simpl; [done|].
  destruct (ltb (key x) (key y)); [|done].
  by rewrite IH, Permutation_swap.
Qed.

Lemma sorted_desc_perm l : sorted_desc ltb key l ≡ₚ l.
Proof.
  induction l as [|x l IH]; simpl; [done|].
  by rewrite insert_desc_perm, IH.
Qed.

Lemma insert_desc_sorted x l :
  StronglySorted (descending ltb key) l →
  StronglySorted (descending ltb key) (insert_desc ltb key x l).
Proof.
  induction 1 as [|y l Hl IH Hy]; simpl; [repeat constructor|].
  destruct (ltb (key x) (key y)) eqn:Hxy.
  - constructor; [done|]. rewrite insert_desc_perm.
    constructor; [|done]. by apply (ltb_asym ltb).
  - constructor; [by constructor|]. constructor; [done|].
    eapply Forall_impl; [exact Hy|]. intros z Hz.
    exact (ltb_negtrans _ _ _ Hxy Hz).
Qed.

Lemma sorted_desc_sorted l :
  StronglySorted (descending ltb key) (sorted_desc ltb key l).
Proof.
  induction l as [|x l IH]; simpl; [constructor|].
  by apply insert_desc_sorted.
Qed.

End Max.

(** *** Objects of a list *)

Lemma elem_of_objects {A} (l : list A) i x :
  (i, x) ∈ objects l ↔ l !! i = Some x.
Proof.
  unfold objects. rewrite elem_of_lookup_imap. split.
  - by intros (j & y & [= -> ->] & ?).
  - intros ?. by exists i, x.
Qed.

Lemma objects_increasing_from {A} (l : list A) (n : nat) :
  StronglySorted (λ a b, (a.1 < b.1)%nat) (imap (λ i, pair (n + i)%nat) l).
Proof.
  revert n. induction l as [|x l IH]; intros n; simpl; [constructor|].
  assert (imap ((λ i, pair (n + i)%nat) ∘ S) l
          = imap (λ i, pair (S n + i)%nat) l) as ->.
  { apply imap_ext. intros i y _. simpl. f_equal. lia. }
  constructor; [apply IH|].
  apply Forall_forall. intros [j y] (i & z & [= -> ->] & _)%elem_of_lookup_imap.
  simpl. lia.
Qed.

Lemma objects_increasing {A} (l : list A) :
  StronglySorted (λ a b, (a.1 < b.1)%nat) (objects l).
Proof. apply (objects_increasing_from l 0). Qed.

Lemma filter_increasing {A} (P : nat * A → Prop) `{∀ x, Decision (P x)}
    (l : list (nat * A)) :
  StronglySorted (λ a b, (a.1 < b.1)%nat) l →
  StronglySorted (λ a b, (a.1 < b.1)%nat) (filter P l).
Proof.
  induction 1 as [|x l Hl IH Hx]; [constructor|].
  rewrite filter_cons. case_decide; [|done].
  constructor; [done|]. rewrite Forall_forall in Hx.
  apply Forall_forall. intros y [_ Hy]%list_elem_of_filter. by apply Hx.
Qed.

(** [max] over objects listed in the order of their positions: no object
    has a greater key than the result, and every object before it has a
    smaller one. *)
Lemma max_by_first_position {A K} (ltb : K → K → bool) `{!WeakOrder ltb}
    (key : nat * A → K) (L : list (nat * A)) (j : nat) (c : A) :
  StronglySorted (λ a b, a.1 < b.1) L →
  max_by ltb key L = Some (j, c) →
  ∀ k c', (k, c') ∈ L →
    ltb (key (j, c)) (key (k, c')) = false ∧
    (k < j → ltb (key (k, c')) (key (j, c)) = true).
Proof.
  intros Hinc Hmax k c' Hk. split.
  - by apply (max_by_greatest ltb key L).
  - intros Hkj.
    apply (max_by_split ltb) in Hmax as (pre & post & Heq & Hpre & _).
    rewrite Heq in Hinc, Hk.
    apply StronglySorted_app in Hinc as (_ & _ & Hpost).
    apply StronglySorted_cons in Hpost as [Hpost _].
    rewrite Forall_forall in Hpost, Hpre.
    apply elem_of_app in Hk as [Hk|Hk]; [by apply Hpre in Hk|].
    apply elem_of_cons in Hk as [[= -> ->]|Hk]; [lia|].
    apply Hpost in Hk. simpl in Hk. lia.
Qed.

(** *** [list.remove] *)

Lemma list_remove_sublist `{EqDecision A} (x : A) l l' :
  list_remove x l = Some l' → l' `sublist_of` l.
Proof.
  revert l'. induction l as [|y l IH]; intros l'; simpl; [done|].
  case_decide.
  - intros [= <-]. by apply sublist_cons.
  - destruct (list_remove x l) as [l''|]; simpl; [|done].
    intros [= <-]. by apply sublist_skip, IH.
Qed.

Lemma list_remove_is_Some `{EqDecision A} (x : A) l :
  x ∈ l → is_Some (list_remove x l).
Proof.
  induction 1 as [y l|y z l _ IH]; simpl.
  - rewrite decide_True by done. by eexists.
  - case_decide; [by eexists|]. destruct IH as [l' ->]. by eexists.
Qed.

End PyFacts.

(** ** The floats *)

Module FloatFacts.
Import Blender Notions.

(** Splits the comparisons of exponents and mantissas into their cases. *)
Ltac compare_cases :=
  repeat match goal with
    | |- context [(?a ?= ?b)%Z] => destruct (Z.compare_spec a b); subst
    | |- context [PosDef.Pos.compare_cont Eq ?a ?b] =>
        change (PosDef.Pos.compare_cont Eq a b) with (Pos.compare a b);
        destruct (Pos.compare_spec a b); subst
    end.

Lemma sf_less_irrefl p : sf_less p p = false.
Proof.
  destruct p as [[]|[]| |[] m e]; try done;
    unfold sf_less, SFleb; simpl; compare_cases; try done; lia.
Qed.

Lemma sf_less_trans p q r :
  sf_less p q = true → sf_less q r = true → sf_less p r = true.
Proof.
  destruct p as [[]|[]| |[] m1 e1], q as [[]|[]| |[] m2 e2],
    r as [[]|[]| |[] m3 e3]; try done;
    unfold sf_less, SFleb; simpl; compare_cases; simpl; try done; lia.
Qed.

Lemma sf_less_negtrans p q r :
  sf_less p q = false → sf_less q r = false → sf_less p r = false.
Proof.
  destruct p as [[]|[]| |[] m1 e1], q as [[]|[]| |[] m2 e2],
    r as [[]|[]| |[] m3 e3]; try done;
    unfold sf_less, SFleb; simpl; compare_cases; simpl; try done; lia.
Qed.

Lemma SFeqb_refl p :
  SFeqb p p = match p with S754_nan => false | _ => true end.
Proof.
  destruct p as [[]|[]| |[] m e]; try done;
    unfold SFeqb; simpl; compare_cases; try done; lia.
Qed.

Lemma np_less_spec mp x : np_less mp x = sf_less (Prim2SF mp) (Prim2SF x).
Proof.
  unfold np_less, PrimFloat.is_nan.
  rewrite FloatAxioms.eqb_spec, FloatAxioms.leb_spec, SFeqb_refl.
  unfold sf_less. by destruct (Prim2SF mp).
Qed.

(** The order of [np.argmax] is a strict weak order on all floats. *)
#[global] Instance np_less_order : WeakOrder np_less.
Proof.
  split; intros *; rewrite !np_less_spec.
  - apply sf_less_irrefl.
  - apply sf_less_trans.
  - apply sf_less_negtrans.
Qed.

(** Where no NaN is involved, it is the order of the numbers. *)
Lemma np_less_ltb x y :
  PrimFloat.is_nan x = false → PrimFloat.is_nan y = false →
  np_less x y = (x <? y)%float.
Proof.
  unfold PrimFloat.is_nan.
  rewrite np_less_spec, !FloatAxioms.eqb_spec, !SFeqb_refl,
    FloatAxioms.ltb_spec.
  destruct (Prim2SF x) as [[]|[]| |[] m1 e1],
    (Prim2SF y) as [[]|[]| |[] m2 e2]; try done;
    unfold sf_less, SFleb, SFltb; simpl; intros _ _; compare_cases;
    try done; lia.
Qed.

(** [<] on floats, as [max] uses it. *)
Lemma float_ltb_irrefl x : (x <? x)%float = false.
Proof.
  rewrite FloatAxioms.ltb_spec.
  destruct (Prim2SF x) as [[]|[]| |[] m e]; try done;
    unfold SFltb; simpl; compare_cases; try done; lia.
Qed.

Lemma float_ltb_above b x z :
  (b <? z)%float = false → (b <? x)%float = true → (x <? z)%float = false.
Proof.
  rewrite !FloatAxioms.ltb_spec.
  destruct (Prim2SF b) as [[]|[]| |[] m1 e1],
    (Prim2SF x) as [[]|[]| |[] m2 e2],
    (Prim2SF z) as [[]|[]| |[] m3 e3]; try done;
    unfold SFltb; simpl; compare_cases; simpl; try done; lia.
Qed.

Section MaxOfFloats.
Context {A : Type} (key : A → float).

(** The loop of [max] with float keys: no element, the first included,
    has a greater key than the result, which is one of them. *)
Lemma max_from_float l best seen :
  Forall (λ y, (key best <? key y)%float = false) seen →
  let r := max_from PrimFloat.ltb key best l in
  (r = best ∨ r ∈ l) ∧
  Forall (λ y, (key r <? key y)%float = false) (seen ++ best :: l).
Proof.
  revert best seen. induction l as [|x l IH]; intros best seen Hseen; simpl.
  { split; [by left|]. apply Forall_app. split; [done|].
    constructor; [apply float_ltb_irrefl|constructor]. }
  destruct (key best <? key x)%float eqn:Hx.
  - destruct (IH x (seen ++ [best])) as [Hin Hall].
    + apply Forall_app. split.
      * eapply Forall_impl; [exact Hseen|]. intros y Hy. simpl in Hy.
        by apply (float_ltb_above (key best)).
      * constructor; [|constructor].
        apply (float_ltb_above (key best)); [apply float_ltb_irrefl|done].
    + split.
      * right. destruct Hin as [->|?]; [left|by right].
      * by rewrite <- app_assoc in Hall.
  - destruct (IH best (seen ++ [x])) as [Hin Hall].
    + apply Forall_app. split; [done|]. by constructor.
    + split.
      * destruct Hin as [?|?]; [by left|right; by right].
      * rewrite <- app_assoc in Hall. simpl in Hall.
        apply Forall_app in Hall as [Hs Hall].
        apply Forall_cons in Hall as [Hx' Hall].
        apply Forall_cons in Hall as [Hb Hall].
        apply Forall_app. split; [done|]. by repeat constructor.
Qed.

Lemma max_by_float l r :
  max_by PrimFloat.ltb key l = Some r →
  r ∈ l ∧ ∀ x, x ∈ l → (key r <? key x)%float = false.
Proof.
  destruct l as [|x l]; simpl; [done|]. intros [= <-].
  destruct (max_from_float l x []) as [Hin Hall]; [constructor|].
  split.
  - destruct Hin as [->|?]; [left|by right].
  - by apply Forall_forall.
Qed.

End MaxOfFloats.

End FloatFacts.

(** ** The registry store *)

Module RegistryFacts.
Import Registry Notions PyFacts.

Lemma first_missing_None d :
  first_missing d = None ↔ all_required_present d.
Proof.
  unfold all_required_present.
  destruct d as [i v a m s f ? ? ? ?]; simpl.
  destruct i, v, a, m, s, f; simpl; split; try done;
    try (intros (?&?&?&?&?&?));
    repeat match goal with
           | H : is_Some None |- _ => destruct H as [? [=]]
           | |- _ ∧ _ => split
           | |- is_Some (Some _) => by eexists
           end.
Qed.

Lemma add_model_ok d w :
  first_missing d = None →
  add_model d w = (inr (length (ledger w)), after (add_model d) w) ∧
  ledger (after (add_model d) w) =
    (if bool_decide (e_status (stored_entry d w) = "active")
     then deactivate (type_or_unknown (stored_entry d w))
            <$> (ledger w ++ [stored_entry d w])
     else ledger w ++ [stored_entry d w]) ∧
  file (after (add_model d) w) = Some (registry (after (add_model d) w)).
Proof.
  intros Hd. pose proof (proj1 (first_missing_None d) Hd)
    as ([i Hi] & [v Hv] & [a Ha] & [m Hm] & [s Hs] & [f Hf]).
  run. rewrite Hd. unfold stored_entry. rewrite Hi, Ha, Hm, Hf, Hs, Hv. simpl.
  destruct (truthy i); simpl; destruct (bool_decide (s = "active")); simpl; done.
Qed.

Lemma add_model_missing d w field :
  first_missing d = Some field →
  add_model d w = (inl (ValueError ("Missing required field: " +:+ field)), w).
Proof. intros Hd. unfold add_model. by rewrite Hd. Qed.

Lemma promote_run T w :
  _promote_best_candidate T w
    = (inr tt, after (_promote_best_candidate T) w) ∧
  ledger (after (_promote_best_candidate T) w)
    = promoted T (clock w (ticks w)) (ledger w) ∧
  file (after (_promote_best_candidate T) w) = file w ∧
  ticks (after (_promote_best_candidate T) w) ≤ S (ticks w).
Proof.
  run. unfold promoted, candidates_of.
  destruct (max_by _ _ _) as [[j c]|]; simpl; repeat split; lia.
Qed.

Lemma update_model_status_ok model_id s w i m :
  s ∈ valid_statuses →
  get_model_by_id (ledger w) model_id = Some (i, m) →
  update_model_status model_id s w
    = (inr true, after (update_model_status model_id s) w) ∧
  ledger (after (update_model_status model_id s) w) = status_updated i m s w ∧
  file (after (update_model_status model_id s) w)
    = Some (registry (after (update_model_status model_id s) w)).
Proof.
  intros Hs Hm. unfold status_updated, status_written.
  run. rewrite bool_decide_eq_true_2 by done. rewrite Hm. simpl.
  destruct (bool_decide (s = "active")) eqn:Hact; simpl; [done|].
  destruct (bool_decide (e_status m = "active")); simpl; [|done].
  unfold promoted, candidates_of.
  destruct (max_by _ _ _) as [[j c]|]; simpl; done.
Qed.

Lemma update_model_status_invalid model_id s w :
  s ∉ valid_statuses →
  ∃ msg, update_model_status model_id s w = (inl (ValueError msg), w).
Proof.
  intros Hs. unfold update_model_status.
  rewrite bool_decide_eq_false_2 by done. by eexists.
Qed.

Lemma update_model_status_not_found model_id s w :
  get_model_by_id (ledger w) model_id = None →
  ∃ msg, update_model_status model_id s w = (inl (ValueError msg), w).
Proof.
  intros Hm. unfold update_model_status.
  destruct (bool_decide _); [|by eexists].
  run. rewrite Hm. by eexists.
Qed.

(** *** Counting the active entries of a type *)

Lemma active_count_cons T m l :
  active_count T (m :: l) = counted T m + active_count T l.
Proof.
  unfold active_count, counted. rewrite filter_cons. by case_decide.
Qed.

Lemma active_count_app T l1 l2 :
  active_count T (l1 ++ l2) = active_count T l1 + active_count T l2.
Proof. unfold active_count. by rewrite filter_app, length_app. Qed.

Lemma active_count_sublist T l1 l2 :
  l1 `sublist_of` l2 → active_count T l1 ≤ active_count T l2.
Proof.
  induction 1; rewrite ?active_count_cons; [done|lia..].
Qed.

Lemma active_count_alter T f i l m :
  l !! i = Some m →
  active_count T (alter f i l) + counted T m
    = active_count T l + counted T (f m).
Proof.
  revert i. induction l as [|x l IH]; intros [|i] Hi; simplify_eq/=.
  - rewrite !active_count_cons. lia.
  - rewrite !active_count_cons. specialize (IH _ Hi). lia.
Qed.

(** The second test on the status is implied by the first. *)
Lemma deactivate_eq T m :
  deactivate T m
    = if decide (is_active_of T m) then set_status "archived" m else m.
Proof.
  unfold deactivate, is_active_of. case_decide as H.
  - destruct H as [Ht Hs]. rewrite Hs.
    by rewrite (bool_decide_eq_true_2 _ Ht).
  - destruct (bool_decide (e_model_type m = Some T)) eqn:Ht; [|done].
    destruct (bool_decide (e_status m = "active")) eqn:Hs; [|done].
    apply bool_decide_eq_true in Ht, Hs. naive_solver.
Qed.

Lemma deactivate_counted T T' m :
  counted T' (deactivate T m) = if decide (T' = T) then 0 else counted T' m.
Proof.
  rewrite deactivate_eq. unfold counted.
  destruct (decide (is_active_of T m)) as [[Ht Hs]|Hm].
  - rewrite (decide_False (P:=is_active_of T' (set_status "archived" m)))
      by (by intros [_ ?]).
    destruct (decide (T' = T)); [done|].
    rewrite decide_False; [done|]. intros [? _]. congruence.
  - destruct (decide (T' = T)) as [->|]; [|done]. by rewrite decide_False.
Qed.

Lemma active_count_deactivate T T' l :
  active_count T' (deactivate T <$> l)
    = if decide (T' = T) then 0 else active_count T' l.
Proof.
  induction l as [|m l IH]; [by case_decide|].
  rewrite fmap_cons, !active_count_cons, IH, deactivate_counted.
  by case_decide.
Qed.

Lemma deactivate_type T m : e_model_type (deactivate T m) = e_model_type m.
Proof. rewrite deactivate_eq. by case_decide. Qed.

(** A successful [add_model] appends one entry, which carries the id of
    [stored_entry]. *)
Lemma add_model_appends d w :
  first_missing d = None →
  ∃ e, result (add_model d) w = inr (length (ledger w)) ∧
       length (ledger (after (add_model d) w)) = S (length (ledger w)) ∧
       ledger (after (add_model d) w) !! length (ledger w) = Some e ∧
       e_id e = e_id (stored_entry d w).
Proof.
  intros Hd. destruct (add_model_ok d w Hd) as (Hrun & Hl & _).
  unfold result. rewrite Hrun, Hl. case_bool_decide.
  - rewrite length_fmap, length_app, list_lookup_fmap, lookup_app_r by done.
    rewrite Nat.sub_diag. simpl. eexists. split_and!; [done|lia|done|].
    rewrite deactivate_eq. by case_decide.
  - rewrite length_app, lookup_app_r, Nat.sub_diag by done. simpl.
    eexists. split_and!; [done|lia|done..].
Qed.

Lemma stored_id_generated d w :
  md_id d = Some "" → e_id (stored_entry d w) = uuid_source w (uuids w).
Proof. intros Hi. unfold stored_entry. by rewrite Hi. Qed.

Lemma stored_id_given d w i :
  md_id d = Some i → i ≠ "" → e_id (stored_entry d w) = i.
Proof.
  intros Hi Hne. unfold stored_entry. rewrite Hi. simpl.
  unfold truthy. by rewrite (proj2 (String.eqb_neq i "") Hne).
Qed.


(** *** Promotion *)

Lemma elem_of_candidates T l j c :
  (j, c) ∈ candidates_of T l ↔
    l !! j = Some c ∧ e_model_type c = Some T ∧ e_status c = "candidate".
Proof.
  unfold candidates_of, get_models_by_type.
  rewrite !list_elem_of_filter, elem_of_objects. simpl. tauto.
Qed.

Lemma promoted_cases T t l :
  (candidates_of T l = [] ∧ promoted T t l = l) ∨
  (∃ j c, max_by Qc_ltb (λ x, accuracy x.2) (candidates_of T l) = Some (j, c) ∧
          (j, c) ∈ candidates_of T l ∧
          promoted T t l = alter (promote t) j l).
Proof.
  unfold promoted.
  destruct (max_by _ _ _) as [[j c]|] eqn:Hmax.
  - right. exists j, c. split_and!; [done|exact (max_by_elem_of _ _ _ _ Hmax)|].
    simpl. by rewrite list_alter_alter_eq.
  - left. by apply max_by_None in Hmax.
Qed.

Lemma promoted_count T T' t l :
  active_count T' (promoted T t l)
    ≤ active_count T' l + (if decide (T' = T) then 1 else 0).
Proof.
  destruct (promoted_cases T t l) as [[_ ->]|(j & c & _ & Hc & ->)]; [lia|].
  apply elem_of_candidates in Hc as (Hj & Ht & Hs).
  pose proof (active_count_alter T' (promote t) j l c Hj) as Hcount.
  assert (counted T' c = 0) as Hc0.
  { unfold counted. rewrite decide_False; [done|]. intros [_ ?]. congruence. }
  assert (counted T' (promote t c) ≤ if decide (T' = T) then 1 else 0).
  { unfold counted. case_decide as H; [|lia].
    destruct H as [H _]. simpl in H. rewrite decide_True; [lia|congruence]. }
  lia.
Qed.

(** *** Ledgers that keep one active entry per type *)

Lemma well_typed_alter f i l :
  (∀ m, e_model_type (f m) = e_model_type m) →
  well_typed l → well_typed (alter f i l).
Proof.
  intros Hf Hl. apply Forall_alter; [done|]. intros m _. by rewrite Hf.
Qed.

Lemma well_typed_deactivate T l :
  well_typed l → well_typed (deactivate T <$> l).
Proof.
  intros Hl. apply Forall_fmap. eapply Forall_impl; [done|].
  intros m. simpl. by rewrite deactivate_type.
Qed.

Lemma well_typed_promoted T t l : well_typed l → well_typed (promoted T t l).
Proof.
  intros Hl.
  destruct (promoted_cases T t l) as [[_ ->]|(j & c & _ & _ & ->)]; [done|].
  by apply well_typed_alter.
Qed.

Lemma well_typed_sublist l1 l2 :
  l1 `sublist_of` l2 → well_typed l2 → well_typed l1.
Proof.
  intros Hsub Hl. apply Forall_forall. intros m Hm.
  unfold well_typed in Hl. rewrite Forall_forall in Hl. apply Hl.
  by eapply elem_of_sublist.
Qed.

Lemma add_model_keeps d w :
  ledger_ok (ledger w) → ledger_ok (ledger (after (add_model d) w)).
Proof.
  intros [Htyped Hone].
  destruct (first_missing d) as [field|] eqn:Hd.
  { unfold after. by rewrite (add_model_missing d w field Hd). }
  destruct (add_model_ok d w Hd) as (_ & -> & _).
  set (e := stored_entry d w).
  assert (well_typed (ledger w ++ [e])) as Htyped'.
  { apply Forall_app; split; [done|]. by repeat constructor. }
  case_bool_decide as Hact.
  - split; [by apply well_typed_deactivate|]. intros T.
    rewrite active_count_deactivate. case_decide as HT; [lia|].
    rewrite active_count_app, active_count_cons.
    change (active_count T []) with 0.
    assert (counted T e = 0) as ->; [|specialize (Hone T); lia].
    unfold counted. rewrite decide_False; [done|]. intros [He _].
    apply HT. unfold type_or_unknown. rewrite He. done.
  - split; [done|]. intros T.
    rewrite active_count_app, active_count_cons.
    change (active_count T []) with 0.
    assert (counted T e = 0) as ->; [|specialize (Hone T); lia].
    unfold counted. rewrite decide_False; [done|]. by intros [_ ?].
Qed.

Lemma update_model_status_keeps model_id s w :
  ledger_ok (ledger w) →
  ledger_ok (ledger (after (update_model_status model_id s) w)).
Proof.
  intros [Htyped Hone].
  destruct (decide (s ∈ valid_statuses)) as [Hs|Hs]; last first.
  { destruct (update_model_status_invalid model_id s w Hs) as [msg Hrun].
    unfold after. by rewrite Hrun. }
  destruct (get_model_by_id (ledger w) model_id) as [[i m]|] eqn:Hm; last first.
  { destruct (update_model_status_not_found model_id s w Hm) as [msg Hrun].
    unfold after. by rewrite Hrun. }
  destruct (update_model_status_ok model_id s w i m Hs Hm) as (_ & -> & _).
  apply list_find_Some in Hm as (Hi & _ & _).
  assert (∃ T0, e_model_type m = Some T0) as [T0 HT0].
  { unfold well_typed in Htyped. rewrite Forall_forall in Htyped.
    apply Htyped. by eapply list_elem_of_lookup_2. }
  unfold status_updated, status_written, type_or_unknown.
  rewrite HT0, list_alter_alter_eq. simpl.
  set (f := set_updated_at (clock w (ticks w)) ∘ set_status s).
  assert (well_typed (alter f i (ledger w))) as Htyped1
    by (by apply well_typed_alter).
  pose proof (λ T, active_count_alter T f i (ledger w) m Hi) as Hcount.
  case_bool_decide as Hact.
  - split; [by apply well_typed_deactivate|]. intros T.
    rewrite active_count_deactivate. case_decide as HT; [lia|].
    specialize (Hcount T). specialize (Hone T).
    assert (counted T (f m) = 0); [|lia].
    unfold counted. rewrite decide_False; [done|]. intros [? _].
    simpl in *. congruence.
  - assert (∀ T, counted T (f m) = 0) as Hfm.
    { intros T. unfold counted. rewrite decide_False; [done|]. by intros [_ ?]. }
    case_bool_decide as Hold.
    + split; [by apply well_typed_promoted|]. intros T.
      etrans; [apply promoted_count|].
      specialize (Hcount T). specialize (Hone T). rewrite Hfm in Hcount.
      case_decide as HT; [|lia]. subst T.
      assert (counted T0 m = 1); [|lia].
      unfold counted. by rewrite decide_True.
    + split; [done|]. intros T.
      specialize (Hcount T). specialize (Hone T). rewrite Hfm in Hcount. lia.
Qed.

(** *** Cleanup only removes entries *)

Lemma remove_all_sublist ms n w :
  ledger (after (remove_all ms n) w) `sublist_of` ledger w.
Proof.
  revert n w. induction ms as [|m ms IH]; intros n w; [done|].
  unfold after. simpl. unfold remove_model, get_ledger, raise, put_ledger.
  unfold mbind, M_bind.
  destruct (list_remove m (ledger w)) as [l'|] eqn:Hrm; simpl; [|done].
  etrans; [apply IH|]. simpl. by eapply list_remove_sublist.
Qed.

Lemma cleanup_groups_sublist k groups n w :
  ledger (after (cleanup_groups k groups n) w) `sublist_of` ledger w.
Proof.
  revert n w. induction groups as [|[T ms] groups IH]; intros n w; [done|].
  unfold after. simpl. unfold mbind, M_bind.
  pose proof (remove_all_sublist (models_to_remove k ms) n w) as Hrm.
  unfold after in Hrm.
  destruct (remove_all _ _ w) as [[e|n'] w']; simpl in *; [done|].
  etrans; [apply IH|done].
Qed.

Lemma cleanup_old_models_sublist k w :
  ledger (after (cleanup_old_models k) w) `sublist_of` ledger w.
Proof.
  unfold after, cleanup_old_models, mbind, M_bind, get_ledger.
  pose proof (cleanup_groups_sublist k (group_by_type (ledger w)) 0 w) as Hrm.
  unfold after in Hrm.
  destruct (cleanup_groups _ _ _ w) as [[e|n'] w']; simpl in *; [done|].
  by case_bool_decide.
Qed.

Lemma cleanup_old_models_keeps k w :
  ledger_ok (ledger w) → ledger_ok (ledger (after (cleanup_old_models k) w)).
Proof.
  intros [Htyped Hone].
  pose proof (cleanup_old_models_sublist k w) as Hsub. split.
  - by eapply well_typed_sublist.
  - intros T. etrans; [by apply active_count_sublist|apply Hone].
Qed.

(** *** The mutating calls *)

Lemma run_call_keeps c w :
  ledger_ok (ledger w) → ledger_ok (ledger (run_call c w)).
Proof.
  destruct c; simpl.
  - apply add_model_keeps.
  - apply update_model_status_keeps.
  - apply cleanup_old_models_keeps.
Qed.

End RegistryFacts.

(** ** The calls of the registry store *)
Module RegistryCalls.
Import Registry Notions Scenarios PyFacts RegistryFacts.

Lemma add_active_archives_target d w :
  first_missing d = None → md_status d = Some "active" →
  result (add_model d) w = inr (length (ledger w)) ∧
  e_status <$> ledger (after (add_model d) w) !! length (ledger w)
    = Some "archived".
Proof.
  intros Hd Hs. destruct (add_model_ok d w Hd) as (Hrun & Hl & _).
  split; [unfold result; by rewrite Hrun|]. rewrite Hl.
  assert (e_status (stored_entry d w) = "active") as Hact
    by (unfold stored_entry; simpl; by rewrite Hs).
  rewrite bool_decide_eq_true_2 by done.
  rewrite list_lookup_fmap, lookup_app_r, Nat.sub_diag by done. simpl.
  rewrite deactivate_eq, decide_True; [done|]. split; [|done].
  unfold stored_entry, type_or_unknown. done.
Qed.

Lemma set_active_archives_target model_id w i m :
  get_model_by_id (ledger w) model_id = Some (i, m) →
  is_Some (e_model_type m) →
  result (update_model_status model_id "active") w = inr true ∧
  e_status <$> ledger (after (update_model_status model_id "active") w) !! i
    = Some "archived".
Proof.
  intros Hm [T HT].
  assert ("active" ∈ valid_statuses) as Hs
    by (unfold valid_statuses; set_solver).
  destruct (update_model_status_ok model_id "active" w i m Hs Hm)
    as (Hrun & Hl & _).
  split; [unfold result; by rewrite Hrun|]. rewrite Hl.
  apply list_find_Some in Hm as (Hi & _ & _).
  unfold status_updated, status_written. simpl.
  rewrite list_lookup_fmap, list_alter_alter_eq, list_lookup_alter_eq, Hi. simpl.
  rewrite deactivate_eq, decide_True; [done|]. split; [|done]. simpl.
  unfold type_or_unknown. by rewrite HT.
Qed.

(** The side of the activation that works: the entries of the type that
    were active before are archived. *)
Lemma add_active_archives_others d w j m :
  first_missing d = None → md_status d = Some "active" →
  ledger w !! j = Some m →
  is_active_of (default "unknown" (md_model_type d)) m →
  e_status <$> ledger (after (add_model d) w) !! j = Some "archived".
Proof.
  intros Hd Hs Hj Hm. destruct (add_model_ok d w Hd) as (_ & Hl & _).
  rewrite Hl.
  assert (e_status (stored_entry d w) = "active") as Hact
    by (unfold stored_entry; simpl; by rewrite Hs).
  rewrite bool_decide_eq_true_2 by done.
  rewrite list_lookup_fmap, (lookup_app_l_Some _ _ _ _ Hj). simpl.
  rewrite deactivate_eq, decide_True; done.
Qed.

(** C1 (divergence). An entry that [add_model] stores with status
    'active', and an entry that [update_model_status] sets to 'active', both
    end up 'archived' in the ledger and in the stored file, because
    [_deactivate_other_models] runs over every entry of the type, the target
    included. Evaluated on the two models of the demonstration script, added
    to a fresh registry. *)
Theorem activated_entry_ends_archived :
  let w1 := after (add_model demo_model_1) demo_world in
  let w2 := after (add_model demo_model_2) w1 in
  let w3 := after (update_model_status "demo-model-2" "active") w2 in
  result (add_model demo_model_1) demo_world = inr 0 ∧
  e_status <$> ledger w1 = ["archived"] ∧
  (λ r, e_status <$> models r) <$> file w1 = Some ["archived"] ∧
  e_status <$> ledger w2 = ["archived"; "candidate"] ∧
  result (update_model_status "demo-model-2" "active") w2 = inr true ∧
  e_status <$> ledger w3 = ["archived"; "archived"] ∧
  (λ r, e_status <$> models r) <$> file w3 = Some ["archived"; "archived"].
Proof. vm_compute. done. Qed.

(** *** Validation in [add_model] *)

(** C8 (counterexample). An entry with every required key except [id]:
    [add_model] raises the missing-field error and leaves the world as it
    was; no id is generated. *)
Lemma add_without_id_raises :
  md_id demo_model_without_id = None ∧
  add_model demo_model_without_id demo_world
    = (inl (ValueError "Missing required field: id"), demo_world).
Proof. split; reflexivity. Qed.

(** C8 (amended). [add_model] raises the missing-field [ValueError], and
    leaves the world unchanged, exactly when one of the keys id, version,
    algorithm, metrics, status, file_path is absent, an absent id included.
    When the six keys are present it succeeds and appends the entry; the
    stored id is the one given, or a generated one when the id given is the
    empty string. *)
Theorem add_model_validation d w :
  (¬ all_required_present d →
     ∃ field, add_model d w
              = (inl (ValueError ("Missing required field: " +:+ field)), w)) ∧
  (all_required_present d →
     ∃ e, result (add_model d) w = inr (length (ledger w)) ∧
          ledger (after (add_model d) w) !! length (ledger w) = Some e ∧
          (md_id d = Some "" → e_id e = uuid_source w (uuids w)) ∧
          (∀ i, md_id d = Some i → i ≠ "" → e_id e = i)).
Proof.
  split.
  - intros Hd. destruct (first_missing d) as [field|] eqn:Hmiss.
    + exists field. by apply add_model_missing.
    + by apply first_missing_None in Hmiss.
  - intros Hd%first_missing_None.
    destruct (add_model_appends d w Hd) as (e & Hres & _ & He & Hid).
    exists e. split_and!; [done..| |].
    + intros Hi. rewrite Hid. by apply stored_id_generated.
    + intros i Hi Hne. rewrite Hid. by apply stored_id_given.
Qed.

(** C10 (counterexample). The ledger holds an entry whose id is the empty
    string, and an entry is added under the empty id: [add_model] stores it
    under a generated id, so that the ledger does not hold two entries
    with that id. *)
Lemma empty_id_is_not_duplicated :
  e_id <$> ledger demo_world_empty_id = [""] ∧
  md_id demo_model_empty_id = Some "" ∧
  result (add_model demo_model_empty_id) demo_world_empty_id = inr 1 ∧
  e_id <$> ledger (after (add_model demo_model_empty_id) demo_world_empty_id)
    = [""; "uuid-0"].
Proof. by vm_compute. Qed.

(** C10 (amended). Ids that are not empty are not kept unique: when the
    ledger already holds an entry with the non-empty id [X], [add_model]
    of an entry whose id is [X] succeeds and appends it, so that two
    entries carry the id [X], and [get_model_by_id X] still returns the
    entry at the earlier position. *)
Theorem duplicate_id_is_appended d w X i m :
  all_required_present d → md_id d = Some X → X ≠ "" →
  get_model_by_id (ledger w) X = Some (i, m) →
  let w' := after (add_model d) w in
  result (add_model d) w = inr (length (ledger w)) ∧
  length (ledger w') = S (length (ledger w)) ∧
  i < length (ledger w) ∧
  (∃ e, ledger w' !! length (ledger w) = Some e ∧ e_id e = X) ∧
  (∃ m', get_model_by_id (ledger w') X = Some (i, m') ∧
         ledger w' !! i = Some m' ∧ e_id m' = X ∧
         (m' = m ∨ m' = set_status "archived" m)).
Proof.
  intros Hd%first_missing_None HX Hne Hm w'.
  destruct (add_model_appends d w Hd) as (e & Hres & Hlen & He & Hid).
  rewrite (stored_id_given d w X HX Hne) in Hid.
  destruct (add_model_ok d w Hd) as (_ & Hl & _). fold w' in Hl, He, Hlen.
  apply list_find_Some in Hm as (Hi & Hmid & Hfirst).
  pose proof (lookup_lt_Some _ _ _ Hi) as Hlt.
  assert (∀ j, j < length (ledger w) → ∀ y, ledger w' !! j = Some y →
            ∃ x, ledger w !! j = Some x ∧ e_id y = e_id x ∧
                 (y = x ∨ y = set_status "archived" x)) as Hold.
  { intros j Hj y. rewrite Hl. case_bool_decide.
    - rewrite list_lookup_fmap, lookup_app_l by done.
      intros (x & Hx & ->)%fmap_Some. exists x. split; [done|].
      rewrite deactivate_eq. case_decide; auto.
    - rewrite lookup_app_l by done. intros Hy. exists y. auto. }
  assert (is_Some (ledger w' !! i)) as [m' Hm'].
  { apply lookup_lt_is_Some. lia. }
  destruct (Hold i Hlt m' Hm') as (x & Hx & Hxid & Hxm). simplify_eq.
  split_and!; [done..| |].
  - by exists e.
  - exists m'. split_and!; [|done|congruence|done].
    apply list_find_Some. split_and!; [done|congruence|].
    intros j y Hy Hji Hyid.
    destruct (Hold j ltac:(lia) y Hy) as (x' & Hx' & Hx'id & _).
    apply (Hfirst j x' Hx' Hji). congruence.
Qed.

Lemma duplicate_id_is_appended_witness :
  (all_required_present demo_model_1 ∧
   md_id demo_model_1 = Some "demo-model-1" ∧
   String.eqb "demo-model-1" "" = false ∧
   fst <$> get_model_by_id (ledger demo_world_1) "demo-model-1" = Some 0) ∧
  e_id <$> ledger (after (add_model demo_model_1) demo_world_1)
    = ["demo-model-1"; "demo-model-1"] ∧
  fst <$> get_model_by_id
            (ledger (after (add_model demo_model_1) demo_world_1))
            "demo-model-1" = Some 0.
Proof.
  assert (all_required_present demo_model_1) as Hd
    by (repeat split; by eexists).
  assert ("demo-model-1" ≠ "") as Hne by done.
  destruct (duplicate_id_is_appended demo_model_1 demo_world_1 "demo-model-1" 0
              (stored "demo-model-1" "candidate" (ratio 85 100)
                 "2024-01-01T00:00:00") Hd eq_refl Hne eq_refl)
    as (_ & _ & _ & _ & (m' & Hfind & _)).
  split_and!; [done..|by vm_compute|by rewrite Hfind].
Defined.

(** *** Promotion *)

Lemma candidates_increasing T l :
  StronglySorted (λ a b, a.1 < b.1) (candidates_of T l).
Proof.
  unfold candidates_of, get_models_by_type.
  do 2 apply filter_increasing. apply objects_increasing.
Qed.

(** The candidate [max] returns: no candidate has a greater accuracy, and
    every candidate before it in the ledger has a smaller one. *)
Lemma best_candidate_first T l j c :
  max_by Qc_ltb (λ x, accuracy x.2) (candidates_of T l) = Some (j, c) →
  ∀ k c', (k, c') ∈ candidates_of T l →
    (accuracy c' ≤ accuracy c)%Qc ∧ (k < j → (accuracy c' < accuracy c)%Qc).
Proof.
  intros Hmax k c' Hk. split.
  - apply Qcnot_lt_le. intros Hlt.
    pose proof (max_by_greatest Qc_ltb _ _ _ _ Hmax Hk) as Hge. simpl in Hge.
    apply bool_decide_eq_false in Hge. done.
  - intros Hkj. pose proof (candidates_increasing T l) as Hinc.
    apply (max_by_split Qc_ltb) in Hmax as (pre & post & Heq & Hpre & _).
    rewrite Heq in Hinc, Hk.
    apply StronglySorted_app in Hinc as (_ & _ & Hpost).
    apply StronglySorted_cons in Hpost as [Hpost _].
    rewrite Forall_forall in Hpost, Hpre.
    apply elem_of_app in Hk as [Hk|Hk].
    + apply Hpre in Hk. simpl in Hk. by apply bool_decide_eq_true in Hk.
    + apply elem_of_cons in Hk as [[= -> ->]|Hk]; [lia|].
      apply Hpost in Hk. simpl in Hk. lia.
Qed.

(** C3 (counterexample). Two candidates with the same accuracy: after the
    active entry is archived, the candidate that comes first in the ledger,
    whose [created_at] is the older one, is promoted, and the more recent
    one stays a candidate. *)
Lemma demotion_tie_goes_to_older_candidate :
  let w := after (update_model_status "champion" "archived") demo_world_tie in
  (λ m, (e_id m, e_created_at m, e_status m)) <$> ledger demo_world_tie
    = [("champion", "2024-01-01T00:00:00", "active");
       ("older", "2024-01-02T00:00:00", "candidate");
       ("newer", "2024-01-03T00:00:00", "candidate")] ∧
  accuracy <$> ledger demo_world_tie
    = [ratio 85 100; ratio 80 100; ratio 80 100] ∧
  result (update_model_status "champion" "archived") demo_world_tie = inr true ∧
  (λ m, (e_id m, e_status m)) <$> ledger w
    = [("champion", "archived"); ("older", "active"); ("newer", "candidate")].
Proof. by vm_compute. Qed.

Lemma active_count_zero T l :
  Forall (λ m, ¬ is_active_of T m) l → active_count T l = 0.
Proof.
  induction 1 as [|m l Hm _ IH]; [done|].
  rewrite active_count_cons, IH. unfold counted. by rewrite decide_False.
Qed.

Lemma active_count_sole T l i m :
  l !! i = Some m →
  (∀ k m', l !! k = Some m' → is_active_of T m' → k = i) →
  active_count T l = counted T m.
Proof.
  intros Hi Hsole. rewrite <-(take_drop_middle l i m Hi) at 1.
  rewrite active_count_app, active_count_cons.
  rewrite !active_count_zero; [lia|..]; apply Forall_forall; intros x Hx Hact.
  - apply list_elem_of_lookup in Hx as [k Hk].
    rewrite lookup_drop in Hk. specialize (Hsole _ _ Hk Hact). lia.
  - apply list_elem_of_lookup in Hx as [k Hk].
    pose proof (lookup_lt_Some _ _ _ Hk) as Hlt. rewrite length_take in Hlt.
    rewrite lookup_take_lt in Hk by lia. specialize (Hsole _ _ Hk Hact). lia.
Qed.

(** C3 (amended). When [update_model_status] moves the only active entry
    of a type to another valid status, the candidates of that type are those
    of the ledger after the status was written. If there is none, the ledger
    is left as written and the type has no active entry. Otherwise the
    promoted entry is a candidate of greatest accuracy (0 when the metric is
    absent), and among those the first in the ledger; it is 'active'
    afterwards and is the only active entry of the type. *)
Theorem demotion_promotes_first_best model_id s w i m :
  s ∈ valid_statuses → s ≠ "active" →
  get_model_by_id (ledger w) model_id = Some (i, m) →
  e_status m = "active" →
  (∀ k m', ledger w !! k = Some m' →
     is_active_of (type_or_unknown m) m' → k = i) →
  let T := type_or_unknown m in
  let l1 := status_written i s (clock w (ticks w)) (ledger w) in
  let l' := ledger (after (update_model_status model_id s) w) in
  result (update_model_status model_id s) w = inr true ∧
  (candidates_of T l1 = [] → l' = l1 ∧ active_count T l' = 0) ∧
  (candidates_of T l1 ≠ [] →
     ∃ j c, (j, c) ∈ candidates_of T l1 ∧
       (∀ k c', (k, c') ∈ candidates_of T l1 →
          (accuracy c' ≤ accuracy c)%Qc ∧
          (k < j → (accuracy c' < accuracy c)%Qc)) ∧
       l' = alter (promote (clock w (S (ticks w)))) j l1 ∧
       e_status <$> l' !! j = Some "active" ∧
       active_count T l' = 1).
Proof.
  intros Hs Hne Hm Hact Hsole T l1 l'.
  destruct (update_model_status_ok model_id s w i m Hs Hm) as (Hrun & Hl & _).
  split; [unfold result; by rewrite Hrun|].
  assert (l' = promoted T (clock w (S (ticks w))) l1) as Hl'.
  { unfold l'. rewrite Hl. unfold status_updated.
    rewrite bool_decide_eq_false_2 by done.
    by rewrite bool_decide_eq_true_2 by done. }
  apply list_find_Some in Hm as (Hi & _ & _).
  assert (active_count T l1 = 0) as Hzero.
  { unfold l1, status_written. rewrite list_alter_alter_eq.
    set (f := set_updated_at _ ∘ set_status s).
    pose proof (active_count_alter T f i (ledger w) m Hi) as Hcount.
    assert (counted T (f m) = 0) as Hf.
    { unfold counted. rewrite decide_False; [done|]. by intros [_ ?]. }
    rewrite (active_count_sole T (ledger w) i m Hi Hsole) in Hcount. lia. }
  destruct (promoted_cases T (clock w (S (ticks w))) l1)
    as [[Hnil Heq]|(j & c & Hmax & Hc & Heq)]; rewrite <-Hl' in Heq.
  - split; [intros _; by rewrite Heq|]. by rewrite Hnil.
  - split; [intros Hnil; by rewrite Hnil in Hc; apply elem_of_nil in Hc|].
    intros _. exists j, c. split_and!; [done| |done|..].
    + by apply best_candidate_first.
    + apply elem_of_candidates in Hc as (Hj & _).
      by rewrite Heq, list_lookup_alter_eq, Hj.
    + apply elem_of_candidates in Hc as (Hj & Ht & Hst).
      pose proof (active_count_alter T (promote (clock w (S (ticks w)))) j l1 c Hj)
        as Hcount. rewrite <-Heq in Hcount.
      assert (counted T c = 0) as Hc0.
      { unfold counted. rewrite decide_False; [done|]. intros [_ ?]. congruence. }
      assert (counted T (promote (clock w (S (ticks w))) c) = 1) as Hc1.
      { unfold counted. by rewrite decide_True. }
      lia.
Qed.

Lemma demotion_promotes_first_best_witness :
  ("archived" ∈ valid_statuses ∧
   String.eqb "archived" "active" = false ∧
   fst <$> get_model_by_id (ledger demo_world_tie) "champion" = Some 0) ∧
  e_status <$> ledger (after (update_model_status "champion" "archived")
                         demo_world_tie) !! 1 = Some "active".
Proof.
  assert ("archived" ∈ valid_statuses) as Hs
    by (apply (bool_decide_unpack _); by vm_compute).
  assert ("archived" ≠ "active") as Hne by done.
  pose (m := stored "champion" "active" (ratio 85 100) "2024-01-01T00:00:00").
  assert (∀ k m', ledger demo_world_tie !! k = Some m' →
            is_active_of (type_or_unknown m) m' → k = 0) as Hsole.
  { intros [|[|[|k]]] m' [= <-] [_ Hst]; done. }
  destruct (demotion_promotes_first_best "champion" "archived" demo_world_tie
              0 m Hs Hne eq_refl eq_refl Hsole) as (_ & _ & Hsome).
  split; [done|].
  match type of Hsome with
  | ?P → _ => assert P as Hcands by (by vm_compute)
  end.
  destruct (Hsome Hcands) as (j & c & Hc & Hbest & _ & Hj & _).
  assert (j = 1) as ->; [|done].
  apply elem_of_candidates in Hc as (Hlook & _ & Hst).
  destruct j as [|[|[|j]]]; [| done | | by vm_compute in Hlook].
  - vm_compute in Hlook. injection Hlook as <-. by vm_compute in Hst.
  - destruct (Hbest 1 (stored "older" "candidate" (ratio 80 100)
                         "2024-01-02T00:00:00")) as [_ Hlt].
    { by apply elem_of_candidates. }
    vm_compute in Hlook. injection Hlook as <-.
    specialize (Hlt ltac:(lia)). by vm_compute in Hlt.
Defined.

(** *** One active entry per type *)

(** C2 (counterexample). Importing a file with two active entries of one
    type, replacing or merging, succeeds and leaves both active. *)
Lemma import_leaves_two_active :
  result (import_registry (Some demo_ledger_two_active) false) demo_world
    = inr true ∧
  active_count "full_time"
    (ledger (after (import_registry (Some demo_ledger_two_active) false)
               demo_world)) = 2 ∧
  result (import_registry (Some demo_ledger_two_active) true) demo_world
    = inr true ∧
  active_count "full_time"
    (ledger (after (import_registry (Some demo_ledger_two_active) true)
               demo_world)) = 2.
Proof. by vm_compute. Qed.

(** C2 (amended). On a ledger whose entries all carry a model type and
    which has at most one active entry per type, every call of [add_model],
    [update_model_status] or [cleanup_old_models], whether it returns or
    raises, leaves a ledger of the same kind: for every type [T], at most
    one active entry. *)
Theorem mutating_call_keeps_one_active (c : Call) (w : World) (T : string) :
  well_typed (ledger w) →
  one_active_per_type (ledger w) →
  well_typed (ledger (run_call c w)) ∧
  active_count T (ledger (run_call c w)) ≤ 1.
Proof.
  intros Htyped Hone.
  destruct (run_call_keeps c w (conj Htyped Hone)) as [? Hone']. by split.
Qed.

Lemma mutating_call_keeps_one_active_witness :
  well_typed (ledger demo_world_tie) ∧
  active_count "full_time" (ledger demo_world_tie) = 1 ∧
  active_count "full_time"
    (ledger (run_call (SetStatus "champion" "archived") demo_world_tie)) ≤ 1.
Proof.
  assert (well_typed (ledger demo_world_tie)) as Htyped
    by (repeat constructor; by eexists).
  assert (one_active_per_type (ledger demo_world_tie)) as Hone.
  { intros T. change (ledger demo_world_tie) with demo_ledger_tie.
    unfold demo_ledger_tie. rewrite !active_count_cons.
    change (active_count T []) with 0.
    assert (∀ id acc t, counted T (stored id "candidate" acc t) = 0) as Hcand.
    { intros. unfold counted. rewrite decide_False; [done|]. by intros [_ ?]. }
    rewrite !Hcand. unfold counted. case_decide; lia. }
  split_and!; [done|by vm_compute|].
  apply (mutating_call_keeps_one_active
           (SetStatus "champion" "archived") demo_world_tie "full_time"
           Htyped Hone).
Defined.
End RegistryCalls.

(** ** The prediction blender *)

Module BlenderFacts.
Import Blender Notions Scenarios PyFacts FloatFacts.
#[local] Open Scope float_scope.

Lemma np_iadd_same a b :
  length b = length a → np_iadd a b = inr (zip_with PrimFloat.add a b).
Proof. intros Hlen. unfold np_iadd. by rewrite decide_True. Qed.

Lemma np_iadd_length a b c : np_iadd a b = inr c → length c = length a.
Proof.
  unfold np_iadd. case_decide as Hlen.
  - intros [= <-]. rewrite length_zip_with. lia.
  - destruct b as [|y [|]]; try (by case_decide).
    intros [= <-]. by rewrite length_fmap.
Qed.

Lemma np_iadd_mismatch a b :
  length b ≠ length a → length b ≠ 1%nat → ∃ e, np_iadd a b = inl e.
Proof.
  intros Hlen Hone. unfold np_iadd. rewrite decide_False by done.
  destruct b as [|y [|z b]]; [|done|]; case_decide; by eexists.
Qed.

Lemma length_np_scale a w : length (np_scale a w) = length a.
Proof. apply length_fmap. Qed.

(** Vectors of one length: the loop adds them up and never raises. *)
Lemma accumulate_same_length weights (n : nat) ps acc tw :
  Forall (λ p, length p.2 = n) ps → length acc = n →
  ∃ wp, accumulate weights ps acc tw
          = inr (wp, foldl PrimFloat.add tw
                       ((λ p, default 0 (weights !! p.1)) <$> ps)) ∧
        length wp = n.
Proof.
  intros Hps. revert acc tw.
  induction Hps as [|[model_id proba] ps Hp _ IH]; intros acc tw Hacc.
  - by exists acc.
  - simpl in Hp. cbn [accumulate].
    rewrite np_iadd_same by (rewrite length_np_scale; congruence).
    cbn [mbind Exc_bind].
    destruct (IH (zip_with PrimFloat.add acc
                    (np_scale proba (default 0 (weights !! model_id))))
                (tw + default 0 (weights !! model_id))) as (wp & Hrun & Hlen).
    { rewrite length_zip_with, length_np_scale. lia. }
    exists wp. by rewrite Hrun.
Qed.

(** A vector that has neither the length of the accumulator nor a single
    element makes the loop raise. *)
Lemma accumulate_mismatch weights ps acc tw p :
  p ∈ ps → length p.2 ≠ length acc → length p.2 ≠ 1%nat →
  ∃ e, accumulate weights ps acc tw = inl e.
Proof.
  intros Hp Hlen Hone. revert acc tw Hlen.
  induction Hp as [[model_id proba] ps|p [model_id proba] ps _ IH];
    intros acc tw Hlen; cbn [accumulate].
  - simpl in *.
    destruct (np_iadd_mismatch acc
                (np_scale proba (default 0 (weights !! model_id))))
      as [e ->]; rewrite ?length_np_scale; [done..|].
    by exists e.
  - destruct (np_iadd acc (np_scale proba (default 0 (weights !! model_id))))
      as [e|acc'] eqn:Hadd; cbn [mbind Exc_bind].
    + by exists e.
    + apply IH; [done|]. apply np_iadd_length in Hadd. congruence.
Qed.

Lemma all_classes_length ps :
  length (all_classes ps) = foldr Nat.max 0%nat ((λ p, length p.2) <$> ps).
Proof. unfold all_classes. apply length_seq. Qed.

Lemma max_length_same (n : nat) (ps : list (string * ndarray)) :
  ps ≠ [] → Forall (λ p, length p.2 = n) ps →
  foldr Nat.max 0%nat ((λ p, length p.2) <$> ps) = n.
Proof.
  intros Hne Hps. induction Hps as [|p ps Hp Hps IH]; [done|].
  rewrite fmap_cons. cbn [foldr]. rewrite Hp.
  destruct ps as [|p' ps]; [simpl; lia|]. rewrite IH by done. lia.
Qed.

(** [all_classes] lists, in increasing order, the indices that some vector
    has. *)
Lemma elem_of_all_classes ps (i : nat) :
  i ∈ all_classes ps ↔ ∃ p, p ∈ ps ∧ (i < length p.2)%nat.
Proof.
  unfold all_classes. rewrite elem_of_seq, Nat.add_0_l.
  induction ps as [|p ps IH]; [|rewrite fmap_cons; cbn [foldr]].
  - split; [simpl; lia|]. by intros (p & ?%elem_of_nil & _).
  - rewrite Nat.max_lt_iff. split.
    + intros [_ [Hi|Hi]].
      * exists p. split; [left|done].
      * destruct IH as [IH _]. destruct (IH (conj (Nat.le_0_l i) Hi))
          as (p' & Hp' & Hlt).
        exists p'. split; [by right|done].
    + intros (p' & [->|Hp']%elem_of_cons & Hi); (split; [apply Nat.le_0_l|]).
      * by left.
      * right. apply IH. by exists p'.
Qed.

Lemma blended_probs_same_length weights (n : nat) ps :
  ps ≠ [] → Forall (λ p, length p.2 = n) ps →
  ∃ wp, accumulate weights ps (np_zeros n) 0
          = inr (wp, contributed_weight weights ps) ∧
        length wp = n ∧
        blended_probs weights ps
          = inr (if 0 <? contributed_weight weights ps
                 then np_idiv wp (contributed_weight weights ps) else wp).
Proof.
  intros Hne Hps.
  destruct (accumulate_same_length weights n ps (np_zeros n) 0 Hps)
    as (wp & Hrun & Hlen); [apply length_replicate|].
  exists wp. split_and!; [done..|].
  unfold blended_probs. rewrite all_classes_length, (max_length_same n) by done.
  by rewrite Hrun.
Qed.

(** [np.argmax] and [np.max] on a non-empty array. *)
Lemma np_argmax_max (a : ndarray) :
  a ≠ [] →
  ∃ (i : nat) x, np_argmax a = Some i ∧ np_max a = Some x ∧
                 first_greatest a i x.
Proof.
  intros Ha. unfold np_argmax, np_max.
  destruct (max_by np_less snd (objects a)) as [[i x]|] eqn:Hmax.
  - exists i, x. split_and!; [done..|]. split_and!.
    + apply elem_of_objects. exact (max_by_elem_of _ _ _ _ Hmax).
    + intros k y Hk%elem_of_objects.
      by destruct (max_by_first_position np_less snd (objects a) i x
                     (objects_increasing a) Hmax k y Hk).
    + intros k y Hk%elem_of_objects.
      by destruct (max_by_first_position np_less snd (objects a) i x
                     (objects_increasing a) Hmax k y Hk).
  - apply max_by_None in Hmax. destruct a; [done|]. by simpl in Hmax.
Qed.

(** C4 (counterexample). Two members whose weights are both 0: the blend
    returns class 0 with confidence 0, and raises nothing. *)
Lemma zero_weight_blend_is_not_an_error :
  contributed_weight ∅ two_class_vectors = 0 ∧
  _weighted_probability_ensemble ∅ two_class_vectors
    = inr (mkVerdict (IntLabel 0) 0) ∧
  _ensemble_predict added_up ∅
    [("champion", IntLabel 1); ("challenger", IntLabel 0)] two_class_vectors
    = inr (mkVerdict (IntLabel 0) 0).
Proof. by_evaluation. Qed.

(** C4 (amended). When the contributed vectors all have the same non-zero
    length and the weights of the contributing members add up to 0 (or to
    anything that is not greater than 0), the blend does not fail: the
    normalisation is skipped, so that the blended vector is the
    un-normalised weighted sum, and the verdict is the first class of
    greatest weighted sum, with that sum as its confidence. Greatest is
    meant in the order of [np.argmax], which is the order of the numbers
    where no weighted sum is a NaN. *)
Theorem zero_weight_blend_returns weights (n : nat) ps :
  ps ≠ [] → Forall (λ p, length p.2 = n) ps → (0 < n)%nat →
  (0 <? contributed_weight weights ps) = false →
  ∃ wp (i : nat) conf,
    accumulate weights ps (np_zeros n) 0
      = inr (wp, contributed_weight weights ps) ∧
    blended_probs weights ps = inr wp ∧
    first_greatest wp i conf ∧
    (Forall (λ x, PrimFloat.is_nan x = false) wp →
       ∀ k x, wp !! k = Some x →
         (conf <? x) = false ∧ (k < i → (x <? conf) = true)) ∧
    _weighted_probability_ensemble weights ps
      = inr (mkVerdict (IntLabel (Z.of_nat i)) conf).
Proof.
  intros Hne Hps Hn Hzero.
  destruct (blended_probs_same_length weights n ps Hne Hps)
    as (wp & Hrun & Hlen & Hblend).
  rewrite Hzero in Hblend.
  destruct (np_argmax_max wp) as (i & conf & Harg & Hmax & Hfirst).
  { intros ->. simpl in Hlen. lia. }
  exists wp, i, conf. split_and!; [done..| |].
  { intros Hnan k x Hk. rewrite Forall_forall in Hnan.
    destruct Hfirst as (Hi & Hge & Hlt).
    assert (PrimFloat.is_nan conf = false) as Hconf
      by (by eapply Hnan, list_elem_of_lookup_2).
    assert (PrimFloat.is_nan x = false) as Hx
      by (by eapply Hnan, list_elem_of_lookup_2).
    rewrite <- !np_less_ltb by done. split; [by eapply Hge|by apply Hlt]. }
  unfold _weighted_probability_ensemble. rewrite Hblend. cbn [mbind Exc_bind].
  rewrite Harg, Hmax. unfold all_classes. rewrite (max_length_same n) by done.
  destruct Hfirst as [Hi _].
  rewrite lookup_seq_lt; [done|]. apply lookup_lt_Some in Hi. lia.
Qed.

Lemma zero_weight_blend_returns_witness :
  (Forall (λ p : string * ndarray, length p.2 = 2%nat) two_class_vectors ∧
   (0 <? contributed_weight ∅ two_class_vectors) = false) ∧
  ∃ wp (i : nat) conf,
    accumulate ∅ two_class_vectors (np_zeros 2) 0
      = inr (wp, contributed_weight ∅ two_class_vectors) ∧
    blended_probs ∅ two_class_vectors = inr wp ∧
    first_greatest wp i conf ∧
    (Forall (λ x, PrimFloat.is_nan x = false) wp →
       ∀ k x, wp !! k = Some x →
         (conf <? x) = false ∧ (k < i → (x <? conf) = true)) ∧
    _weighted_probability_ensemble ∅ two_class_vectors
      = inr (mkVerdict (IntLabel (Z.of_nat i)) conf).
Proof.
  assert (Forall (λ p : string * ndarray, length p.2 = 2%nat) two_class_vectors)
    as Hps by (by repeat constructor).
  split; [split; [done|by vm_compute]|].
  apply (zero_weight_blend_returns ∅ 2); [done|done|lia|by vm_compute].
Defined.

(** C7 (divergence). A member with a two-class vector and a member with a
    three-class vector: the sum [weighted_probs += proba * weight] cannot be
    broadcast, and the blend raises instead of counting the missing class
    as 0. *)
Theorem shorter_vector_makes_blend_raise :
  let e :=
    ValueError
      "operands could not be broadcast together with shapes (3,) (2,) (3,) " in
  blended_probs demo_weights mixed_vectors = inl e ∧
  _weighted_probability_ensemble demo_weights mixed_vectors = inl e ∧
  _ensemble_predict added_up demo_weights
    [("champion", IntLabel 0); ("challenger", IntLabel 2)] mixed_vectors
    = inl e.
Proof. cbv zeta. by_evaluation. Qed.

(** Any vector that is shorter than the longest one, and has more than one
    element, makes the blend raise. *)
Lemma length_mismatch_raises weights ps p :
  p ∈ ps →
  length p.2 ≠ foldr Nat.max 0%nat ((λ p, length p.2) <$> ps) →
  length p.2 ≠ 1%nat →
  ∃ e, _weighted_probability_ensemble weights ps = inl e.
Proof.
  intros Hp Hlen Hone.
  destruct (accumulate_mismatch weights ps
              (np_zeros (length (all_classes ps))) 0 p Hp) as [e He]; [|done|].
  { unfold np_zeros. by rewrite length_replicate, all_classes_length. }
  exists e. unfold _weighted_probability_ensemble, blended_probs.
  rewrite He. reflexivity.
Qed.

(** C9 (divergence). A one-class vector beside a three-class vector, each
    summing to 1, with weights 0.7 and 0.3, which add up to 1: the single
    element is not taken as the probability of class 0 alone but added to
    every class, so that the blended vector sums to 2.4 and the verdict is
    class 2. With the missing classes at probability 0 the blended vector
    sums to 1 and the verdict is class 0. *)
Theorem broadcast_blend_does_not_sum_to_one :
  added_up [1] = 1 ∧
  added_up [0.2; 0.3; 0.5] = 1 ∧
  contributed_weight demo_weights broadcast_vectors = 1 ∧
  blended_probs demo_weights broadcast_vectors
    = inr [0.76; 0.7899999999999999; 0.85] ∧
  added_up [0.76; 0.7899999999999999; 0.85] = 2.4 ∧
  _weighted_probability_ensemble demo_weights broadcast_vectors
    = inr (mkVerdict (IntLabel 2) 0.85) ∧
  blended_probs demo_weights padded_vectors = inr [0.76; 0.09; 0.15] ∧
  added_up [0.76; 0.09; 0.15] = 1 ∧
  _weighted_probability_ensemble demo_weights padded_vectors
    = inr (mkVerdict (IntLabel 0) 0.76).
Proof. by_evaluation. Qed.

End BlenderFacts.

(** ** The loader and the predictor *)

Module EnsembleFacts.
Import Registry Blender Ensemble Notions Scenarios PyFacts.




Section Batch.
Context {MatchData Features FeatureInfo : Type}.
Variable preprocess : MatchData → string → Exc Features.
Variable py_sum : list float → float.

Implicit Types p : @Predictor Features FeatureInfo.




End Batch.

(** *** The loader *)

Lemma descending_higher_first (l : list (nat * ModelEntry)) :
  StronglySorted (descending Qc_ltb (λ x, accuracy x.2)) l →
  StronglySorted higher_first l.
Proof.
  induction 1 as [|x l _ IH Hx]; constructor; [done|].
  eapply Forall_impl; [done|]. intros y Hy. unfold descending in Hy.
  apply bool_decide_eq_false in Hy. by apply Qcnot_lt_le.
Qed.

Section Loader.
Context {Features FeatureInfo : Type}.
Variable artifacts : string → option (@ModelPackage Features FeatureInfo).

Implicit Types p : @Predictor Features FeatureInfo.

Lemma load_single_weight e w p id :
  model_weights (_load_single_model artifacts e w p) !! id
    = if decide (e_id e = id ∧ is_Some (artifacts (e_file_path e)))
      then Some w else model_weights p !! id.
Proof.
  unfold _load_single_model.
  destruct (artifacts (e_file_path e)) as [package|]; simpl.
  - destruct (decide (e_id e = id)) as [->|Hne].
    + rewrite lookup_insert_eq, decide_True; [done|]. by split.
    + rewrite lookup_insert_ne by done. rewrite decide_False; [done|].
      by intros [? _].
  - rewrite decide_False; [done|]. by intros [_ [? ?]].
Qed.

Lemma load_all_weight (cs : list (nat * ModelEntry)) w p id :
  model_weights
    (foldl (λ p c, _load_single_model artifacts c.2 w p) p cs) !! id
    = if decide (Exists (λ c, e_id c.2 = id ∧ loads artifacts c) cs)
      then Some w else model_weights p !! id.
Proof.
  revert p. induction cs as [|c cs IH]; intros p; cbn [foldl].
  - rewrite decide_False; [done|]. by intros ?%Exists_nil.
  - rewrite IH, load_single_weight.
    destruct (decide (Exists (λ c, e_id c.2 = id ∧ loads artifacts c) cs))
      as [Hcs|Hcs].
    + rewrite decide_True; [done|]. by right.
    + destruct (decide (e_id c.2 = id ∧ is_Some (artifacts (e_file_path c.2))))
        as [Hc|Hc].
      * rewrite decide_True; [done|]. by left.
      * rewrite decide_False; [done|]. by intros [?|?]%Exists_cons.
Qed.

End Loader.

Lemma elem_of_eligible {Features FeatureInfo}
    (p : @Predictor Features FeatureInfo) (status : string)
    (l : list ModelEntry) x :
  x ∈ of_requested_type p (get_models_by_status l status)
  ↔ eligible p status l x.
Proof.
  unfold of_requested_type, get_models_by_status, eligible, as_requested.
  destruct x as [k m]. cbn [fst snd].
  destruct (model_type p) as [t|].
  - unfold truthy. destruct (String.eqb_spec t "") as [->|Hne]; simpl.
    + rewrite list_elem_of_filter, elem_of_objects. simpl.
      split; [|tauto]. intros [Hs Hk]. split_and!; [done..|].
      by intros T [= <-].
    + rewrite !list_elem_of_filter, elem_of_objects. simpl.
      split.
      * intros (HT & Hs & Hk). split_and!; [done..|]. by intros T [= <-].
      * intros (Hk & Hs & HT). split_and!; [|done..]. by apply HT.
  - rewrite list_elem_of_filter, elem_of_objects. simpl.
    split; [|tauto]. intros [Hs Hk]. by split_and!.
Qed.

Lemma eligible_increasing {Features FeatureInfo}
    (p : @Predictor Features FeatureInfo) (status : string)
    (l : list ModelEntry) :
  StronglySorted (λ a b, a.1 < b.1)
    (of_requested_type p (get_models_by_status l status)).
Proof.
  unfold of_requested_type, get_models_by_status.
  destruct (model_type p) as [t|]; [destruct (truthy t)|];
    repeat apply filter_increasing; apply objects_increasing.
Qed.

Lemma increasing_NoDup {A} (L : list (nat * A)) :
  StronglySorted (λ a b, a.1 < b.1) L → NoDup L.
Proof.
  induction 1 as [|x L _ IH Hx]; constructor; [|done].
  intros Hin. rewrite Forall_forall in Hx. specialize (Hx x Hin). lia.
Qed.

(** C6 (counterexample). A candidate stored under the id of the active
    entry: the loader loads the active entry with weight 0.7 and then the
    candidate under the same id, so that the predictor holds one model,
    the candidate, with the challenger weight 0.3; no model has the
    weight 0.7. *)
Lemma shared_id_replaces_champion :
  let p := _load_models demo_artifacts demo_ledger_shared_id demo_predictor in
  fst <$> models p = ["model-a"] ∧
  (λ member, e_status (m_model_entry member.2)) <$> models p = ["candidate"] ∧
  model_weights p = {[ "model-a" := 0.3%float ]}.
Proof. cbv zeta. by_evaluation. Qed.

(** C6 (amended). [_load_models] selects as champion the first entry of
    latest [created_at] among the entries of status 'active' (and of the
    requested type, if one is requested), and none if there is no such
    entry; as challengers the first two, or fewer, of the entries of
    status 'candidate' (and of the requested type) in order of descending
    accuracy. It loads the champion with weight 0.7 and then the
    challengers, each with weight 0.3 divided by their number. A
    challenger whose artifact loads has that weight in the predictor, and
    so has the champion its 0.7 when its artifact loads and no challenger
    carries its id. On a ledger with one active entry and candidates of
    accuracy 0.82 and 0.89 the members are the active entry, the 0.89
    candidate and the 0.82 candidate, with weights 0.7, 0.15 and 0.15. *)
Theorem loader_selects_champion_and_challengers {Features FeatureInfo}
    (artifacts : string → option (@ModelPackage Features FeatureInfo))
    (l : list ModelEntry) (p : @Predictor Features FeatureInfo) :
  (let loaded := _load_models artifacts l p in
   ∃ (champion : option (nat * ModelEntry))
     (challengers rest : list (nat * ModelEntry)),
     let challenger_weight :=
       (0.3 / py_float (length challengers))%float in
     match champion with
     | None => ∀ x, ¬ eligible p "active" l x
     | Some a =>
         eligible p "active" l a ∧
         ∀ x, eligible p "active" l x →
           str_ltb (e_created_at a.2) (e_created_at x.2) = false ∧
           (x.1 < a.1 →
            str_ltb (e_created_at x.2) (e_created_at a.2) = true)
     end ∧
     (∀ x, x ∈ challengers ++ rest ↔ eligible p "candidate" l x) ∧
     NoDup (challengers ++ rest) ∧
     StronglySorted higher_first (challengers ++ rest) ∧
     length challengers = length (challengers ++ rest) `min` 2 ∧
     loaded
       = foldl (λ p challenger,
                  _load_single_model artifacts challenger.2 challenger_weight p)
           (match champion with
            | Some a => _load_single_model artifacts a.2 0.7%float p
            | None => p
            end)
           challengers ∧
     (∀ c, c ∈ challengers → loads artifacts c →
        model_weights loaded !! e_id c.2 = Some challenger_weight) ∧
     (∀ a, champion = Some a → loads artifacts a →
        (∀ c, c ∈ challengers → e_id c.2 ≠ e_id a.2) →
        model_weights loaded !! e_id a.2 = Some 0.7%float)) ∧
  (let p := _load_models demo_artifacts demo_ledger demo_predictor in
   fst <$> models p = ["active-85"; "candidate-89"; "candidate-82"] ∧
   (λ member, e_status (m_model_entry member.2)) <$> models p
     = ["active"; "candidate"; "candidate"] ∧
   model_weights p
     = {[ "active-85" := 0.7%float; "candidate-89" := 0.15%float;
          "candidate-82" := 0.15%float ]}).
Proof.
  split; [|cbv zeta; by_evaluation].
  intros loaded.
  set (active_models := of_requested_type p (get_models_by_status l "active")).
  set (candidate_models :=
         of_requested_type p (get_models_by_status l "candidate")).
  set (sorted := sorted_desc Qc_ltb (λ x, accuracy x.2) candidate_models).
  exists (max_by str_ltb (λ x, e_created_at x.2) active_models),
    (take 2 sorted), (drop 2 sorted).
  intros challenger_weight.
  assert (loaded
          = foldl (λ p c, _load_single_model artifacts c.2 challenger_weight p)
              (match max_by str_ltb (λ x, e_created_at x.2) active_models with
               | Some a => _load_single_model artifacts a.2 0.7%float p
               | None => p
               end)
              (take 2 sorted)) as Hloaded.
  { unfold loaded, _load_models. fold active_models. fold candidate_models.
    fold sorted. unfold challenger_weight.
    by destruct (take 2 sorted). }
  assert (take 2 sorted ++ drop 2 sorted ≡ₚ candidate_models) as Hperm.
  { rewrite take_drop. apply sorted_desc_perm. }
  split_and!.
  - destruct (max_by str_ltb (λ x, e_created_at x.2) active_models)
      as [a|] eqn:Hmax.
    + split.
      * apply elem_of_eligible. exact (max_by_elem_of _ _ _ _ Hmax).
      * intros x Hx%elem_of_eligible. destruct a as [i a], x as [k x].
        exact (max_by_first_position str_ltb (λ x, e_created_at x.2)
                 active_models i a (eligible_increasing p "active" l)
                 Hmax k x Hx).
    + apply (max_by_None str_ltb) in Hmax.
      intros x Hx%elem_of_eligible. fold active_models in Hx.
      rewrite Hmax in Hx. by apply elem_of_nil in Hx.
  - intros x. rewrite Hperm. apply elem_of_eligible.
  - rewrite Hperm. apply increasing_NoDup, eligible_increasing.
  - rewrite take_drop. apply descending_higher_first.
    apply sorted_desc_sorted; apply _.
  - rewrite take_drop, length_take. lia.
  - done.
  - intros c Hc Hloads. rewrite Hloaded, load_all_weight.
    rewrite decide_True; [done|]. apply Exists_exists. by exists c.
  - intros a Ha Hloads Hids. rewrite Hloaded, load_all_weight.
    rewrite decide_False.
    + rewrite Ha, load_single_weight, decide_True; [done|]. by split.
    + intros (c & Hc & Hid & _)%Exists_exists. by apply (Hids c).
Qed.

End EnsembleFacts.

(** * Further properties *)

(** ** Lists *)

Module ListFacts.
Import Notions PyFacts.

Lemma filter_ext_elem {A} (P Q : A → Prop) `{∀ x, Decision (P x)}
    `{∀ x, Decision (Q x)} (l : list A) :
  (∀ x, x ∈ l → P x ↔ Q x) → filter P l = filter Q l.
Proof.
  induction l as [|x l IH]; intros HPQ; [done|].
  rewrite !filter_cons.
  rewrite IH by (intros y Hy; apply HPQ; by right).
  pose proof (HPQ x (list_elem_of_here x l)) as Hx.
  destruct (decide (P x)), (decide (Q x)); tauto.
Qed.

Lemma filter_all {A} (P : A → Prop) `{∀ x, Decision (P x)} (l : list A) :
  Forall P l → filter P l = l.
Proof.
  induction 1 as [|x l Hx _ IH]; [done|].
  by rewrite filter_cons_True, IH.
Qed.

Lemma filter_none {A} (P : A → Prop) `{∀ x, Decision (P x)} (l : list A) :
  Forall (λ x, ¬ P x) l → filter P l = [].
Proof.
  induction 1 as [|x l Hx _ IH]; [done|].
  by rewrite filter_cons_False, IH.
Qed.

Lemma filter_length_eq {A} (P : A → Prop) `{∀ x, Decision (P x)} (l : list A) :
  length (filter P l) = length l → filter P l = l.
Proof.
  intros Hlen. apply filter_all, Forall_forall. intros x Hx.
  destruct (decide (P x)) as [|Hn]; [done|].
  pose proof (length_filter_lt P l x Hx Hn). lia.
Qed.

Lemma length_filter_split {A} (P : A → Prop) `{∀ x, Decision (P x)}
    (l : list A) :
  length (filter P l) + length (filter (λ x, ¬ P x) l) = length l.
Proof.
  rewrite <- length_app. by rewrite filter_app_complement.
Qed.

(** [l.remove(x)] takes out the first occurrence of [x]. *)
Lemma list_remove_first `{EqDecision A} (x : A) l :
  x ∈ l →
  ∃ a b, l = a ++ x :: b ∧ (x ∉ a) ∧ list_remove x l = Some (a ++ b).
Proof.
  induction l as [|y l IH]; intros Hx; [by apply elem_of_nil in Hx|].
  simpl. destruct (decide (y = x)) as [->|Hne].
  - exists [], l. split_and!; [done| |done]. apply not_elem_of_nil.
  - apply elem_of_cons in Hx as [->|Hx]; [done|].
    destruct (IH Hx) as (a & b & -> & Ha & ->).
    exists (y :: a), b. split_and!; [done| |done].
    rewrite elem_of_cons. intros [->|?]; done.
Qed.

Lemma StronglySorted_filter {A} (R : relation A) (P : A → Prop)
    `{∀ x, Decision (P x)} (l : list A) :
  StronglySorted R l → StronglySorted R (filter P l).
Proof.
  induction 1 as [|x l _ IH Hx]; [constructor|].
  rewrite filter_cons. destruct (decide (P x)); [|done].
  constructor; [done|].
  rewrite Forall_forall in Hx. apply Forall_forall.
  intros y Hy. apply list_elem_of_filter in Hy as [_ Hy]. by apply Hx.
Qed.

Lemma StronglySorted_take_drop {A} (R : relation A) (l : list A) (k : nat) x y :
  StronglySorted R l → x ∈ take k l → y ∈ drop k l → R x y.
Proof.
  intros Hl. revert k. induction Hl as [|z l _ IH Hz]; intros k Hx Hy.
  { rewrite take_nil in Hx. by apply elem_of_nil in Hx. }
  destruct k as [|k]; [by apply elem_of_nil in Hx|].
  simpl in Hx, Hy. apply elem_of_cons in Hx as [->|Hx].
  - rewrite Forall_forall in Hz. apply Hz.
    eapply elem_of_sublist; [done|apply sublist_drop].
  - by apply (IH k).
Qed.

Lemma filter_take_NoDup `{EqDecision A} (l : list A) (k : nat) :
  NoDup l → filter (λ x, x ∈ take k l) l = take k l.
Proof.
  intros Hl.
  assert (∀ t d : list A,
            NoDup (t ++ d) → filter (λ x, x ∈ t) (t ++ d) = t) as Hsplit.
  { intros t d (_ & Hd & _)%NoDup_app.
    rewrite filter_app, filter_all, filter_none, app_nil_r; [done| |].
    - apply Forall_forall. intros x Hx Hx'. by apply (Hd x).
    - by apply Forall_forall. }
  specialize (Hsplit (take k l) (drop k l)).
  rewrite take_drop in Hsplit. by apply Hsplit.
Qed.

End ListFacts.

(** ** Dictionaries in insertion order *)

Module DictFacts.
Import Blender Notions MoreNotions ListFacts.

Section Dict.
Context {K V : Type} `{EqDecision K}.
Implicit Types (d : list (K * V)) (k : K) (v : V).

Lemma dict_get_set k k' v d :
  dict_get k (dict_set k' v d)
    = if decide (k' = k) then Some v else dict_get k d.
Proof.
  induction d as [|[k0 v0] d IH]; simpl.
  - by destruct (decide (k' = k)).
  - destruct (decide (k0 = k')) as [->|Hne]; simpl.
    + destruct (decide (k' = k)); done.
    + rewrite IH. destruct (decide (k0 = k)) as [->|]; [|done].
      by rewrite decide_False by done.
Qed.

Lemma dict_get_None k d : dict_get k d = None ↔ k ∉ d.*1.
Proof.
  induction d as [|[k0 v0] d IH]; simpl.
  - split; [intros _; apply not_elem_of_nil|done].
  - rewrite not_elem_of_cons. destruct (decide (k0 = k)) as [->|Hne].
    + split; [done|]. by intros [? _].
    + rewrite IH. split; [by intros ?; split|by intros [_ ?]].
Qed.

Lemma dict_get_elem_of k v d : dict_get k d = Some v → (k, v) ∈ d.
Proof.
  induction d as [|[k0 v0] d IH]; simpl; [done|].
  destruct (decide (k0 = k)) as [->|Hne].
  - intros [= ->]. left.
  - intros Hget. right. by apply IH.
Qed.

Lemma dict_get_of_elem k v d : NoDup d.*1 → (k, v) ∈ d → dict_get k d = Some v.
Proof.
  induction d as [|[k0 v0] d IH]; simpl; intros Hnd Hin.
  { by apply elem_of_nil in Hin. }
  apply NoDup_cons in Hnd as [Hk0 Hnd].
  apply elem_of_cons in Hin as [[= -> ->]|Hin].
  - by rewrite decide_True.
  - rewrite decide_False; [by apply IH|]. intros ->. apply Hk0.
    apply list_elem_of_fmap. by exists (k, v).
Qed.

Lemma dict_set_keys k v d :
  (dict_set k v d).*1 = if decide (k ∈ d.*1) then d.*1 else d.*1 ++ [k].
Proof.
  induction d as [|[k0 v0] d IH]; [done|]. cbn [dict_set].
  destruct (decide (k0 = k)) as [->|Hne]; rewrite !fmap_cons; cbn [fst].
  - by rewrite decide_True by left.
  - rewrite IH. destruct (decide (k ∈ d.*1)) as [Hin|Hout].
    + by rewrite decide_True by by right.
    + rewrite decide_False; [done|]. rewrite elem_of_cons. by intros [?|?].
Qed.

Lemma dict_set_NoDup k v d : NoDup d.*1 → NoDup (dict_set k v d).*1.
Proof.
  intros Hd. rewrite dict_set_keys. destruct (decide _) as [|Hout]; [done|].
  apply NoDup_app. split_and!; [done| |apply NoDup_singleton].
  intros x Hx Hx'%list_elem_of_singleton. by subst.
Qed.

End Dict.

Section Tally.
Context {X K V : Type} `{EqDecision K}.
Context (key : X → K) (val : X → V) (add : V → V → V) (zero : V).

Lemma tally_snoc l x :
  tally key val add zero (l ++ [x])
    = dict_set (key x)
        (add (default zero (dict_get (key x) (tally key val add zero l)))
           (val x))
        (tally key val add zero l).
Proof. unfold tally. by rewrite foldl_snoc. Qed.

Lemma tally_NoDup l : NoDup (tally key val add zero l).*1.
Proof.
  induction l as [|x l IH] using rev_ind; [constructor|].
  rewrite tally_snoc. by apply dict_set_NoDup.
Qed.

(** What the dictionary holds under [k]: the values of the elements with
    that key, added up in their order. *)
Lemma tally_get l k :
  dict_get k (tally key val add zero l)
    = match filter (λ x, key x = k) l with
      | [] => None
      | xs => Some (foldl (λ a x, add a (val x)) zero xs)
      end.
Proof.
  induction l as [|x l IH] using rev_ind; [done|].
  rewrite tally_snoc, dict_get_set, filter_app, filter_cons, filter_nil.
  destruct (decide (key x = k)) as [Hk|Hk].
  - rewrite Hk, IH. destruct (filter _ l) as [|y ys] eqn:Hf; simpl; [done|].
    by rewrite foldl_snoc.
  - by rewrite IH, app_nil_r.
Qed.

Lemma tally_keys l k :
  k ∈ (tally key val add zero l).*1 ↔ ∃ x, x ∈ l ∧ key x = k.
Proof.
  destruct (dict_get k (tally key val add zero l)) as [v|] eqn:Hget.
  - split.
    + intros _. rewrite tally_get in Hget.
      destruct (filter _ l) as [|y ys] eqn:Hf; [done|].
      assert (y ∈ filter (λ x, key x = k) l) as Hy by (rewrite Hf; left).
      apply list_elem_of_filter in Hy as [? ?]. by exists y.
    + intros _. apply dict_get_elem_of in Hget.
      apply list_elem_of_fmap. by exists (k, v).
  - split.
    + intros Hin. by apply dict_get_None in Hget.
    + intros (x & Hx & Hk). rewrite tally_get in Hget.
      assert (x ∈ filter (λ x, key x = k) l) as Hin
        by (by apply list_elem_of_filter).
      destruct (filter _ l); [by apply elem_of_nil in Hin|done].
Qed.

End Tally.

End DictFacts.

Module CleanupFacts.
Import Registry Notions MoreNotions PyFacts ListFacts RegistryFacts.

Lemma with_models_ledger w : with_models (ledger w) w = w.
Proof. by destruct w as [[] ?]. Qed.

(** *** Grouping by type *)

Lemma group_add_keys t m g :
  (group_add t m g).*1 = if decide (t ∈ g.*1) then g.*1 else g.*1 ++ [t].
Proof.
  induction g as [|[t' ms] g IH]; [done|]. cbn [group_add].
  destruct (decide (t' = t)) as [->|Hne]; rewrite !fmap_cons; cbn [fst].
  - by rewrite decide_True by left.
  - rewrite IH. destruct (decide (t ∈ g.*1)) as [Hin|Hout].
    + by rewrite decide_True by by right.
    + rewrite decide_False; [done|]. rewrite elem_of_cons. by intros [?|?].
Qed.

Lemma elem_of_group_add t m g T ms :
  NoDup g.*1 → (T, ms) ∈ group_add t m g →
  (T ≠ t ∧ (T, ms) ∈ g) ∨
  (T = t ∧ ∃ ms0, ms = ms0 ++ [m] ∧
     ((t, ms0) ∈ g ∨ (ms0 = [] ∧ t ∉ g.*1))).
Proof.
  induction g as [|[t' ms'] g IH]; simpl; intros Hnd Hin.
  { apply list_elem_of_singleton in Hin as [= -> ->]. right. split; [done|].
    exists []. split; [done|]. right. split; [done|]. apply not_elem_of_nil. }
  apply NoDup_cons in Hnd as [Ht' Hnd].
  destruct (decide (t' = t)) as [->|Hne].
  - apply elem_of_cons in Hin as [[= -> ->]|Hin].
    + right. split; [done|]. exists ms'. split; [done|]. left. by left.
    + left. split; [|by right]. intros ->. apply Ht'.
      apply list_elem_of_fmap. by exists (t, ms).
  - apply elem_of_cons in Hin as [[= -> ->]|Hin].
    + left. split; [done|by left].
    + destruct (IH Hnd Hin) as [[? ?]|[-> (ms0 & -> & Hcase)]].
      * left. split; [done|by right].
      * right. split; [done|]. exists ms0. split; [done|].
        destruct Hcase as [?|[-> ?]]; [left; by right|right].
        split; [done|]. rewrite not_elem_of_cons. done.
Qed.

Lemma group_of_snoc T l m :
  group_of T (l ++ [m])
    = group_of T l ++ (if decide (type_or_unknown m = T) then [m] else []).
Proof.
  unfold group_of. rewrite filter_app, filter_cons, filter_nil.
  by destruct (decide _).
Qed.

Lemma group_add_grouped g l m :
  grouped g l → grouped (group_add (type_or_unknown m) m g) (l ++ [m]).
Proof.
  intros (Hnd & Hgroups & Hcover). split_and!.
  - rewrite group_add_keys. destruct (decide _) as [|Hout]; [done|].
    apply NoDup_app. split_and!; [done| |apply NoDup_singleton].
    intros x Hx Hx'%list_elem_of_singleton. by subst.
  - intros T ms Hin. rewrite group_of_snoc.
    destruct (elem_of_group_add _ _ _ _ _ Hnd Hin)
      as [[Hne Hg]|[-> (ms0 & -> & Hcase)]].
    + rewrite decide_False by done. rewrite app_nil_r. by apply Hgroups.
    + rewrite decide_True by done. f_equal.
      destruct Hcase as [Hg|[-> Hout]]; [by apply Hgroups|].
      symmetry. apply filter_none, Forall_forall. intros x Hx Htype.
      apply Hout. rewrite <- Htype. by apply Hcover.
  - intros x Hx. rewrite group_add_keys.
    apply elem_of_app in Hx as [Hx|Hx%list_elem_of_singleton].
    + destruct (decide _); [by apply Hcover|].
      apply elem_of_app. left. by apply Hcover.
    + subst x. destruct (decide _); [done|]. apply elem_of_app. right. by left.
Qed.

Lemma group_by_type_grouped l : grouped (group_by_type l) l.
Proof.
  induction l as [|m l IH] using rev_ind.
  - split_and!; [constructor| |]; by intros; exfalso; eapply elem_of_nil.
  - unfold group_by_type. rewrite foldl_snoc. by apply group_add_grouped.
Qed.

(** *** The entries selected for removal *)

Lemma elem_of_models_to_remove k ms m :
  m ∈ models_to_remove k ms ↔
    m ∈ ms ∧ (e_status m ∉ ["active"; "candidate"]) ∧
    (m ∉ slice_to k (filter (λ m, e_status m = "archived")
                       (sorted_desc str_ltb e_created_at ms))).
Proof.
  assert (m ∈ sorted_desc str_ltb e_created_at ms ↔ m ∈ ms) as Hperm
    by (by rewrite sorted_desc_perm).
  unfold models_to_remove.
  rewrite list_elem_of_filter, not_elem_of_app, list_elem_of_filter.
  tauto.
Qed.

Lemma models_to_remove_subseteq k ms m :
  m ∈ models_to_remove k ms → m ∈ ms.
Proof. rewrite elem_of_models_to_remove. tauto. Qed.

Lemma models_to_remove_perm k ms :
  models_to_remove k ms ≡ₚ filter (λ m, m ∈ models_to_remove k ms) ms.
Proof.
  set (Q := λ m, (e_status m ∉ ["active"; "candidate"]) ∧
                 (m ∉ slice_to k
                        (filter (λ m, e_status m = "archived")
                           (sorted_desc str_ltb e_created_at ms)))).
  rewrite (filter_ext_elem (λ m, m ∈ models_to_remove k ms) Q).
  2:{ intros x Hx. rewrite elem_of_models_to_remove. unfold Q. tauto. }
  transitivity (filter Q (sorted_desc str_ltb e_created_at ms)).
  - unfold models_to_remove. cbv zeta.
    rewrite (filter_ext_elem _ Q); [reflexivity|].
    intros x Hx. unfold Q.
    rewrite not_elem_of_app, list_elem_of_filter. tauto.
  - apply filter_Permutation, sorted_desc_perm.
Qed.

(** *** Running the removals *)

(** When [R] holds every occurrence in the ledger of each of its elements,
    removing the elements of [R] one by one never fails, and leaves the
    entries that are not in [R]. *)
Lemma remove_all_run R n w :
  R ≡ₚ filter (λ x, x ∈ R) (ledger w) →
  remove_all R n w
    = (inr (n + length R),
       with_models (filter (λ x, x ∉ R) (ledger w)) w).
Proof.
  revert n w. induction R as [|x R IH]; intros n w HR.
  { simpl. rewrite Nat.add_0_r. unfold mret, M_ret. f_equal.
    rewrite filter_all; [by rewrite with_models_ledger|].
    apply Forall_forall. intros y _. apply not_elem_of_nil. }
  assert (x ∈ ledger w) as Hx.
  { assert (x ∈ filter (λ y, y ∈ x :: R) (ledger w)) as Hx
      by (rewrite <- HR; left).
    by apply list_elem_of_filter in Hx as [_ ?]. }
  destruct (list_remove_first x (ledger w) Hx) as (a & b & Hl & Ha & Hrm).
  rewrite Hl in HR. rewrite filter_app, filter_cons_True in HR by left.
  apply Permutation_cons_app_inv in HR. rewrite <- filter_app in HR.
  assert (∀ y, y ∈ a ++ b → y ∈ x :: R ↔ y ∈ R) as Hext.
  { intros y Hy. split; [|by right]. intros Hy'. rewrite HR.
    by apply list_elem_of_filter. }
  assert (remove_model x w = (inr tt, with_models (a ++ b) w)) as Hstep.
  { unfold remove_model, mbind, M_bind, get_ledger. by rewrite Hrm. }
  cbn [remove_all]. unfold mbind at 1, M_bind at 1. rewrite Hstep.
  rewrite IH.
  2:{ change (ledger (with_models (a ++ b) w)) with (a ++ b).
      rewrite HR at 1. by rewrite (filter_ext_elem _ _ _ Hext). }
  change (ledger (with_models (a ++ b) w)) with (a ++ b).
  f_equal; [f_equal; simpl; lia|].
  change (with_models ?l (with_models _ w)) with (with_models l w).
  f_equal. rewrite Hl, (filter_app _ a (x :: b)).
  rewrite filter_cons_False by (intros H; apply H; left).
  rewrite <- filter_app. apply filter_ext_elem.
  intros y Hy. by rewrite (Hext y Hy).
Qed.

(** The elements selected in the group of [T] are all of type [T], and
    every one of their occurrences in the ledger is selected. *)
Lemma models_to_remove_type k T l m :
  m ∈ models_to_remove k (group_of T l) → type_or_unknown m = T.
Proof.
  intros Hm%models_to_remove_subseteq.
  by apply list_elem_of_filter in Hm as [? _].
Qed.

Lemma models_to_remove_occurrences k T l :
  models_to_remove k (group_of T l)
    ≡ₚ filter (λ m, m ∈ models_to_remove k (group_of T l)) l.
Proof.
  pose proof (models_to_remove_perm k (group_of T l)) as Hperm.
  pose proof (models_to_remove_type k T l) as Htype.
  set (R := models_to_remove k (group_of T l)) in *.
  rewrite Hperm at 1. unfold group_of.
  by rewrite list_filter_filter_l.
Qed.

Lemma group_of_without k T T' l :
  T' ≠ T →
  group_of T' (filter (λ x, x ∉ models_to_remove k (group_of T l)) l)
    = group_of T' l.
Proof.
  intros Hne. pose proof (models_to_remove_type k T l) as Htype.
  set (R := models_to_remove k (group_of T l)) in *.
  unfold group_of. rewrite list_filter_filter_l; [done|].
  intros x Hx Hin. apply Htype in Hin. congruence.
Qed.

Lemma cleanup_groups_run k groups n w :
  NoDup groups.*1 →
  (∀ T ms, (T, ms) ∈ groups → ms = group_of T (ledger w)) →
  ∃ n' l',
    cleanup_groups k groups n w = (inr n', with_models l' w) ∧
    l' = filter (λ m, type_or_unknown m ∈ groups.*1 → kept k (ledger w) m)
           (ledger w) ∧
    n' + length l' = n + length (ledger w).
Proof.
  revert n w. induction groups as [|[T ms] groups IH]; intros n w Hnd Hgroups.
  { exists n, (ledger w). split_and!; [|symmetry; apply filter_all|done].
    - simpl. by rewrite with_models_ledger.
    - apply Forall_forall. intros m _ Hin. by apply elem_of_nil in Hin. }
  rewrite fmap_cons in Hnd. cbn [fst] in Hnd.
  apply NoDup_cons in Hnd as [HT Hnd].
  assert (ms = group_of T (ledger w)) as -> by (apply Hgroups; left).
  set (R := models_to_remove k (group_of T (ledger w))).
  set (l1 := filter (λ x, x ∉ R) (ledger w)).
  assert (∀ T', T' ∈ groups.*1 → group_of T' l1 = group_of T' (ledger w))
    as Hsame.
  { intros T' HT'. apply group_of_without. by intros ->. }
  destruct (IH (n + length R) (with_models l1 w) Hnd)
    as (n' & l' & Hrun & Hl' & Hn').
  { intros T' ms' Hin. change (ledger (with_models l1 w)) with l1.
    rewrite Hsame; [apply Hgroups; by right|].
    apply list_elem_of_fmap. by exists (T', ms'). }
  change (ledger (with_models l1 w)) with l1 in Hl', Hn'.
  exists n', l'. split_and!.
  - cbn [cleanup_groups]. unfold mbind at 1, M_bind at 1.
    rewrite remove_all_run by apply models_to_remove_occurrences.
    exact Hrun.
  - rewrite Hl'. unfold l1. rewrite list_filter_filter.
    apply filter_ext_elem. intros m Hm.
    rewrite fmap_cons, elem_of_cons. cbn [fst]. unfold kept.
    destruct (decide (type_or_unknown m = T)) as [Hm'|Hm'].
    + rewrite Hm'. fold R. split; [intros [_ ?] _; done|].
      intros Hkept. split; [|by apply Hkept; left].
      intros Hin. by exfalso.
    + split.
      * intros [Hk _] [?|Hin]; [done|]. specialize (Hk Hin).
        by rewrite Hsame in Hk.
      * intros Hk. split.
        -- intros Hin. rewrite Hsame by done. apply Hk. by right.
        -- intros Hin. apply Hm'. by eapply models_to_remove_type.
  - rewrite Hn'. unfold l1.
    pose proof (length_filter_split (λ x, x ∈ R) (ledger w)) as Hsplit.
    pose proof (models_to_remove_occurrences k T (ledger w)) as Hocc.
    fold R in Hocc. apply Permutation_length in Hocc. lia.
Qed.

(** [cleanup_old_models] never raises: it leaves the kept entries in
    ledger order and returns how many it removed; it writes the registry
    exactly when it removed something. *)
Lemma cleanup_old_models_run k w :
  ∃ n w',
    cleanup_old_models k w = (inr n, w') ∧
    ledger w' = filter (kept k (ledger w)) (ledger w) ∧
    n + length (ledger w') = length (ledger w) ∧
    (n = 0 → w' = w) ∧
    (0 < n → file w' = Some (registry w') ∧ ticks w' = S (ticks w)).
Proof.
  destruct (group_by_type_grouped (ledger w)) as (Hnd & Hgroups & Hcover).
  destruct (cleanup_groups_run k (group_by_type (ledger w)) 0 w Hnd Hgroups)
    as (n & l' & Hrun & Hl' & Hn).
  assert (l' = filter (kept k (ledger w)) (ledger w)) as Hkept.
  { rewrite Hl'. apply filter_ext_elem. intros m Hm. split; [|done].
    intros Hk. by apply Hk, Hcover. }
  unfold cleanup_old_models, mbind, M_bind, get_ledger. rewrite Hrun.
  destruct (decide (n = 0)) as [->|Hpos].
  - assert (l' = ledger w) as Hall.
    { rewrite Hkept. apply filter_length_eq. rewrite <- Hkept. lia. }
    exists 0, w. rewrite bool_decide_eq_false_2 by lia.
    rewrite Hall at 1. rewrite with_models_ledger.
    split_and!; [done|congruence|lia|done|lia].
  - rewrite bool_decide_eq_true_2 by lia.
    eexists n, _. split; [reflexivity|].
    split_and!; [by rewrite <- Hkept| |intros; lia|done].
    change (n + length l' = length (ledger w)). lia.
Qed.

(** *** Which entries are kept *)

Lemma active_or_candidate s :
  s ∈ ["active"; "candidate"] ↔ s = "active" ∨ s = "candidate".
Proof. rewrite !elem_of_cons, elem_of_nil. tauto. Qed.

Lemma valid_status s :
  s ∈ valid_statuses ↔ s = "active" ∨ s = "candidate" ∨ s = "archived".
Proof. unfold valid_statuses. rewrite !elem_of_cons, elem_of_nil. tauto. Qed.

Lemma slice_to_take {A} (k : Z) (l : list A) : ∃ j, slice_to k l = take j l.
Proof. unfold slice_to. destruct (k <? 0)%Z; eauto. Qed.

Lemma slice_to_subseteq {A} (k : Z) (l : list A) x : x ∈ slice_to k l → x ∈ l.
Proof.
  destruct (slice_to_take k l) as [j ->]. intros Hx.
  eapply elem_of_sublist; [done|apply sublist_take].
Qed.

(** The archived entries of the group of [T], latest first. *)
Lemma archived_sorted_perm T l :
  filter (λ m, e_status m = "archived")
    (sorted_desc str_ltb e_created_at (group_of T l)) ≡ₚ archived_of T l.
Proof. unfold archived_of. apply filter_Permutation, sorted_desc_perm. Qed.

Lemma kept_iff k l m :
  m ∈ l →
  kept k l m ↔
    e_status m ∈ ["active"; "candidate"] ∨
    m ∈ slice_to k
          (filter (λ m, e_status m = "archived")
             (sorted_desc str_ltb e_created_at
                (group_of (type_or_unknown m) l))).
Proof.
  intros Hm. unfold kept. rewrite elem_of_models_to_remove.
  assert (m ∈ group_of (type_or_unknown m) l) as Hg
    by (by apply list_elem_of_filter).
  set (S := slice_to _ _).
  destruct (decide (e_status m ∈ ["active"; "candidate"])),
    (decide (m ∈ S)); tauto.
Qed.

Lemma kept_status k l m :
  m ∈ l → kept k l m → e_status m ∈ valid_statuses.
Proof.
  intros Hm [Hs|Hs]%kept_iff; [|apply slice_to_subseteq in Hs|done].
  - apply active_or_candidate in Hs. apply valid_status. tauto.
  - apply list_elem_of_filter in Hs as [Hs _]. apply valid_status. tauto.
Qed.

Lemma kept_archived k l m :
  m ∈ l → e_status m = "archived" →
  kept k l m ↔
    m ∈ slice_to k
          (filter (λ m, e_status m = "archived")
             (sorted_desc str_ltb e_created_at
                (group_of (type_or_unknown m) l))).
Proof.
  intros Hm Hs. rewrite kept_iff by done. split; [|by right].
  intros [Hin|?]; [|done]. rewrite Hs in Hin.
  apply active_or_candidate in Hin as [?|?]; discriminate.
Qed.

(** The archived entries of type [T] that are kept. *)
Lemma archived_of_kept k T l :
  archived_of T (filter (kept k l) l)
    = filter (λ m, m ∈ slice_to k
                         (filter (λ m, e_status m = "archived")
                            (sorted_desc str_ltb e_created_at (group_of T l))))
        (archived_of T l).
Proof.
  unfold archived_of, group_of. rewrite !list_filter_filter.
  apply filter_ext_elem. intros m Hm. split.
  - intros [[Hs HT] Hk]. apply kept_archived in Hk; [|done..].
    rewrite HT in Hk. done.
  - intros [[Hin Hs] HT]. split_and!; [done..|].
    apply kept_archived; [done..|]. by rewrite HT.
Qed.

Lemma archived_of_kept_perm k T l :
  NoDup l →
  archived_of T (filter (kept k l) l)
    ≡ₚ slice_to k (filter (λ m, e_status m = "archived")
                     (sorted_desc str_ltb e_created_at (group_of T l))).
Proof.
  intros Hnd. rewrite archived_of_kept.
  set (A := filter _ (sorted_desc _ _ _)).
  assert (A ≡ₚ archived_of T l) as HA by apply archived_sorted_perm.
  assert (NoDup A) as HndA.
  { rewrite HA. unfold archived_of, group_of. by do 2 apply NoDup_filter. }
  rewrite <- HA. destruct (slice_to_take k A) as [j ->].
  by rewrite filter_take_NoDup.
Qed.

(** Nothing is selected when every status is a valid one and no type has
    more archived entries than the limit. *)
Lemma kept_within_limit k l :
  Forall (λ m, e_status m ∈ valid_statuses) l →
  (∀ T, (Z.of_nat (length (archived_of T l)) ≤ k)%Z) →
  filter (kept k l) l = l.
Proof.
  intros Hvalid Hlimit. apply filter_all, Forall_forall. intros m Hm.
  apply kept_iff; [done|].
  rewrite Forall_forall in Hvalid. specialize (Hvalid m Hm).
  apply valid_status in Hvalid as [Hs|[Hs|Hs]];
    [left; apply active_or_candidate; tauto..|right].
  set (A := filter _ (sorted_desc _ _ _)).
  assert (A ≡ₚ archived_of (type_or_unknown m) l) as HA
    by apply archived_sorted_perm.
  assert (slice_to k A = A) as ->.
  { specialize (Hlimit (type_or_unknown m)). rewrite <- HA in Hlimit.
    unfold slice_to. destruct (k <? 0)%Z eqn:Hk; [lia|].
    apply take_ge. lia. }
  rewrite HA. unfold archived_of, group_of.
  by repeat (apply list_elem_of_filter; split).
Qed.

End CleanupFacts.

Module CleanupCalls.
Import Registry Notions MoreNotions Scenarios MoreScenarios.
Import PyFacts ListFacts RegistryFacts CleanupFacts.

Lemma cleanup_noop k w :
  filter (kept k (ledger w)) (ledger w) = ledger w →
  cleanup_old_models k w = (inr 0, w).
Proof.
  intros Hall.
  destruct (cleanup_old_models_run k w) as (n & w' & Hrun & Hl & Hn & Hz & _).
  rewrite Hl, Hall in Hn. assert (n = 0) as -> by lia.
  by rewrite Hrun, Hz.
Qed.

Lemma ledger_after_cleanup k w :
  ledger (after (cleanup_old_models k) w)
    = filter (kept k (ledger w)) (ledger w).
Proof.
  destruct (cleanup_old_models_run k w) as (n & w' & Hrun & Hl & _).
  unfold after. by rewrite Hrun.
Qed.

Lemma length_archived_of T l :
  length (archived_of T l)
    ≤ length (filter (λ m, e_status m = "archived") l).
Proof.
  unfold archived_of, group_of. rewrite list_filter_filter.
  rewrite <- (list_filter_filter_l (λ m, e_status m = "archived" ∧ _)
                (λ m, e_status m = "archived") l) by tauto.
  apply length_filter.
Qed.

(** X1. [cleanup_old_models] never raises. It returns the number of entries
    it removed, which are those selected in the group of their type; it
    writes the registry when it removed something, and otherwise leaves
    the registry, the file and the clock as they were. *)
Theorem cleanup_returns_number_removed (k : Z) (w : World) :
  let w' := after (cleanup_old_models k) w in
  ∃ n, result (cleanup_old_models k) w = inr n ∧
       n + length (ledger w') = length (ledger w) ∧
       ledger w' = filter (kept k (ledger w)) (ledger w) ∧
       (n = 0 → w' = w) ∧
       (0 < n → file w' = Some (registry w') ∧ ticks w' = S (ticks w)).
Proof.
  destruct (cleanup_old_models_run k w) as (n & w' & Hrun & Hl & Hn & Hz & Hs).
  exists n. unfold after, result. rewrite Hrun. done.
Qed.

(** X2. [cleanup_old_models] removes no active and no candidate entry: these
    are, in the same order, the ones the ledger held before. *)
Theorem cleanup_keeps_active_and_candidates (k : Z) (w : World) :
  filter (λ m, e_status m ∈ ["active"; "candidate"])
    (ledger (after (cleanup_old_models k) w))
  = filter (λ m, e_status m ∈ ["active"; "candidate"]) (ledger w).
Proof.
  rewrite ledger_after_cleanup, list_filter_filter.
  apply filter_ext_elem. intros m Hm. split; [tauto|].
  intros Hs. split; [done|]. apply kept_iff; [done|]. by left.
Qed.

(** X3. After [cleanup_old_models] every entry has one of the statuses
    'active', 'candidate' and 'archived': an entry that [add_model] or an
    import stored with another status is removed, whatever the limit. *)
Theorem cleanup_removes_other_statuses (k : Z) (w : World) :
  Forall (λ m, e_status m ∈ valid_statuses)
    (ledger (after (cleanup_old_models k) w)).
Proof.
  rewrite ledger_after_cleanup. apply Forall_forall.
  intros m [Hk Hm]%list_elem_of_filter. by eapply kept_status.
Qed.

(** X4. When no entry occurs twice in the ledger, the archived entries of a
    type that [cleanup_old_models] leaves are the first [keep_per_type] of
    that type in order of descending [created_at] (for a negative
    [keep_per_type], all but the last ones, as the slice has it): at most
    [keep_per_type] of them, and none older than an archived entry that was
    removed. *)
Theorem cleanup_keeps_latest_archived (k : Z) (w : World) (T : string) :
  NoDup (ledger w) →
  let l' := ledger (after (cleanup_old_models k) w) in
  archived_of T l'
    ≡ₚ slice_to k (filter (λ m, e_status m = "archived")
                     (sorted_desc str_ltb e_created_at
                        (group_of T (ledger w)))) ∧
  ((0 ≤ k)%Z →
     length (archived_of T l')
       = Z.to_nat k `min` length (archived_of T (ledger w))) ∧
  (∀ m m', m ∈ archived_of T l' → m' ∈ archived_of T (ledger w) →
     m' ∉ archived_of T l' →
     str_ltb (e_created_at m) (e_created_at m') = false).
Proof.
  intros Hnd l'. unfold l'. rewrite ledger_after_cleanup.
  pose proof (archived_of_kept_perm k T (ledger w) Hnd) as Hperm.
  pose proof (archived_sorted_perm T (ledger w)) as HA.
  set (A := filter _ (sorted_desc _ _ _)) in *.
  split_and!; [done| |].
  - intros Hk. rewrite Hperm, <- HA. unfold slice_to.
    destruct (k <? 0)%Z eqn:Hneg; [lia|]. by rewrite length_take.
  - intros m m'. rewrite Hperm, <- HA.
    destruct (slice_to_take k A) as [j ->]. intros Hm Hm' Hout.
    assert (m' ∈ drop j A) as Hdrop.
    { rewrite <- (take_drop j A) in Hm'.
      by apply elem_of_app in Hm' as [?|?]. }
    apply (StronglySorted_take_drop
             (descending str_ltb e_created_at) A j); [|done..].
    apply StronglySorted_filter, sorted_desc_sorted, _.
Qed.

Lemma cleanup_keeps_latest_archived_witness :
  NoDup (ledger demo_world_archive) ∧
  length (archived_of "full_time"
            (ledger (after (cleanup_old_models 2) demo_world_archive)))
    = 2 `min` length (archived_of "full_time" (ledger demo_world_archive)).
Proof.
  assert (NoDup (ledger demo_world_archive)) as Hnd by by_evaluation.
  split; [done|].
  apply (cleanup_keeps_latest_archived 2 demo_world_archive "full_time" Hnd).
  lia.
Defined.

(** X5. When every status is one of the three and no type has more archived
    entries than [keep_per_type], [cleanup_old_models] returns 0 and
    changes nothing: no entry, no file, no reading of the clock. *)
Theorem cleanup_within_limit_changes_nothing (k : Z) (w : World) :
  Forall (λ m, e_status m ∈ valid_statuses) (ledger w) →
  (∀ T, (Z.of_nat (length (archived_of T (ledger w))) ≤ k)%Z) →
  cleanup_old_models k w = (inr 0, w).
Proof. intros Hvalid Hlimit. by apply cleanup_noop, kept_within_limit. Qed.

Lemma cleanup_within_limit_changes_nothing_witness :
  Forall (λ m, e_status m ∈ valid_statuses) (ledger demo_world_tie) ∧
  cleanup_old_models 5 demo_world_tie = (inr 0, demo_world_tie).
Proof.
  assert (Forall (λ m, e_status m ∈ valid_statuses) (ledger demo_world_tie))
    as Hvalid by by_evaluation.
  split; [done|].
  apply (cleanup_within_limit_changes_nothing 5 demo_world_tie Hvalid).
  intros T. pose proof (length_archived_of T (ledger demo_world_tie)) as Hle.
  change (length (filter _ (ledger demo_world_tie))) with 0 in Hle. lia.
Defined.

(** X6. When no entry occurs twice in the ledger and [keep_per_type] is not
    negative, a second [cleanup_old_models] with the same limit finds
    nothing to remove: it returns 0 and leaves what the first one left. *)
Theorem cleanup_twice_removes_nothing_more (k : Z) (w : World) :
  NoDup (ledger w) → (0 ≤ k)%Z →
  let w' := after (cleanup_old_models k) w in
  cleanup_old_models k w' = (inr 0, w').
Proof.
  intros Hnd Hk w'. apply cleanup_noop, kept_within_limit.
  - unfold w'. rewrite ledger_after_cleanup. apply Forall_forall.
    intros m [Hkept Hm]%list_elem_of_filter. by eapply kept_status.
  - intros T. unfold w'. rewrite ledger_after_cleanup.
    rewrite (archived_of_kept_perm k T (ledger w) Hnd).
    unfold slice_to. destruct (k <? 0)%Z eqn:Hneg; [lia|].
    rewrite length_take. lia.
Qed.

Lemma cleanup_twice_removes_nothing_more_witness :
  NoDup (ledger demo_world_archive) ∧
  result (cleanup_old_models 1) demo_world_archive = inr 3 ∧
  result (cleanup_old_models 1)
    (after (cleanup_old_models 1) demo_world_archive) = inr 0.
Proof.
  assert (NoDup (ledger demo_world_archive)) as Hnd by by_evaluation.
  split; [done|]. split; [by_evaluation|].
  unfold result.
  rewrite (cleanup_twice_removes_nothing_more 1 demo_world_archive Hnd);
    [done|lia].
Defined.

End CleanupCalls.

(** ** More on the registry store *)

Module RegistryMore.
Import Registry RegistryFiles Notions MoreNotions Scenarios MoreScenarios.
Import PyFacts ListFacts RegistryFacts RegistryCalls CleanupFacts.

(** *** Errors of [update_model_status] *)

(** X7. [update_model_status] raises in two cases only, and changes nothing
    when it does: a status that is not one of the three, which is checked
    first, and an id that no entry has. In every other case it returns
    [True]. *)
Theorem update_model_status_errors (model_id s : string) (w : World) :
  (s ∉ valid_statuses →
     update_model_status model_id s w
     = (inl (ValueError
               ("Invalid status: " +:+ s +:+
                ". Must be one of ['active', 'candidate', 'archived']")), w)) ∧
  (s ∈ valid_statuses → get_model_by_id (ledger w) model_id = None →
     update_model_status model_id s w
     = (inl (ValueError ("Model not found: " +:+ model_id)), w)) ∧
  (s ∈ valid_statuses → is_Some (get_model_by_id (ledger w) model_id) →
     result (update_model_status model_id s) w = inr true).
Proof.
  split_and!.
  - intros Hs. unfold update_model_status.
    by rewrite bool_decide_eq_false_2.
  - intros Hs Hm. unfold update_model_status.
    rewrite bool_decide_eq_true_2 by done. run. by rewrite Hm.
  - intros Hs [[i m] Hm].
    destruct (update_model_status_ok model_id s w i m Hs Hm) as (Hrun & _).
    unfold result. by rewrite Hrun.
Qed.

(** *** The registry file *)

Lemma reopen_persisted w : persisted w → after __init__ w = w.
Proof.
  unfold persisted. intros Hfile.
  unfold after, __init__, _load_or_initialize_registry, mbind, M_bind.
  rewrite Hfile. by destruct w.
Qed.

Lemma add_model_persisted d w :
  persisted w → persisted (after (add_model d) w).
Proof.
  intros Hw. destruct (first_missing d) as [field|] eqn:Hd.
  - unfold after. by rewrite (add_model_missing d w field).
  - by destruct (add_model_ok d w Hd) as (_ & _ & ?).
Qed.

Lemma update_model_status_persisted model_id s w :
  persisted w → persisted (after (update_model_status model_id s) w).
Proof.
  intros Hw. destruct (decide (s ∈ valid_statuses)) as [Hs|Hs].
  - destruct (get_model_by_id (ledger w) model_id) as [[i m]|] eqn:Hm.
    + by destruct (update_model_status_ok model_id s w i m Hs Hm)
        as (_ & _ & ?).
    + destruct (update_model_status_not_found model_id s w Hm) as [msg Hrun].
      unfold after. by rewrite Hrun.
  - destruct (update_model_status_invalid model_id s w Hs) as [msg Hrun].
    unfold after. by rewrite Hrun.
Qed.

Lemma cleanup_old_models_persisted k w :
  persisted w → persisted (after (cleanup_old_models k) w).
Proof.
  intros Hw.
  destruct (cleanup_old_models_run k w) as (n & w' & Hrun & _ & _ & Hz & Hs).
  unfold after. rewrite Hrun. simpl.
  destruct (decide (n = 0)) as [Hn|Hn]; [by rewrite Hz|].
  apply Hs. lia.
Qed.

Lemma import_registry_persisted import_data merge w :
  persisted w → persisted (after (import_registry import_data merge) w).
Proof.
  intros Hw. destruct import_data as [ms|]; [|done].
  by destruct merge.
Qed.

(** X8. After every call the file at [registry_path] holds the registry as
    it is in memory, so that a registry opened from it afterwards is the
    one the call left; this holds whether the call returns or raises, once
    the file held the registry before the call, as it does from [__init__]
    on. *)
Theorem calls_leave_the_registry_on_file (w : World) :
  persisted w →
  (∀ c : Call,
     persisted (run_call c w) ∧ after __init__ (run_call c w) = run_call c w) ∧
  (∀ import_data merge,
     let w' := after (import_registry import_data merge) w in
     persisted w' ∧ after __init__ w' = w').
Proof.
  intros Hw.
  assert (∀ c, persisted (run_call c w)) as Hcall.
  { intros [d|model_id s|k]; simpl.
    - by apply add_model_persisted.
    - by apply update_model_status_persisted.
    - by apply cleanup_old_models_persisted. }
  split.
  - intros c. split; [done|]. by apply reopen_persisted.
  - intros import_data merge w'.
    assert (persisted w') by by apply import_registry_persisted.
    split; [done|]. by apply reopen_persisted.
Qed.

Lemma calls_leave_the_registry_on_file_witness :
  persisted demo_world ∧
  after __init__ (run_call (Add demo_model_2) demo_world)
    = run_call (Add demo_model_2) demo_world.
Proof.
  assert (persisted demo_world) as Hw by reflexivity.
  split; [done|].
  apply (calls_leave_the_registry_on_file demo_world Hw).
Defined.

(** *** What the calls leave of an entry *)

Lemma fmap_alter_same {A B} (g : A → B) (f : A → A) (i : nat) (l : list A) :
  (∀ x, g (f x) = g x) → g <$> alter f i l = g <$> l.
Proof.
  intros Hg. apply list_eq. intros j.
  rewrite !list_lookup_fmap, list_lookup_alter.
  destruct (decide (i = j)) as [->|]; [|done].
  destruct (l !! j); simpl; [|done]. by rewrite Hg.
Qed.

Lemma core_deactivate T m : core (deactivate T m) = core m.
Proof. rewrite deactivate_eq. by destruct (decide _). Qed.

Lemma core_deactivate_all T (l : list ModelEntry) :
  core <$> (deactivate T <$> l) = core <$> l.
Proof.
  rewrite <- list_fmap_compose. apply list_fmap_ext.
  intros _ x _. apply core_deactivate.
Qed.

Lemma core_promoted T t (l : list ModelEntry) :
  core <$> promoted T t l = core <$> l.
Proof.
  unfold promoted. destruct (max_by _ _ _) as [[j c]|]; [|done].
  by rewrite !fmap_alter_same.
Qed.

Lemma core_status_updated i m s w :
  core <$> status_updated i m s w = core <$> ledger w.
Proof.
  assert (core <$> status_written i s (clock w (ticks w)) (ledger w)
          = core <$> ledger w) as Hwritten.
  { unfold status_written. by rewrite !fmap_alter_same. }
  unfold status_updated. cbv zeta.
  destruct (bool_decide (s = "active")).
  - by rewrite core_deactivate_all.
  - destruct (bool_decide (e_status m = "active")); [|done].
    by rewrite core_promoted.
Qed.

(** X9. No call rewrites or reorders what is stored: [add_model] and
    [update_model_status] leave every entry in its place with its id,
    version, algorithm, metrics, creation time, file path, type, session,
    description and tags (only the status and the time stamps of updates
    change), [add_model] adding one entry at the end;
    [cleanup_old_models] only takes entries out; a merging import leaves
    the ledger as a prefix of the new one. *)
Theorem calls_never_rewrite_entries (w : World) :
  (∀ d, core <$> ledger w `prefix_of` core <$> ledger (run_call (Add d) w)) ∧
  (∀ model_id s,
     core <$> ledger (run_call (SetStatus model_id s) w) = core <$> ledger w) ∧
  (∀ k, ledger (run_call (Cleanup k) w) `sublist_of` ledger w) ∧
  (∀ import_data,
     ledger w `prefix_of` ledger (after (import_registry import_data true) w)).
Proof.
  split_and!.
  - intros d. simpl. destruct (first_missing d) as [field|] eqn:Hd.
    + unfold after. by rewrite (add_model_missing d w field).
    + destruct (add_model_ok d w Hd) as (_ & -> & _).
      exists [core (stored_entry d w)].
      destruct (bool_decide _); [|by rewrite fmap_app].
      by rewrite core_deactivate_all, fmap_app.
  - intros model_id s. simpl.
    destruct (decide (s ∈ valid_statuses)) as [Hs|Hs].
    + destruct (get_model_by_id (ledger w) model_id) as [[i m]|] eqn:Hm.
      * destruct (update_model_status_ok model_id s w i m Hs Hm)
          as (_ & -> & _).
        apply core_status_updated.
      * destruct (update_model_status_not_found model_id s w Hm) as [msg Hrun].
        unfold after. by rewrite Hrun.
    + destruct (update_model_status_invalid model_id s w Hs) as [msg Hrun].
      unfold after. by rewrite Hrun.
  - intros k. apply cleanup_old_models_sublist.
  - intros [ms|]; [|done]. by eexists.
Qed.

(** *** Looking up what was added *)

Lemma e_id_deactivate T m : e_id (deactivate T m) = e_id m.
Proof. rewrite deactivate_eq. by destruct (decide _). Qed.

(** X10. An entry added under an id that no entry has yet is the one
    [get_model_by_id] returns for that id: it stands at the end of the
    ledger, with the data given, except that a status 'active' has become
    'archived'. *)
Theorem added_model_is_found_by_its_id (d : ModelData) (w : World)
    (X : string) :
  all_required_present d → md_id d = Some X → X ≠ "" →
  get_model_by_id (ledger w) X = None →
  let w' := after (add_model d) w in
  ∃ e, get_model_by_id (ledger w') X = Some (length (ledger w), e) ∧
       e_id e = X ∧
       core e = core (stored_entry d w) ∧
       e_status e = (if decide (md_status d = Some "active") then "archived"
                     else default "candidate" (md_status d)) ∧
       length (ledger w') = S (length (ledger w)).
Proof.
  intros Hd HX Hne Hnone w'.
  pose proof (proj2 (first_missing_None d) Hd) as Hfm.
  destruct (add_model_ok d w Hfm) as (_ & Hl & _). fold w' in Hl.
  pose proof (stored_id_given d w X HX Hne) as Hid.
  set (e0 := stored_entry d w) in *.
  set (g := if bool_decide (e_status e0 = "active")
            then deactivate (type_or_unknown e0) else id).
  assert (ledger w' = g <$> (ledger w ++ [e0])) as ->.
  { rewrite Hl. unfold g. destruct (bool_decide _); [done|].
    by rewrite list_fmap_id. }
  assert (∀ m, e_id (g m) = e_id m) as Hg.
  { intros m. unfold g. destruct (bool_decide _); [|done].
    apply e_id_deactivate. }
  assert (∀ m, core (g m) = core m) as Hcore.
  { intros m. unfold g. destruct (bool_decide _); [|done].
    apply core_deactivate. }
  exists (g e0). split_and!.
  - unfold get_model_by_id in *. rewrite fmap_app, list_find_app_r.
    + simpl. rewrite decide_True by by rewrite Hg.
      simpl. by rewrite length_fmap.
    + apply list_find_None, Forall_fmap, Forall_forall.
      apply list_find_None in Hnone. rewrite Forall_forall in Hnone.
      intros m Hm. simpl. rewrite Hg. by apply Hnone.
  - by rewrite Hg.
  - apply Hcore.
  - destruct Hd as (_ & _ & _ & _ & [s Hs] & _).
    unfold g, e0, stored_entry. simpl. rewrite Hs. simpl.
    destruct (decide (Some s = Some "active")) as [[= ->]|Hs'].
    + rewrite bool_decide_eq_true_2 by done. rewrite deactivate_eq.
      rewrite decide_True; [done|]. by split.
    + rewrite bool_decide_eq_false_2; [done|]. by intros ->.
  - rewrite length_fmap, length_app. simpl. lia.
Qed.

Lemma added_model_is_found_by_its_id_witness :
  (all_required_present demo_model_2 ∧
   md_id demo_model_2 = Some "demo-model-2" ∧
   get_model_by_id (ledger demo_world_1) "demo-model-2" = None) ∧
  ∃ e, get_model_by_id (ledger (after (add_model demo_model_2) demo_world_1))
         "demo-model-2" = Some (1, e) ∧
       e_status e = "candidate".
Proof.
  assert (all_required_present demo_model_2) as Hd
    by (by repeat split; eexists).
  assert (get_model_by_id (ledger demo_world_1) "demo-model-2" = None)
    as Hnone by reflexivity.
  split; [done|].
  destruct (added_model_is_found_by_its_id demo_model_2 demo_world_1
              "demo-model-2" Hd eq_refl ltac:(discriminate) Hnone)
    as (e & Hfound & _ & _ & Hs & _).
  by exists e.
Defined.

(** *** [get_active_model] *)

Lemma elem_of_active_as_requested l model_type k m :
  (k, m) ∈ (let active_models := get_models_by_status l "active" in
            match model_type with
            | Some t =>
                if truthy t
                then filter (λ m, e_model_type m.2 = Some t) active_models
                else active_models
            | None => active_models
            end) ↔
  l !! k = Some m ∧ active_as_requested model_type m.
Proof.
  unfold active_as_requested, get_models_by_status. cbv zeta.
  destruct model_type as [t|].
  - unfold truthy. destruct (String.eqb_spec t "") as [->|Hne]; simpl.
    + rewrite list_elem_of_filter, elem_of_objects. simpl.
      split; [|tauto]. intros [Hs Hk]. split_and!; [done..|].
      by intros T [= <-].
    + rewrite !list_elem_of_filter, elem_of_objects. simpl.
      split.
      * intros (HT & Hs & Hk). split_and!; [done..|]. by intros T [= <-].
      * intros (Hk & Hs & HT). split_and!; [|done..]. by apply HT.
  - rewrite list_elem_of_filter, elem_of_objects. simpl.
    split; [|tauto]. intros [Hs Hk]. split_and!; [done..|]. done.
Qed.

(** X11. [get_active_model] returns nothing exactly when the ledger has no
    active entry (of the requested type, when a non-empty one is given);
    otherwise it returns such an entry of the latest [created_at], the first
    in the ledger among those. *)
Theorem get_active_model_returns_latest (l : list ModelEntry)
    (model_type : option string) :
  (get_active_model l model_type = None ↔
     ∀ m, m ∈ l → ¬ active_as_requested model_type m) ∧
  (∀ i m, get_active_model l model_type = Some (i, m) →
     l !! i = Some m ∧ active_as_requested model_type m ∧
     ∀ k m', l !! k = Some m' → active_as_requested model_type m' →
       str_ltb (e_created_at m) (e_created_at m') = false ∧
       (k < i → str_ltb (e_created_at m') (e_created_at m) = true)).
Proof.
  pose proof (elem_of_active_as_requested l model_type) as Helem.
  unfold get_active_model. cbv zeta in *.
  set (L := match model_type with Some _ => _ | None => _ end) in *.
  assert (StronglySorted (λ a b, a.1 < b.1) L) as Hinc.
  { unfold L, get_models_by_status.
    destruct model_type as [t|]; [destruct (truthy t)|];
      repeat apply filter_increasing; apply objects_increasing. }
  split.
  - rewrite (max_by_None str_ltb). split.
    + intros HL m [k Hk]%list_elem_of_lookup Hm.
      assert ((k, m) ∈ L) as Hin by by apply Helem.
      rewrite HL in Hin. by apply elem_of_nil in Hin.
    + intros Hnone. destruct L as [|[k m] L']; [done|]. exfalso.
      destruct (proj1 (Helem k m)) as [Hk Hm]; [left|].
      apply (Hnone m); [|done]. by eapply list_elem_of_lookup_2.
  - intros i m Hmax.
    pose proof (max_by_elem_of str_ltb _ _ _ Hmax) as Hin.
    apply Helem in Hin as [Hi Hm]. split_and!; [done..|].
    intros k m' Hk Hm'.
    by apply (max_by_first_position str_ltb (λ x, e_created_at x.2) L i m
                Hinc Hmax k m'), Helem.
Qed.

(** *** Demoting the active entry to a candidate *)

(** X12. The active entry of a type is set to 'candidate' while every other
    candidate of the type has a smaller accuracy: the entry is a candidate
    when the best one is looked for, so it is promoted again, and ends
    'active' with both time stamps set. *)
Theorem demoted_best_model_is_promoted_again (model_id : string) (w : World)
    (i : nat) (m : ModelEntry) (T : string) :
  get_model_by_id (ledger w) model_id = Some (i, m) →
  e_status m = "active" → e_model_type m = Some T →
  (∀ k c, ledger w !! k = Some c → k ≠ i →
     e_model_type c = Some T → e_status c = "candidate" →
     (accuracy c < accuracy m)%Qc) →
  let w' := after (update_model_status model_id "candidate") w in
  result (update_model_status model_id "candidate") w = inr true ∧
  ∃ m', ledger w' !! i = Some m' ∧
        e_status m' = "active" ∧
        e_updated_at m' = Some (clock w (ticks w)) ∧
        e_promoted_at m' = Some (clock w (S (ticks w))) ∧
        core m' = core m.
Proof.
  intros Hfound Hactive HT Hbest w'.
  assert ("candidate" ∈ valid_statuses) as Hs by (apply valid_status; tauto).
  destruct (update_model_status_ok model_id "candidate" w i m Hs Hfound)
    as (Hrun & Hl & _).
  fold w' in Hl. split; [unfold result; by rewrite Hrun|].
  apply list_find_Some in Hfound as (Hi & _ & _).
  unfold status_updated in Hl. cbv zeta in Hl.
  rewrite bool_decide_eq_false_2 in Hl by done.
  rewrite bool_decide_eq_true_2 in Hl by done.
  assert (type_or_unknown m = T) as HT'
    by (unfold type_or_unknown; by rewrite HT).
  rewrite HT' in Hl.
  set (t1 := clock w (ticks w)) in *. set (t2 := clock w (S (ticks w))) in *.
  set (l1 := status_written i "candidate" t1 (ledger w)) in *.
  set (m1 := set_updated_at t1 (set_status "candidate" m)).
  assert (l1 !! i = Some m1) as Hi1.
  { unfold l1, status_written. rewrite !list_lookup_alter_eq, Hi. done. }
  assert (∀ j, j ≠ i → l1 !! j = ledger w !! j) as Hother.
  { intros j Hj. unfold l1, status_written.
    by rewrite !list_lookup_alter_ne. }
  assert ((i, m1) ∈ candidates_of T l1) as Hcand
    by (by apply elem_of_candidates).
  destruct (promoted_cases T t2 l1) as [[Hnil _]|(j & c & Hmax & Hjc & Hpr)].
  { rewrite Hnil in Hcand. by apply elem_of_nil in Hcand. }
  assert (j = i) as ->.
  { destruct (decide (j = i)) as [|Hne]; [done|]. exfalso.
    apply elem_of_candidates in Hjc as (Hj & HTc & Hsc).
    rewrite Hother in Hj by done.
    pose proof (Hbest j c Hj Hne HTc Hsc) as Hlt.
    destruct (best_candidate_first T l1 j c Hmax i m1 Hcand) as [Hle _].
    change (accuracy m1) with (accuracy m) in Hle.
    by apply Qcle_not_lt in Hle. }
  exists (promote t2 m1). rewrite Hl, Hpr.
  rewrite list_lookup_alter_eq, Hi1. done.
Qed.

Lemma demoted_best_model_is_promoted_again_witness :
  (fst <$> get_model_by_id (ledger demo_world_tie) "champion" = Some 0) ∧
  e_status <$> ledger (after (update_model_status "champion" "candidate")
                         demo_world_tie) !! 0 = Some "active".
Proof.
  split; [reflexivity|].
  destruct (demoted_best_model_is_promoted_again "champion" demo_world_tie 0
              (stored "champion" "active" (ratio 85 100) "2024-01-01T00:00:00")
              "full_time" eq_refl eq_refl eq_refl)
    as (_ & m' & Hm' & Hs' & _).
  - intros k c Hk Hne _ _.
    change (ledger demo_world_tie) with demo_ledger_tie in Hk.
    destruct k as [|[|[|k]]]; [done| | |done];
      injection Hk as <-; by_evaluation.
  - cbv zeta in Hm'. rewrite Hm'. simpl. by rewrite Hs'.
Defined.

(** *** Importing and exporting *)

Lemma import_merge_ledger ms w :
  ledger (after (import_registry (Some ms) true) w)
    = ledger w ++ filter (λ m, e_id m ∉ e_id <$> ledger w) ms.
Proof.
  change (ledger (after (import_registry (Some ms) true) w))
    with (ledger w ++ filter (λ m, e_id m ∉ (list_to_set (e_id <$> ledger w)
                                                : gset string)) ms).
  f_equal. apply list_filter_iff. intros m.
  by rewrite elem_of_list_to_set.
Qed.

(** X13. A merging import appends, in the order of the file, the imported
    entries whose id no entry of the ledger has; what the ledger holds is
    not touched, and importing the same file once more adds nothing. *)
Theorem merging_import_twice_adds_nothing (ms : list ModelEntry) (w : World) :
  let w1 := after (import_registry (Some ms) true) w in
  result (import_registry (Some ms) true) w = inr true ∧
  ledger w1 = ledger w ++ filter (λ m, e_id m ∉ e_id <$> ledger w) ms ∧
  ledger (after (import_registry (Some ms) true) w1) = ledger w1.
Proof.
  intros w1. split; [done|]. split; [apply import_merge_ledger|].
  rewrite import_merge_ledger.
  rewrite filter_none; [by rewrite app_nil_r|].
  apply Forall_forall. intros m Hm Hout. apply Hout. unfold w1.
  rewrite import_merge_ledger, fmap_app, elem_of_app.
  destruct (decide (e_id m ∈ e_id <$> ledger w)) as [|Hnew]; [by left|].
  right. apply list_elem_of_fmap. exists m. split; [done|].
  by apply list_elem_of_filter.
Qed.


End RegistryMore.

(** ** The summary of the registry *)

Module SummaryFacts.
Import Registry Blender RegistryFiles Notions MoreNotions.
Import PyFacts ListFacts DictFacts.

Lemma distribution_tally value l :
  distribution value l = tally value (λ _, 1) Nat.add 0 l.
Proof. reflexivity. Qed.

Lemma foldl_count {X} (xs : list X) (n : nat) :
  foldl (λ a _, a + 1) n xs = n + length xs.
Proof.
  revert n. induction xs as [|x xs IH]; intros n; simpl; [lia|].
  rewrite IH. lia.
Qed.

Lemma distribution_get value l v :
  dict_get v (distribution value l)
    = let n := length (filter (λ m, value m = v) l) in
      if decide (n = 0) then None else Some n.
Proof.
  rewrite distribution_tally, tally_get. cbv zeta.
  destruct (filter _ l) as [|y ys]; [done|].
  rewrite (foldl_count (y :: ys) 0). by rewrite decide_False by done.
Qed.

Lemma sum_list_dict_set (k : string) (d : list (string * nat)) :
  sum_list (dict_set k (default 0 (dict_get k d) + 1) d).*2
    = sum_list d.*2 + 1.
Proof.
  induction d as [|[k0 n0] d IH]; [done|]. cbn [dict_set dict_get].
  destruct (decide (k0 = k)) as [->|Hne]; rewrite !fmap_cons; simpl; [lia|].
  rewrite IH. lia.
Qed.

Lemma distribution_sum value l :
  sum_list (distribution value l).*2 = length l.
Proof.
  induction l as [|x l IH] using rev_ind; [done|].
  rewrite distribution_tally, tally_snoc, <- distribution_tally.
  rewrite sum_list_dict_set, IH, length_app. simpl. lia.
Qed.

Lemma distribution_counts value l : counts_of value l (distribution value l).
Proof. split; [apply distribution_get|apply distribution_sum]. Qed.

(** X15. The summary gives the number of entries and, for a registry that is
    not empty, the three distributions: each lists the statuses (types,
    algorithms) that occur with the number of entries that have them, an
    entry without a type counting as 'unknown', and the counts of each add
    up to the number of entries. For an empty registry the summary holds
    the number 0 and nothing else. *)
Theorem summary_counts_every_entry (l : list ModelEntry) :
  let s := get_model_performance_summary l in
  total_models s = length l ∧
  (l = [] →
     status_distribution s = None ∧ type_distribution s = None ∧
     algorithm_distribution s = None ∧ best_models s = None) ∧
  (l ≠ [] →
     ∃ by_status by_type by_algorithm,
       status_distribution s = Some by_status ∧
       type_distribution s = Some by_type ∧
       algorithm_distribution s = Some by_algorithm ∧
       counts_of e_status l by_status ∧
       counts_of type_or_unknown l by_type ∧
       counts_of e_algorithm l by_algorithm).
Proof.
  intros s. unfold s. destruct l as [|m l]; [done|].
  split_and!; [done..|]. intros _.
  eexists _, _, _. split_and!; [done..| | |]; apply distribution_counts.
Qed.

(** *** The best model of a type *)

Lemma get_models_by_type_elem l T i m :
  (i, m) ∈ get_models_by_type l T ↔ l !! i = Some m ∧ e_model_type m = Some T.
Proof.
  unfold get_models_by_type. rewrite list_elem_of_filter, elem_of_objects.
  simpl. tauto.
Qed.

Lemma get_models_by_type_increasing l T :
  StronglySorted (λ a b, a.1 < b.1) (get_models_by_type l T).
Proof. apply filter_increasing, objects_increasing. Qed.

Lemma best_by_type_lookup l T :
  best_by_type l !! T
    = (λ b, best_of b.2)
        <$> max_by Qc_ltb (λ x, accuracy x.2) (get_models_by_type l T).
Proof.
  unfold best_by_type, set_fold. simpl.
  set (X := list_to_set (type_or_unknown <$> l) : gset string).
  set (step := λ (model_type : string) (best_models : gmap string BestModel),
                 _).
  assert (∀ ks, NoDup ks →
            foldr step ∅ ks !! T
            = if decide (T ∈ ks)
              then (λ b, best_of b.2)
                     <$> max_by Qc_ltb (λ x, accuracy x.2)
                           (get_models_by_type l T)
              else None) as Hfold.
  { induction ks as [|k ks IH]; intros Hnd; [done|].
    apply NoDup_cons in Hnd as [Hk Hnd]. specialize (IH Hnd).
    cbn [foldr]. unfold step at 1.
    destruct (decide (k = T)) as [->|Hne].
    - rewrite decide_True by left.
      destruct (max_by _ _ _) as [b|]; simpl.
      + by rewrite lookup_insert_eq.
      + rewrite IH. by rewrite decide_False.
    - assert (T ∈ k :: ks ↔ T ∈ ks) as Hin.
      { rewrite elem_of_cons. split; [by intros [?|?]|by right]. }
      destruct (max_by _ _ (get_models_by_type l k)) as [b|];
        [rewrite lookup_insert_ne by done|]; rewrite IH;
        destruct (decide (T ∈ ks)), (decide (T ∈ k :: ks)); tauto. }
  rewrite Hfold by apply NoDup_elements.
  destruct (decide (T ∈ elements X)) as [|Hout]; [done|].
  assert (get_models_by_type l T = []) as ->; [|done].
  apply filter_none, Forall_forall. intros [i m] Him HT. simpl in HT.
  apply Hout, elem_of_elements, elem_of_list_to_set, list_elem_of_fmap.
  exists m. split.
  - unfold type_or_unknown. by rewrite HT.
  - apply elem_of_objects in Him. by eapply list_elem_of_lookup_2.
Qed.

(** X16. ['best_models'] has an entry for a type exactly when some entry has
    that type under its key ['model_type']; entries without the key are
    counted as 'unknown' but their type gets no best model from them. The
    best model of a type is its first entry of greatest accuracy, whatever
    its status. *)
Theorem summary_best_model_of_each_type (l : list ModelEntry) (T : string) :
  (best_by_type l !! T = None ↔ ∀ m, m ∈ l → e_model_type m ≠ Some T) ∧
  (∀ b, best_by_type l !! T = Some b →
     ∃ i m, l !! i = Some m ∧ e_model_type m = Some T ∧ b = best_of m ∧
       ∀ k m', l !! k = Some m' → e_model_type m' = Some T →
         (accuracy m' ≤ accuracy m)%Qc ∧
         (k < i → (accuracy m' < accuracy m)%Qc)).
Proof.
  rewrite best_by_type_lookup. split.
  - rewrite fmap_None, (max_by_None Qc_ltb). split.
    + intros Hnil m [i Hi]%list_elem_of_lookup HT.
      assert ((i, m) ∈ get_models_by_type l T) as Hin
        by (by apply get_models_by_type_elem).
      rewrite Hnil in Hin. by apply elem_of_nil in Hin.
    + intros Hnone. apply filter_none, Forall_forall.
      intros [i m] Him HT. simpl in HT. apply (Hnone m); [|done].
      apply elem_of_objects in Him. by eapply list_elem_of_lookup_2.
  - intros b [[i m] [Hmax ->]]%fmap_Some. exists i, m.
    pose proof (max_by_elem_of Qc_ltb _ _ _ Hmax) as Hin.
    apply get_models_by_type_elem in Hin as [Hi HT].
    split_and!; [done..|]. intros k m' Hk HT'.
    destruct (max_by_first_position Qc_ltb (λ x, accuracy x.2) _ i m
                (get_models_by_type_increasing l T) Hmax k m') as [Hge Hlt].
    { by apply get_models_by_type_elem. }
    simpl in Hge, Hlt. split.
    + apply Qcnot_lt_le. by apply bool_decide_eq_false in Hge.
    + intros Hki. by apply bool_decide_eq_true in Hlt.
Qed.

End SummaryFacts.

(** ** More on the prediction blender *)

Module BlenderMore.
Import Blender Notions MoreNotions Scenarios MoreScenarios.
Import PyFacts FloatFacts ListFacts DictFacts BlenderFacts.
#[local] Open Scope float_scope.

(** *** Weighted voting *)

(** The keys of a counting loop, in the order in which it met them. *)
Lemma tally_first_seen {X K V} `{EqDecision K} (key : X → K) (val : X → V)
    (add : V → V → V) (zero : V) (l : list X) :
  (tally key val add zero l).*1 = first_seen (key <$> l).
Proof.
  induction l as [|x l IH] using rev_ind; [done|].
  rewrite tally_snoc, dict_set_keys, IH, fmap_app.
  change (key <$> [x]) with [key x]. unfold first_seen.
  by rewrite foldl_snoc.
Qed.

Section Voting.
Variable py_sum : list float → float.
Variable weights : gmap string float.
Implicit Types predictions : list (string * PyLabel).

Lemma vote_counts_get predictions c :
  dict_get c
    (tally snd (λ p, weight_of weights p.1) PrimFloat.add 0 predictions)
    = match filter (λ p, p.2 = c) predictions with
      | [] => None
      | _ => Some (votes_for weights predictions c)
      end.
Proof.
  rewrite tally_get. unfold votes_for, added_up.
  destruct (filter _ predictions) as [|y ys]; [done|].
  by rewrite foldl_fmap.
Qed.

(** [vote_counts] holds the classes in the order in which they were first
    predicted, each with its votes. *)
Lemma vote_counts_eq predictions :
  tally snd (λ p, weight_of weights p.1) PrimFloat.add 0 predictions
    = (λ c, (c, votes_for weights predictions c))
        <$> first_seen predictions.*2.
Proof.
  rewrite <- (tally_first_seen snd (λ p, weight_of weights p.1)
                PrimFloat.add 0).
  set (counts := tally _ _ _ _ _).
  pose proof (tally_NoDup snd (λ p, weight_of weights p.1) PrimFloat.add 0
                predictions) as Hnd.
  fold counts in Hnd.
  apply list_eq. intros i. rewrite !list_lookup_fmap.
  destruct (counts !! i) as [[c v]|] eqn:Hi; [|done]. simpl. do 2 f_equal.
  apply list_elem_of_lookup_2 in Hi.
  apply (dict_get_of_elem _ _ _ Hnd) in Hi.
  unfold counts in Hi. rewrite vote_counts_get in Hi.
  destruct (filter _ predictions); congruence.
Qed.

Lemma voting_run predictions :
  _weighted_voting_ensemble py_sum weights predictions
    = match max_by PrimFloat.ltb snd
              ((λ c, (c, votes_for weights predictions c))
                 <$> first_seen predictions.*2) with
      | Some (predicted_class, votes) =>
          inr (mkVerdict predicted_class
                 (if 0 <? py_sum (votes_cast weights predictions)
                  then votes / py_sum (votes_cast weights predictions)
                  else 0))
      | None => inl (ValueError "max() arg is an empty sequence")
      end.
Proof.
  unfold _weighted_voting_ensemble. cbv zeta.
  change (foldl _ [] predictions)
    with (tally snd (λ p : string * PyLabel, weight_of weights p.1)
            PrimFloat.add 0 predictions).
  rewrite vote_counts_eq. unfold votes_cast.
  by rewrite <- list_fmap_compose.
Qed.

Lemma elem_of_first_seen `{EqDecision A} (l : list A) x :
  x ∈ first_seen l ↔ x ∈ l.
Proof.
  unfold first_seen. induction l as [|y l IH] using rev_ind; [done|].
  rewrite foldl_snoc, elem_of_app, list_elem_of_singleton.
  case_decide as Hy; [|rewrite elem_of_app, list_elem_of_singleton];
    rewrite IH; [|done].
  split; [by left|]. intros [?| ->]; [done|]. by apply IH.
Qed.

End Voting.

(** X17. Weighted voting on a non-empty set of predictions never fails. The
    class it returns is one that some member predicted, and no class has
    more votes, the votes of a class being the weights of the members that
    predicted it, added up in the order of the members. The confidence is
    the quotient of these votes by the [sum] of the votes of all classes,
    taken in the order in which the classes were first predicted, or 0
    when that sum is not greater than 0. *)
Theorem weighted_vote_returns_most_voted_class (py_sum : list float → float)
    (weights : gmap string float) (predictions : list (string * PyLabel)) :
  predictions ≠ [] →
  ∃ c,
    let votes := votes_for weights predictions in
    let total := py_sum (votes_cast weights predictions) in
    _weighted_voting_ensemble py_sum weights predictions
      = inr (mkVerdict c (if 0 <? total then votes c / total else 0)) ∧
    c ∈ predictions.*2 ∧
    (∀ c', c' ∈ predictions.*2 → (votes c <? votes c') = false).
Proof.
  intros Hne. cbv zeta. rewrite voting_run.
  set (counts := (λ c, (c, votes_for weights predictions c))
                   <$> first_seen predictions.*2).
  assert (∀ c', c' ∈ predictions.*2 →
            (c', votes_for weights predictions c') ∈ counts) as Hcounts.
  { intros c' Hc'. apply list_elem_of_fmap. exists c'. split; [done|].
    by apply elem_of_first_seen. }
  destruct (max_by PrimFloat.ltb snd counts) as [[c v]|] eqn:Hmax.
  - destruct (max_by_float snd counts _ Hmax) as [Hin Hge].
    apply list_elem_of_fmap in Hin as (c0 & [= -> ->] & Hc).
    apply (proj1 (elem_of_first_seen _ _)) in Hc.
    exists c0. split_and!; [done..|].
    intros c' Hc'. exact (Hge _ (Hcounts c' Hc')).
  - destruct predictions as [|p ps]; [done|].
    destruct counts eqn:Hnil; [|done].
    specialize (Hcounts p.2 ltac:(left)). by apply elem_of_nil in Hcounts.
Qed.

Lemma weighted_vote_returns_most_voted_class_witness :
  votes_for voting_weights voting_predictions (IntLabel 0) = 0.3 ∧
  votes_for voting_weights voting_predictions (IntLabel 1)
    = 0.30000000000000004 ∧
  _weighted_voting_ensemble added_up voting_weights voting_predictions
    = inr (mkVerdict (IntLabel 1) 0.5).
Proof.
  split; [by vm_compute|]. split; [by vm_compute|].
  destruct (weighted_vote_returns_most_voted_class added_up voting_weights
              voting_predictions ltac:(done))
    as (c & Hrun & Hc & Hge).
  rewrite Hrun.
  assert (c = IntLabel 1) as ->.
  { specialize (Hge (IntLabel 1) ltac:(by vm_compute; right; left)).
    vm_compute in Hc.
    apply elem_of_cons in Hc as [->|Hc]; [by vm_compute in Hge|].
    apply elem_of_cons in Hc as [->|Hc]; [done|].
    apply elem_of_cons in Hc as [->|Hc]; [done|].
    by apply elem_of_nil in Hc. }
  by vm_compute.
Defined.

End BlenderMore.

(** ** More on the predictor *)

Module EnsembleMore.
Import Registry Blender Ensemble EnsembleReports.
Import Notions MoreNotions Scenarios MoreScenarios.
Import PyFacts ListFacts DictFacts EnsembleFacts.

Lemma ticked_0 w : ticked 0 w = w.
Proof. unfold ticked. rewrite Nat.add_0_r. by destruct w. Qed.

Lemma ticked_S n w :
  ticked n (mkWorld (registry w) (file w) (clock w) (S (ticks w))
              (uuid_source w) (uuids w))
    = ticked (S n) w.
Proof. unfold ticked. simpl. f_equal. lia. Qed.

Section Single.
Context {MatchData Features FeatureInfo : Type}.
Variable preprocess : MatchData → string → Exc Features.
Variable py_sum : list float → float.

Implicit Types p : @Predictor Features FeatureInfo.

(** *** A batch on a predictor without models *)

Lemma predict_single_without_models p match_data w :
  models p = [] →
  predict_single preprocess py_sum p match_data w
    = (inl (ValueError "No models loaded for prediction"), w).
Proof. intros Hp. unfold predict_single. by rewrite Hp. Qed.

Lemma batch_loop_without_models p matches_data (i : nat) results w :
  models p = [] →
  batch_loop preprocess py_sum p i matches_data results w
    = (inr (results ++
            imap (λ k _, Failed (i + k) "No models loaded for prediction"
                           (clock w (ticks w + k))) matches_data),
       ticked (length matches_data) w).
Proof.
  intros Hp. revert i results w.
  induction matches_data as [|match_data rest IH]; intros i results w.
  { simpl. by rewrite app_nil_r, ticked_0. }
  cbn [batch_loop]. unfold mbind at 1, M_bind at 1, catch.
  rewrite predict_single_without_models by done. cbn [fst snd].
  unfold mbind at 1, M_bind at 1, now. rewrite IH.
  cbn [length imap]. rewrite ticked_S, <- app_assoc. cbn [app].
  rewrite !Nat.add_0_r. f_equal. f_equal. f_equal. f_equal.
  apply imap_ext. intros k x _. simpl. f_equal; [lia|f_equal; lia].
Qed.

(** X20. On a predictor that has loaded no model, [predict_batch] does not
    raise: every slot is an error record with the message of
    [predict_single] and its position, stamped with successive readings of
    the clock, and the registry is not touched. *)
Theorem batch_without_models_returns_error_records p
    (matches_data : list MatchData) (w : World) :
  models p = [] →
  predict_batch preprocess py_sum p matches_data w
    = (inr (imap (λ i _, Failed i "No models loaded for prediction"
                           (clock w (ticks w + i))) matches_data),
       ticked (length matches_data) w).
Proof.
  intros Hp. unfold predict_batch.
  by rewrite batch_loop_without_models.
Qed.

(** *** Errors of [predict_single] *)

Lemma collect_all_fail (X : Features)
    (members : list (string * @Member Features FeatureInfo))
    predictions probabilities :
  Forall (λ member, ∃ e, predict (m_model member.2) X = inl e) members →
  collect X members predictions probabilities = (predictions, probabilities).
Proof.
  induction 1 as [|[model_id member] members [e He] _ IH]; [done|].
  cbn [collect]. simpl in He. by rewrite He.
Qed.

(** X21. [predict_single] raises, and reads no clock, in these cases: with no
    model loaded; when preprocessing raises, whose exception it passes on;
    and when the prediction of every loaded model raises, which it reports
    as one [ValueError] whatever the models raised. *)
Theorem predict_single_errors p (match_data : MatchData) (w : World) :
  (models p = [] →
     predict_single preprocess py_sum p match_data w
     = (inl (ValueError "No models loaded for prediction"), w)) ∧
  (∀ e, models p ≠ [] →
     preprocess match_data (requested_type p) = inl e →
     predict_single preprocess py_sum p match_data w = (inl e, w)) ∧
  (∀ X, models p ≠ [] →
     preprocess match_data (requested_type p) = inr X →
     Forall (λ member, ∃ e, predict (m_model member.2) X = inl e) (models p) →
     predict_single preprocess py_sum p match_data w
     = (inl (ValueError "All model predictions failed"), w)).
Proof.
  split_and!.
  - apply predict_single_without_models.
  - intros e Hp He. unfold predict_single. fold (requested_type p).
    destruct (models p); [done|].
    unfold mbind, M_bind, lift. by rewrite He.
  - intros X Hp HX Hfail. unfold predict_single. fold (requested_type p).
    destruct (models p) as [|member members] eqn:Hm; [done|].
    unfold mbind at 1, M_bind at 1, lift. rewrite HX.
    by rewrite collect_all_fail.
Qed.

(** *** A predictor with one model *)

(** X22. With a single model loaded whose prediction succeeds, the result is
    that prediction with confidence 1, whatever the weight of the model and
    whatever probabilities it reports. *)
Theorem single_model_prediction_has_confidence_one p
    (match_data : MatchData) (w : World) (model_id : string)
    (member : @Member Features FeatureInfo) (X : Features) (pred : PyLabel) :
  models p = [(model_id, member)] →
  preprocess match_data (requested_type p) = inr X →
  predict (m_model member) X = inr pred →
  is_Some (model_info p !! model_id) →
  ∃ r, predict_single preprocess py_sum p match_data w = (inr r, ticked 1 w) ∧
       r_prediction r = pred ∧ r_confidence r = 1%float ∧
       r_individual_predictions r = [(model_id, pred)] ∧
       r_model_weights r = model_weights p ∧
       r_timestamp r = clock w (ticks w).
Proof.
  intros Hp HX Hpred [info Hinfo].
  unfold predict_single. rewrite Hp.
  fold (requested_type p). unfold mbind at 1, M_bind at 1, lift. rewrite HX.
  cbn [collect]. rewrite Hpred. cbn [dict_set].
  assert (ticked 1 w
          = mkWorld (registry w) (file w) (clock w) (S (ticks w))
              (uuid_source w) (uuids w)) as ->.
  { unfold ticked. f_equal. lia. }
  destruct (predict_proba (m_model member)) as [proba_of|];
    [destruct (proba_of X) as [e|proba]|].
  - eexists. split; [reflexivity|]. done.
  - eexists. cbn [dict_set _ensemble_predict].
    unfold mbind, M_bind, lift, now, _get_probability_breakdown.
    rewrite Hinfo. split; [reflexivity|]. done.
  - eexists. split; [reflexivity|]. done.
Qed.

End Single.

Lemma batch_without_models_returns_error_records_witness :
  models demo_predictor = [] ∧
  result (predict_batch demo_preprocess added_up demo_predictor [tt; tt])
    demo_world
    = inr [Failed 0 "No models loaded for prediction" "2024-01-01T00:00:03";
           Failed 1 "No models loaded for prediction" "2024-01-01T00:00:04"].
Proof.
  split; [reflexivity|]. unfold result.
  by rewrite (batch_without_models_returns_error_records demo_preprocess
                added_up
                demo_predictor [tt; tt] demo_world eq_refl).
Defined.

Lemma single_model_prediction_has_confidence_one_witness :
  (models demo_single = [("active-85", demo_member)] ∧
   predict (m_model demo_member) tt = inr (IntLabel 1) ∧
   (λ proba_of, proba_of tt) <$> predict_proba (m_model demo_member)
     = Some (inr [0.6; 0.4]%float)) ∧
  ∃ r, result (predict_single demo_preprocess added_up demo_single tt)
         demo_world
         = inr r ∧
       r_prediction r = IntLabel 1 ∧ r_confidence r = 1%float.
Proof.
  split; [done|].
  destruct (single_model_prediction_has_confidence_one demo_preprocess added_up
              demo_single tt demo_world "active-85" demo_member tt
              (IntLabel 1) eq_refl eq_refl eq_refl)
    as (r & Hrun & Hpred & Hconf & _); [by eexists|].
  exists r. unfold result. by rewrite Hrun.
Defined.

(** *** What the loader leaves in the predictor *)

Section Loaded.
Context {Features FeatureInfo : Type}.
Variable artifacts : string → option (@ModelPackage Features FeatureInfo).

Implicit Types p : @Predictor Features FeatureInfo.

Lemma load_single_in_step e wt p :
  in_step p → in_step (_load_single_model artifacts e wt p).
Proof.
  intros (Hnd & Hweights & Hinfo). unfold _load_single_model.
  destruct (artifacts (e_file_path e)) as [package|]; [|done].
  assert (∀ model_id (member : @Member Features FeatureInfo),
            model_id ∈ (dict_set (e_id e) member (models p)).*1
            ↔ model_id = e_id e ∨ model_id ∈ (models p).*1) as Hkeys.
  { intros model_id member. rewrite dict_set_keys.
    destruct (decide (e_id e ∈ (models p).*1)) as [Hin|Hout].
    - split; [by right|]. by intros [->|?].
    - rewrite elem_of_app, list_elem_of_singleton. tauto. }
  split_and!; simpl.
  - by apply dict_set_NoDup.
  - intros model_id. rewrite Hkeys, lookup_insert_is_Some, Hweights. split.
    + intros [->|Hin]; [by left|].
      destruct (decide (e_id e = model_id)); [by left|by right].
    + intros [<-|[_ Hin]]; [by left|by right].
  - intros model_id. rewrite Hkeys, lookup_insert_is_Some, Hinfo. split.
    + intros [->|Hin]; [by left|].
      destruct (decide (e_id e = model_id)); [by left|by right].
    + intros [<-|[_ Hin]]; [by left|by right].
Qed.

Lemma load_single_length e wt p :
  length (models (_load_single_model artifacts e wt p))
    ≤ S (length (models p)).
Proof.
  unfold _load_single_model.
  destruct (artifacts (e_file_path e)) as [package|]; [|lia]. simpl.
  rewrite <- (length_fmap fst), dict_set_keys, <- (length_fmap fst (models p)).
  destruct (decide _); [lia|]. rewrite length_app. simpl. lia.
Qed.

Lemma load_all_in_step (cs : list (nat * ModelEntry)) wt p :
  in_step p →
  in_step (foldl (λ p c, _load_single_model artifacts c.2 wt p) p cs) ∧
  length (models (foldl (λ p c, _load_single_model artifacts c.2 wt p) p cs))
    ≤ length (models p) + length cs.
Proof.
  revert p. induction cs as [|c cs IH]; intros p Hp; simpl;
    [split; [done|lia]|].
  destruct (IH (_load_single_model artifacts c.2 wt p)) as [Hstep Hlen]; 
    [by apply load_single_in_step|].
  split; [done|]. pose proof (load_single_length c.2 wt p). lia.
Qed.

Lemma load_models_in_step l p :
  in_step p →
  in_step (_load_models artifacts l p) ∧
  length (models (_load_models artifacts l p)) ≤ length (models p) + 3.
Proof.
  intros Hp. unfold _load_models. cbv zeta.
  set (p1 := match max_by _ _ _ with Some _ => _ | None => _ end).
  assert (in_step p1 ∧ length (models p1) ≤ S (length (models p)))
    as [Hp1 Hlen1].
  { unfold p1. destruct (max_by _ _ _) as [champion|]; [|split; [done|lia]].
    split; [by apply load_single_in_step|apply load_single_length]. }
  set (challengers := take 2 _).
  assert (length challengers ≤ 2) as Hlen2.
  { unfold challengers. rewrite length_take. lia. }
  destruct (load_all_in_step challengers
              (match challengers with
               | [] => 0%float
               | _ => (0.3 / py_float (length challengers))%float
               end) p1 Hp1) as [Hstep Hlen].
  split; [done|lia].
Qed.

Lemma status_of_models_run p (model_ids : list string) :
  (∀ model_id, model_id ∈ model_ids →
     is_Some (model_weights p !! model_id) ∧
     is_Some (model_info p !! model_id)) →
  ∃ statuses,
    status_of_models p model_ids = inr statuses ∧
    statuses.*1 = model_ids ∧
    ∀ model_id wt info, (model_id, (wt, info)) ∈ statuses →
      model_weights p !! model_id = Some wt ∧
      model_info p !! model_id = Some info.
Proof.
  induction model_ids as [|model_id model_ids IH]; intros Hall.
  { exists []. split_and!; [done..|]. intros ??? Hin.
    by apply elem_of_nil in Hin. }
  destruct (Hall model_id) as [[wt Hwt] [info Hinfo]]; [left|].
  destruct IH as (statuses & Hrun & Hkeys & Hvals).
  { intros id Hid. apply Hall. by right. }
  exists ((model_id, (wt, info)) :: statuses). split_and!.
  - cbn [status_of_models]. unfold item. rewrite Hwt, Hinfo.
    cbn [mbind Exc_bind]. by rewrite Hrun.
  - by rewrite fmap_cons, Hkeys.
  - intros id wt' info' [[= -> -> ->]|Hin]%elem_of_cons; [done|].
    by apply Hvals.
Qed.

(** X23. A predictor whose dictionaries [__init__] has set empty holds, after
    [_load_models], at most three models, and the same ids in
    [self.models], [self.model_weights] and [self.model_info]. So
    [get_model_status] does not raise on it: it lists every loaded model
    once, with its weight and its description, and counts them. *)
Theorem loaded_models_have_weight_and_info (l : list ModelEntry) p0
    (w : World) :
  models p0 = [] → model_weights p0 = ∅ → model_info p0 = ∅ →
  let p := _load_models artifacts l p0 in
  length (models p) ≤ 3 ∧ in_step p ∧
  ∃ st, get_model_status p w = (inr st, ticked 1 w) ∧
        st_total_models st = length (models p) ∧
        (st_models st).*1 = (models p).*1 ∧
        st_timestamp st = clock w (ticks w) ∧
        ∀ model_id wt info, (model_id, (wt, info)) ∈ st_models st →
          model_weights p !! model_id = Some wt ∧
          model_info p !! model_id = Some info.
Proof.
  intros Hm Hw Hi p.
  assert (in_step p0) as Hp0.
  { unfold in_step. rewrite Hm, Hw, Hi. split_and!; [apply NoDup_nil_2| |];
      intros model_id; rewrite lookup_empty;
      (split; [by intros ?%elem_of_nil|by intros [? ?]]). }
  destruct (load_models_in_step l p0 Hp0) as [Hp Hlen].
  fold p in Hp, Hlen. rewrite Hm in Hlen. simpl in Hlen.
  split; [done|]. split; [done|].
  destruct Hp as (_ & Hweights & Hinfo).
  destruct (status_of_models_run p (models p).*1)
    as (sts & Hrun & Hkeys & Hvals).
  { intros model_id Hin. split; [by apply Hweights|by apply Hinfo]. }
  exists (mkStatus (length (models p)) sts (model_type p) (clock w (ticks w))).
  split_and!; [|done..].
  unfold get_model_status, mbind, M_bind, lift, now. rewrite Hrun.
  unfold ticked, mret, M_ret. do 2 f_equal. lia.
Qed.

End Loaded.

Lemma loaded_models_have_weight_and_info_witness :
  (models demo_predictor = [] ∧ model_weights demo_predictor = ∅ ∧
   model_info demo_predictor = ∅) ∧
  length (models (_load_models demo_artifacts demo_ledger demo_predictor)) ≤ 3.
Proof.
  split; [done|].
  apply (loaded_models_have_weight_and_info demo_artifacts demo_ledger
           demo_predictor demo_world eq_refl eq_refl eq_refl).
Defined.

(** *** Evaluating the ensemble *)





Section Evaluation.
Context {MatchData Features FeatureInfo : Type}.
Variable preprocess : MatchData → string → Exc Features.
Variable py_sum : list float → float.
Variable accuracy_score : list PyLabel → list PyLabel → Exc Qc.

Implicit Types p : @Predictor Features FeatureInfo.



(** X24. [get_ensemble_performance] raises a [ValueError] when no model is
    loaded, and on validation data without rows it raises a
    [ZeroDivisionError], the failure rate being a division by the number of
    rows. *)
Theorem evaluation_of_no_rows_divides_by_zero p
    (validation_data : list MatchData) (y_true : list PyLabel) (w : World) :
  (models p = [] →
     get_ensemble_performance preprocess py_sum accuracy_score p validation_data
       y_true w
     = (inl (Exception (ValueError "No models loaded for evaluation")), w)) ∧
  (models p ≠ [] →
     get_ensemble_performance preprocess py_sum accuracy_score p [] y_true w
     = (inl (ZeroDivisionError "division by zero"), w)).
Proof.
  unfold get_ensemble_performance. split.
  - by intros ->.
  - intros Hp. by destruct (models p).
Qed.


End Evaluation.


End EnsembleMore.

(** ** Placeholders in the configuration *)

Module ConfigFacts.
Import Config Notions MoreNotions.

(** *** Strings *)

Lemma app_cons c s t : String c s +:+ t = String c (s +:+ t).
Proof. reflexivity. Qed.

Lemma length_app s t :
  String.length (s +:+ t) = String.length s + String.length t.
Proof.
  induction s as [|c s IH]; [done|]. rewrite app_cons. simpl. by rewrite IH.
Qed.

Lemma startswith_spec s :
  startswith "${" s = true ↔ ∃ rest, s = "${" +:+ rest.
Proof.
  unfold startswith. rewrite String.prefix_correct.
  change (String.length "${") with 2. split.
  - destruct s as [|a [|b rest]]; cbn [String.substring]; intros Hs;
      [discriminate Hs|discriminate Hs|].
    injection Hs as -> ->. by exists rest.
  - intros [rest ->]. rewrite !app_cons. change ("" +:+ rest) with rest.
    cbn [String.substring]. by destruct rest.
Qed.

(** The characters before the last one, and the last one. *)
Lemma substring_all_but_last body c :
  String.substring 0 (String.length body) (body +:+ String c "") = body.
Proof.
  induction body as [|a body IH]; [done|].
  rewrite app_cons. simpl. by rewrite IH.
Qed.

Lemma substring_last body c :
  String.substring (String.length body) 1 (body +:+ String c "") = String c "".
Proof. induction body as [|a body IH]; [done|]. by rewrite app_cons. Qed.

Lemma last_char s c (n : nat) :
  String.length s = S n →
  String.substring n 1 s = String c "" →
  ∃ body, s = body +:+ String c "".
Proof.
  revert n. induction s as [|a s IH]; intros n Hlen; [done|].
  injection Hlen as Hlen. destruct s as [|b s].
  - subst n. cbn [String.substring]. intros [= ->]. by exists "".
  - destruct n as [|n]; [done|]. cbn [String.substring].
    intros [body ->]%(IH n Hlen). by exists (String a body).
Qed.

Lemma endswith_spec s :
  endswith "}" s = true ↔ ∃ body, s = body +:+ "}".
Proof.
  unfold endswith. rewrite andb_true_iff, Nat.leb_le, String.eqb_eq.
  change (String.length "}") with 1. split.
  - intros [Hlen Hlast].
    destruct (String.length s) as [|n] eqn:Hn; [lia|].
    replace (S n - 1) with n in Hlast by lia.
    by apply (last_char s _ n).
  - intros [body ->]. rewrite length_app.
    change (String.length "}") with 1. split; [lia|].
    replace (String.length body + 1 - 1) with (String.length body) by lia.
    apply substring_last.
Qed.

(** A string is a placeholder exactly when it is [${name}] for some
    [name], which [value[2:-1]] then is. *)
Lemma placeholder_spec s :
  startswith "${" s && endswith "}" s = true ↔
    ∃ name, s = "${" +:+ name +:+ "}".
Proof.
  rewrite andb_true_iff, startswith_spec, endswith_spec. split.
  - intros [[rest ->] [body Hbody]].
    destruct body as [|a [|b body]]; [done..|].
    injection Hbody as <- <- Hrest. change ("" +:+ rest) with rest in Hrest.
    subst rest. by exists body.
  - intros [name ->]. split; [by eexists|]. by exists ("${" +:+ name).
Qed.

Lemma strip_braces_placeholder name :
  strip_braces ("${" +:+ name +:+ "}") = name.
Proof.
  unfold strip_braces. rewrite !app_cons.
  change ("" +:+ (name +:+ "}")) with (name +:+ "}").
  cbn [String.length]. rewrite length_app. cbn [String.length].
  replace (S (S (String.length name + 1)) - 3) with (String.length name)
    by lia.
  apply substring_all_but_last.
Qed.

Section Replace.
Context {Key Other : Type}.
Variable getenv : string → option string.

Implicit Types config value : @ConfigValue Key Other.

(** Induction on a value and the values it holds. *)
Lemma ConfigValue_ind (P : @ConfigValue Key Other → Prop) :
  (∀ s, P (CStr s)) →
  (∀ items, Forall (λ kv, P kv.2) items → P (CDict items)) →
  (∀ items, Forall P items → P (CList items)) →
  (∀ v, P (COther v)) →
  ∀ value, P value.
Proof.
  intros Hstr Hdict Hlist Hother. fix IH 1.
  intros [s|items|items|v]; [apply Hstr| | |apply Hother].
  - apply Hdict. induction items as [|[k x] items IHitems]; constructor;
      [apply IH|apply IHitems].
  - apply Hlist. induction items as [|x items IHitems]; constructor;
      [apply IH|apply IHitems].
Qed.

(** X26. A string is replaced only when it is [${name}] for a variable [name]
    that is set, and then by the value of the variable as it is; every
    other string is returned unchanged. *)
Theorem only_set_placeholders_are_replaced (s : string) :
  let value : @ConfigValue Key Other := CStr s in
  (replace_value getenv value = value ∨
   ∃ name val, s = "${" +:+ name +:+ "}" ∧ getenv name = Some val ∧
               replace_value getenv value = CStr val) ∧
  (∀ name, s = "${" +:+ name +:+ "}" →
     replace_value getenv value = CStr (default s (getenv name))).
Proof.
  intros value. unfold value. cbn [replace_value]. split.
  - destruct (startswith "${" s && endswith "}" s) eqn:Hph; [|by left].
    apply placeholder_spec in Hph as [name ->]. cbv zeta.
    rewrite strip_braces_placeholder.
    destruct (getenv name) as [val|] eqn:Henv; [|by left].
    right. by exists name, val.
  - intros name ->.
    rewrite (proj2 (placeholder_spec _)) by by exists name.
    cbv zeta. by rewrite strip_braces_placeholder.
Qed.

(** X27. [_replace_env_variables] changes strings only: the keys of every
    mapping, the length and order of every list and every other scalar
    stay as they are; and where no variable is set the configuration is
    returned unchanged. *)
Theorem replacing_keeps_the_shape config :
  shape (_replace_env_variables getenv config) = shape config ∧
  ((∀ name, getenv name = None) →
     _replace_env_variables getenv config = config).
Proof.
  unfold _replace_env_variables.
  induction config as [s|items IH|items IH|v] using ConfigValue_ind.
  - split.
    + cbn [replace_value]. by destruct (_ && _).
    + intros Hnone. cbn [replace_value]. destruct (_ && _); [|done].
      cbv zeta. by rewrite Hnone.
  - cbn [replace_value shape]. split.
    + f_equal. rewrite <- list_fmap_compose. apply list_fmap_ext.
      intros i [k x] Hi. simpl. f_equal.
      rewrite Forall_forall in IH. apply (IH (k, x)).
      by eapply list_elem_of_lookup_2.
    + intros Hnone. f_equal. rewrite <- (list_fmap_id items) at 2.
      apply list_fmap_ext. intros i [k x] Hi. simpl. f_equal.
      rewrite Forall_forall in IH. apply (IH (k, x)); [|done].
      by eapply list_elem_of_lookup_2.
  - cbn [replace_value shape]. split.
    + f_equal. rewrite <- list_fmap_compose. apply list_fmap_ext.
      intros i x Hi. simpl.
      rewrite Forall_forall in IH. apply (IH x).
      by eapply list_elem_of_lookup_2.
    + intros Hnone. f_equal. rewrite <- (list_fmap_id items) at 2.
      apply list_fmap_ext. intros i x Hi. simpl.
      rewrite Forall_forall in IH. apply (IH x); [|done].
      by eapply list_elem_of_lookup_2.
  - done.
Qed.

End Replace.

End ConfigFacts.

(** ** Registering a trained model *)

Module TrainerFacts.
Import Registry Trainer Notions MoreNotions Scenarios MoreScenarios.
Import PyFacts ListFacts RegistryFacts.

Ltac in_list :=
  repeat first [apply list_elem_of_here | apply list_elem_of_further].

Lemma register_model_run self ev model_path w info algorithm metrics
    (a f pr rc : Qc) :
  ev_model_info ev = Some info → info !! "model_class" = Some algorithm →
  ev_metrics ev = Some metrics →
  metrics !! "accuracy" = Some a → metrics !! "f1_score" = Some f →
  metrics !! "precision" = Some pr → metrics !! "recall" = Some rc →
  let d :=
    mkData (Some (model_id self)) (Some "v1.0.0") (Some algorithm)
      (Some (<["accuracy" := a]>
               (<["f1_score" := f]>
                  (<["precision" := pr]>
                     (<["recall" := rc]>
                        {[ "roc_auc" :=
                             default 0%Qc (metrics !! "roc_auc") ]})))))
      (Some "candidate") (Some model_path) (Some (model_type self))
      (Some (training_session_id self)) None None in
  _register_model self ev model_path w
    = match add_model d (ticked 1 w) with
      | (inl e, w') => (inl e, w')
      | (inr _, w') => (inr (d, clock w (ticks w)), w')
      end.
Proof.
  intros Hinfo Hclass Hmetrics Ha Hf Hpr Hrc d.
  assert (ticked 1 w
          = mkWorld (registry w) (file w) (clock w) (S (ticks w))
              (uuid_source w) (uuids w)) as ->.
  { unfold ticked. f_equal. lia. }
  unfold _register_model, mbind, M_bind, subscript, now, mret, M_ret.
  rewrite Hinfo, Hclass, Hmetrics, Ha, Hf, Hpr, Hrc. fold d.
  by destruct (add_model d _) as [[e|n] w'].
Qed.

(** X28. A model registered by the trainer is stored at the end of the ledger
    as a candidate of the trainer's type under the trainer's id, with the
    accuracy of the evaluation and the creation time the registry reads
    (not the one the trainer put in the entry it returns). No other entry
    changes, so every type keeps the active entries it had, and the
    registry is written. *)
Theorem trained_model_is_registered_as_candidate (self : ModelTrainer)
    (ev : EvaluationResults) (model_path : string) (w : World)
    (info : gmap string string) (algorithm : string)
    (metrics : gmap string Qc) (a f pr rc : Qc) :
  ev_model_info ev = Some info → info !! "model_class" = Some algorithm →
  ev_metrics ev = Some metrics →
  metrics !! "accuracy" = Some a → metrics !! "f1_score" = Some f →
  metrics !! "precision" = Some pr → metrics !! "recall" = Some rc →
  model_id self ≠ "" →
  let w' := after (_register_model self ev model_path) w in
  ∃ entry e,
    result (_register_model self ev model_path) w
      = inr (entry, clock w (ticks w)) ∧
    md_status entry = Some "candidate" ∧
    ledger w' = ledger w ++ [e] ∧
    e_id e = model_id self ∧ e_status e = "candidate" ∧
    e_model_type e = Some (model_type self) ∧ e_algorithm e = algorithm ∧
    accuracy e = a ∧ e_created_at e = clock w (S (ticks w)) ∧
    (∀ T, active_count T (ledger w') = active_count T (ledger w)) ∧
    persisted w'.
Proof.
  intros Hinfo Hclass Hmetrics Ha Hf Hpr Hrc Hid w'.
  pose proof (register_model_run self ev model_path w info algorithm metrics
                a f pr rc Hinfo Hclass Hmetrics Ha Hf Hpr Hrc) as Hrun.
  cbv zeta in Hrun. set (d := mkData _ _ _ _ _ _ _ _ _ _) in Hrun.
  assert (first_missing d = None) as Hd by reflexivity.
  destruct (add_model_ok d (ticked 1 w) Hd) as (Hadd & Hl & Hfile).
  rewrite Hadd in Hrun.
  assert (w' = after (add_model d) (ticked 1 w)) as Hw'.
  { unfold w', after at 1. by rewrite Hrun. }
  rewrite bool_decide_eq_false_2 in Hl by done.
  exists d, (stored_entry d (ticked 1 w)).
  assert (truthy (model_id self) = true) as Htruthy.
  { unfold truthy. by destruct (String.eqb_spec (model_id self) ""). }
  split_and!.
  - unfold result. by rewrite Hrun.
  - done.
  - by rewrite Hw', Hl.
  - unfold stored_entry. simpl. by rewrite Htruthy.
  - done.
  - done.
  - done.
  - unfold accuracy, stored_entry. simpl. by rewrite lookup_insert_eq.
  - unfold stored_entry. simpl. do 2 f_equal. lia.
  - intros T. rewrite Hw', Hl, active_count_app.
    change (ledger (ticked 1 w)) with (ledger w).
    rewrite active_count_cons. unfold counted.
    rewrite decide_False; [simpl; unfold active_count; simpl; lia|].
    by intros [_ ?].
  - by rewrite Hw'.
Qed.

(** X29. When the evaluation lacks one of the metrics accuracy, f1_score,
    precision and recall, the registration raises a [KeyError] that names
    the first of them, in this order, that is missing, and leaves the
    registry, its file and the clock as they were. *)
Theorem registration_needs_the_four_metrics (self : ModelTrainer)
    (ev : EvaluationResults) (model_path : string) (w : World)
    (info : gmap string string) (algorithm : string)
    (metrics : gmap string Qc) (key : string) :
  ev_model_info ev = Some info → info !! "model_class" = Some algorithm →
  ev_metrics ev = Some metrics →
  key ∈ ["accuracy"; "f1_score"; "precision"; "recall"] →
  metrics !! key = None →
  ∃ present missing rest,
    ["accuracy"; "f1_score"; "precision"; "recall"]
      = present ++ missing :: rest ∧
    Forall (λ k, is_Some (metrics !! k)) present ∧
    metrics !! missing = None ∧
    _register_model self ev model_path w = (inl (KeyError missing), w).
Proof.
  intros Hinfo Hclass Hmetrics Hkey Hnone.
  unfold _register_model, mbind, M_bind, subscript, raise, mret, M_ret.
  rewrite Hinfo, Hclass, Hmetrics.
  destruct (metrics !! "accuracy") as [a|] eqn:Ha;
    [|by exists [], "accuracy", ["f1_score"; "precision"; "recall"]].
  destruct (metrics !! "f1_score") as [f|] eqn:Hf.
  2: { exists ["accuracy"], "f1_score", ["precision"; "recall"].
       split_and!; [done| |done..]. repeat constructor. by rewrite Ha. }
  destruct (metrics !! "precision") as [pr|] eqn:Hpr.
  2: { exists ["accuracy"; "f1_score"], "precision", ["recall"].
       split_and!; [done| |done..]. repeat constructor; by rewrite ?Ha, ?Hf. }
  destruct (metrics !! "recall") as [rc|] eqn:Hrc.
  2: { exists ["accuracy"; "f1_score"; "precision"], "recall", [].
       split_and!; [done| |done..].
       repeat constructor; by rewrite ?Ha, ?Hf, ?Hpr. }
  exfalso. rewrite !elem_of_cons, elem_of_nil in Hkey.
  destruct Hkey as [->|[->|[->|[->|[]]]]]; congruence.
Qed.

Lemma trained_model_is_registered_as_candidate_witness :
  (ev_model_info demo_evaluation
     = Some {[ "model_class" := "RandomForestClassifier" ]} ∧
   model_id demo_trainer = "trained-1") ∧
  ∃ e, ledger (after (_register_model demo_trainer demo_evaluation
                        "models/full_time.joblib") demo_world_tie)
         = ledger demo_world_tie ++ [e] ∧
       e_status e = "candidate".
Proof.
  split; [done|].
  destruct (trained_model_is_registered_as_candidate demo_trainer
              demo_evaluation "models/full_time.joblib" demo_world_tie
              {[ "model_class" := "RandomForestClassifier" ]}
              "RandomForestClassifier" demo_metrics
              (ratio 88 100) (ratio 86 100) (ratio 87 100) (ratio 85 100)
              eq_refl eq_refl eq_refl eq_refl eq_refl eq_refl eq_refl
              ltac:(done))
    as (entry & e & _ & _ & Hl & _ & Hs & _).
  by exists e.
Defined.

Lemma registration_needs_the_four_metrics_witness :
  delete "recall" demo_metrics !! "recall" = None ∧
  _register_model demo_trainer
    (mkEvaluation (ev_model_info demo_evaluation)
       (Some (delete "recall" demo_metrics)))
    "models/full_time.joblib" demo_world_tie
  = (inl (KeyError "recall"), demo_world_tie).
Proof.
  split; [reflexivity|].
  destruct (registration_needs_the_four_metrics demo_trainer
              (mkEvaluation (ev_model_info demo_evaluation)
                 (Some (delete "recall" demo_metrics)))
              "models/full_time.joblib" demo_world_tie
              {[ "model_class" := "RandomForestClassifier" ]}
              "RandomForestClassifier" (delete "recall" demo_metrics)
              "recall" eq_refl eq_refl eq_refl ltac:(in_list) eq_refl)
    as (present & missing & rest & Hlist & Hpresent & Hmissing & Hrun).
  rewrite Hrun. do 2 f_equal.
  destruct present as [|k1 [|k2 [|k3 [|k4 present]]]]; simplify_eq/=;
    [by vm_compute in Hmissing..|done|].
  by destruct present.
Defined.

End TrainerFacts.
